(** * spotify-cleaner: the API client, the filter engine, the clean command and the token flow

    A shallow embedding of [spotify_client.py], of the filter and the
    [clean] command of [cli.py], of the picker of [interactive.py] and of
    [auth.py], with the properties of the specification stated over it.

    Python values that come out of [response.json()] are modelled by [json];
    Python's [None] is [JNull].  Code that talks to the network runs in a small
    monad [M] that threads a state, collects the observable events (requests
    sent, seconds slept, console output) and propagates Python exceptions.
    The libraries the program calls ([requests], [re], rich, [keyring], the
    browser and the listener) are parameters of the model. *)

From Stdlib Require Import ZArith List String Ascii Bool Lia Permutation.
From Stdlib Require Import PrimFloat SpecFloat FloatOps.
Import ListNotations.
Open Scope string_scope.
Open Scope list_scope.
Set Warnings "-register-all".

(* ================================================================== *)
(** ** Python values *)
(* ================================================================== *)

(** The values [json.loads] produces.  An object keeps its members in
    insertion order (iteration order matters to [list.extend]); a parsed
    object has each key once, and [dict_get] reads the first binding. *)
Inductive json : Type :=
| JNull
| JBool (b : bool)
| JInt (n : Z)
| JFloat (f : float)
| JStr (s : string)
| JList (l : list json)
| JDict (d : list (string * json)).

(** The exceptions the modelled code can meet.  [RequestException] stands
    for the whole [requests.exceptions.RequestException] family; [HTTPError]
    is the member [raise_for_status] raises.  [ReError] is [re.error] with
    the text [str(e)] gives, [MarkupError] is what rich raises on markup
    it cannot close, [OSError] a failed write to a socket. *)
Inductive request_exception : Type :=
| HTTPError (status : Z)
| ConnectionError
| Timeout
| JSONDecodeError
| OtherRequestException.

Inductive exn : Type :=
| RequestException (k : request_exception)
| ValueError
| OverflowError
| KeyError (key : string)
| TypeError
| AttributeError
| ReError (msg : string)
| MarkupError
| OSError.

Definition is_RequestException (e : exn) : bool :=
  match e with RequestException _ => true | _ => false end.

Definition is_HTTPError (e : exn) : bool :=
  match e with RequestException (HTTPError _) => true | _ => false end.

Definition is_ReError (e : exn) : bool :=
  match e with ReError _ => true | _ => false end.

(** [str(e)] of a [re.error]. *)
Definition re_error_text (e : exn) : string :=
  match e with ReError msg => msg | _ => "" end.

(** A computation that returns or raises. *)
Inductive result (A : Type) : Type :=
| Ok (a : A)
| Raise (e : exn).
Arguments Ok {A} a.
Arguments Raise {A} e.

Definition rbind {A B} (r : result A) (k : A -> result B) : result B :=
  match r with
  | Ok a => k a
  | Raise e => Raise e
  end.

(** [bool(v)]: Python truthiness. *)
Definition truthy (v : json) : bool :=
  match v with
  | JNull => false
  | JBool b => b
  | JInt n => negb (n =? 0)%Z
  | JFloat f => negb (PrimFloat.is_zero f)
  | JStr s => negb (s =? "")
  | JList l => match l with [] => false | _ => true end
  | JDict d => match d with [] => false | _ => true end
  end.

Fixpoint dict_get (k : string) (d : list (string * json)) : option json :=
  match d with
  | [] => None
  | (k', v) :: d' => if k =? k' then Some v else dict_get k d'
  end.

(** [v.get(k, default)]: only a dict has [get]. *)
Definition py_get (v : json) (k : string) (default : json) : result json :=
  match v with
  | JDict d => Ok (match dict_get k d with Some x => x | None => default end)
  | _ => Raise AttributeError
  end.

(** [v[k]] with a string key. *)
Definition py_getitem (v : json) (k : string) : result json :=
  match v with
  | JDict d => match dict_get k d with Some x => Ok x | None => Raise (KeyError k) end
  | _ => Raise TypeError
  end.

(** [iter(v)], as [list.extend] consumes it. *)
Definition py_iter (v : json) : result (list json) :=
  match v with
  | JList l => Ok l
  | JDict d => Ok (map (fun kv => JStr (fst kv)) d)
  | JStr s => Ok (map (fun c => JStr (String c EmptyString)) (list_ascii_of_string s))
  | _ => Raise TypeError
  end.

(** Exact comparison of a binary64 float with an integer. *)
Definition float_eq_int (f : float) (n : Z) : bool :=
  match Prim2SF f with
  | S754_zero _ => (n =? 0)%Z
  | S754_finite s m e =>
      let v := if s then Z.neg m else Z.pos m in
      if (0 <=? e)%Z then (n =? v * 2 ^ e)%Z else (n * 2 ^ (- e) =? v)%Z
  | _ => false
  end.

Inductive number : Type :=
| NInt (n : Z)
| NFloat (f : float).

(** [bool] is a subclass of [int]: [True == 1] and [False == 0]. *)
Definition as_number (v : json) : option number :=
  match v with
  | JBool b => Some (NInt (if b then 1 else 0)%Z)
  | JInt n => Some (NInt n)
  | JFloat f => Some (NFloat f)
  | _ => None
  end.

Definition number_eq (a b : number) : bool :=
  match a, b with
  | NInt x, NInt y => (x =? y)%Z
  | NInt x, NFloat g => float_eq_int g x
  | NFloat f, NInt y => float_eq_int f y
  | NFloat f, NFloat g => PrimFloat.eqb f g
  end.

(** [a == b] on parsed JSON.  Two objects are equal when they bind the same
    keys to equal values. *)
Fixpoint py_eq (a b : json) {struct a} : bool :=
  match a, b with
  | JNull, JNull => true
  | JStr s, JStr t => (s =? t)
  | JList l, JList m =>
      (fix list_eq (l m : list json) {struct l} : bool :=
         match l, m with
         | [], [] => true
         | x :: l', y :: m' => py_eq x y && list_eq l' m'
         | _, _ => false
         end) l m
  | JDict d, JDict d' =>
      (List.length d =? List.length d')%nat &&
      (fix dict_sub (d : list (string * json)) {struct d} : bool :=
         match d with
         | [] => true
         | (k, v) :: r =>
             match dict_get k d' with
             | Some v' => py_eq v v'
             | None => false
             end && dict_sub r
         end) d
  | JBool x, _ =>
      match as_number b with Some n => number_eq (NInt (if x then 1 else 0)%Z) n | None => false end
  | JInt x, _ =>
      match as_number b with Some n => number_eq (NInt x) n | None => false end
  | JFloat x, _ =>
      match as_number b with Some n => number_eq (NFloat x) n | None => false end
  | _, _ => false
  end.

(** [a != b]: for every built-in type that JSON parses to, the negation of
    [==]. *)
Definition py_ne (a b : json) : bool := negb (py_eq a b).

(* ------------------------------------------------------------------ *)
(** *** Strings *)

Definition lower_ascii (c : ascii) : ascii :=
  let n := nat_of_ascii c in
  if (65 <=? n)%nat && (n <=? 90)%nat then ascii_of_nat (n + 32) else c.

(** [str.lower()] on the ASCII letters; the keywords it is compared with
    ('me', 'not-me') are the lower-case form of ASCII text only. *)
Fixpoint lower (s : string) : string :=
  match s with
  | EmptyString => EmptyString
  | String c s' => String (lower_ascii c) (lower s')
  end.

Definition startswith (p s : string) : bool := String.prefix p s.

(* ------------------------------------------------------------------ *)
(** *** [int(str)] *)

(** The characters [int] strips from a string of code points below 256
    (header values are decoded as latin-1): tab, line feed, vertical tab,
    form feed, carriage return and space, which the parser skips, and the
    two blanks above 127, U+0085 and U+00A0, which [int] turns into spaces
    first.  The separators 0x1C to 0x1F are left in place, so [int]
    refuses a string that holds one. *)
Definition is_space (c : ascii) : bool :=
  let n := nat_of_ascii c in
  ((9 <=? n) && (n <=? 13) || (n =? 32) || (n =? 133) || (n =? 160))%nat.

Definition digit_value (c : ascii) : option Z :=
  let n := nat_of_ascii c in
  if (48 <=? n)%nat && (n <=? 57)%nat then Some (Z.of_nat (n - 48)) else None.

Fixpoint lstrip (l : list ascii) : list ascii :=
  match l with
  | c :: l' => if is_space c then lstrip l' else l
  | [] => []
  end.

Definition strip (l : list ascii) : list ascii := rev (lstrip (rev (lstrip l))).

(** Digits with single underscores between them; [after_us] tells that the
    previous character was an underscore.  Returns the value and the number
    of digits read. *)
Fixpoint parse_digits (acc : Z) (count : nat) (after_us : bool) (l : list ascii)
  : option (Z * nat) :=
  match l with
  | [] => if after_us then None else Some (acc, count)
  | c :: l' =>
      match digit_value c with
      | Some d => parse_digits (acc * 10 + d)%Z (S count) false l'
      | None =>
          if Ascii.eqb c "_" then
            if after_us then None else parse_digits acc count true l'
          else None
      end
  end.

Definition parse_unsigned (l : list ascii) : option (Z * nat) :=
  match l with
  | c :: l' =>
      match digit_value c with
      | Some d => parse_digits d 1 false l'
      | None => None
      end
  | [] => None
  end.

(** [sys.int_max_str_digits], the default limit of CPython 3.11 and later. *)
Definition int_max_str_digits : nat := 4300.

(** [int(s)] for a string: [Some n], or [None] where Python raises
    [ValueError]. *)
Definition py_int (s : string) : option Z :=
  let body := strip (list_ascii_of_string s) in
  let signed :=
    match body with
    | c :: rest =>
        if Ascii.eqb c "-" then (true, rest)
        else if Ascii.eqb c "+" then (false, rest)
        else (false, body)
    | [] => (false, [])
    end in
  match parse_unsigned (snd signed) with
  | Some (n, digits) =>
      if (digits <=? int_max_str_digits)%nat
      then Some (if fst signed then (- n)%Z else n)
      else None
  | None => None
  end.


(* ================================================================== *)
(** ** HTTP, events and the monad *)
(* ================================================================== *)

Inductive http_method : Type := GET | POST | PUT | DELETE.

(** The [params] dictionaries of this program bind names to integers. *)
Definition query : Type := list (string * Z).

Record request : Type := mk_request {
  rq_method : http_method;
  rq_url : string;
  rq_headers : list (string * string);
  rq_params : option query;
  rq_json : option json
}.

(** [response.content]: empty, a JSON document, or bytes that do not parse. *)
Inductive body : Type :=
| BEmpty
| BJson (v : json)
| BMalformed.

Record response : Type := mk_response {
  status_code : Z;
  headers : list (string * string);
  content : body
}.

(** [response.headers.get(name)]: the header names compare without case. *)
Fixpoint headers_get (name : string) (hs : list (string * string)) : option string :=
  match hs with
  | [] => None
  | (k, v) :: hs' => if lower k =? lower name then Some v else headers_get name hs'
  end.

(** [response.raise_for_status()]. *)
Definition raise_for_status (r : response) : result unit :=
  if (400 <=? status_code r)%Z && (status_code r <? 600)%Z
  then Raise (RequestException (HTTPError (status_code r)))
  else Ok tt.

(** [response.json()]; requests raises its own [JSONDecodeError], a
    [RequestException], on a body that does not parse. *)
Definition response_json (r : response) : result json :=
  match content r with
  | BJson v => Ok v
  | _ => Raise (RequestException JSONDecodeError)
  end.

Inductive message : Type :=
| MsgRateLimited (retry_after : Z)
| MsgRequestError (e : exn)
| MsgFetchingAll
| MsgFound (count : nat)
| MsgErrorFetchingPlaylists (e : exn)
| MsgErrorFetchingPage (e : exn)
| MsgErrorUnfollowing (playlist_id : string) (e : exn)
| MsgFetchingProfile
| MsgInvalidRegex (e : exn).

(** What an observer of the process sees, in order. *)
Inductive event : Type :=
| EvRequest (rq : request)
| EvSleep (seconds : Z)
| EvPrint (m : message).

(** A computation over a state [S]: it returns or raises, leaves a state,
    and emits events. *)
Definition M (S A : Type) : Type := S -> result A * S * list event.

Definition ret {S A} (a : A) : M S A := fun s => (Ok a, s, []).

Definition raise {S A} (e : exn) : M S A := fun s => (Raise e, s, []).

Definition bind {S A B} (c : M S A) (k : A -> M S B) : M S B :=
  fun s =>
    match c s with
    | (Ok a, s1, ev1) => let '(r, s2, ev2) := k a s1 in (r, s2, ev1 ++ ev2)
    | (Raise e, s1, ev1) => (Raise e, s1, ev1)
    end.

Notation "x <- c ;; k" := (bind c (fun x => k))
  (at level 61, c at next level, right associativity).
Notation "c ;;; k" := (bind c (fun _ => k))
  (at level 61, right associativity).

Definition lift_result {S A} (r : result A) : M S A := fun s => (r, s, []).

Definition emit {S} (e : event) : M S unit := fun s => (Ok tt, s, [e]).

Definition console_print {S} (m : message) : M S unit := emit (EvPrint m).

(** [console.print(text)] for a text that holds values of the run.  rich
    reads the text as markup before anything is shown: [render] is
    [rich.markup.render], and what it raises leaves [console.print].  [m]
    is the line an observer sees when the text renders. *)
Definition console_print_markup {S} (render : string -> result unit)
    (text : string) (m : message) : M S unit :=
  fun s =>
    match render text with
    | Ok _ => (Ok tt, s, [EvPrint m])
    | Raise e => (Raise e, s, [])
    end.

(** [try: c  except E as e: handler e], where [catches] decides membership
    in [E]. *)
Definition try_except {S A} (c : M S A) (catches : exn -> bool) (handler : exn -> M S A)
  : M S A :=
  fun s =>
    match c s with
    | (Raise e, s1, ev1) =>
        if catches e
        then let '(r, s2, ev2) := handler e s1 in (r, s2, ev1 ++ ev2)
        else (Raise e, s1, ev1)
    | done => done
    end.

(** The largest number of seconds whose nanoseconds fit the interpreter's
    64-bit clock. *)
Definition sleep_max : Z := 9223372036.
Definition sleep_min : Z := -9223372036.

(** [time.sleep(n)] for an integer: the conversion to nanoseconds overflows
    outside the clock's range, and a negative length is refused. *)
Definition time_sleep {S} (n : Z) : M S unit :=
  if (n <? sleep_min)%Z || (sleep_max <? n)%Z then raise OverflowError
  else if (n <? 0)%Z then raise ValueError
  else emit (EvSleep n).

Definition API_BASE_URL : string := "https://api.spotify.com/v1/".

(** The fields of a [SpotifyClient] instance. *)
Record SpotifyClient : Type := mk_client {
  _access_token : string;
  _headers : list (string * string);
  _user_data : json
}.

(** [SpotifyClient.__init__]: an absent or empty token is refused. *)
Definition SpotifyClient_init (access_token : option string) : result SpotifyClient :=
  match access_token with
  | None => Raise ValueError
  | Some t =>
      if t =? "" then Raise ValueError
      else Ok {| _access_token := t;
                 _headers := [("Authorization", ("Bearer " ++ t)%string)];
                 _user_data := JNull |}
  end.

Section Client.

(** The network: [requests.request] answers a request with a response or
    raises, and the remote side may change. *)
Variable World : Type.
Variable send : request -> World -> result response * World.

Definition requests_request (rq : request) : M World response :=
  fun w => let (r, w') := send rq w in (r, w', [EvRequest rq]).

(** What [_request] does with a response it does not retry. *)
Definition finish_response (resp : response) : M World json :=
  lift_result (raise_for_status resp) ;;;
  match content resp with
  | BEmpty => ret JNull
  | _ => lift_result (response_json resp)
  end.

(** [int(response.headers.get("Retry-After", 5))]. *)
Definition retry_after_of (resp : response) : M World Z :=
  match headers_get "Retry-After" (headers resp) with
  | Some h =>
      match py_int h with
      | Some n => ret n
      | None => raise ValueError
      end
  | None => ret 5%Z
  end.

(** [SpotifyClient._request].  The retry budget is a natural number: the
    callers pass the default 3, the recursion counts down, and a budget
    that is not positive never retries.  The test [retries > 0] is the
    match on [S retries']. *)
Fixpoint _request (self : SpotifyClient) (method : http_method) (endpoint : string)
    (params : option query) (json_body : option json) (retries : nat) {struct retries}
  : M World json :=
  let url := if startswith "http" endpoint then endpoint else (API_BASE_URL ++ endpoint)%string in
  try_except
    (resp <- requests_request (mk_request method url (_headers self) params json_body) ;;
     match retries with
     | S retries' =>
         if (status_code resp =? 429)%Z then
           retry_after <- retry_after_of resp ;;
           console_print (MsgRateLimited retry_after) ;;;
           time_sleep retry_after ;;;
           _request self method endpoint params json_body retries'
         else finish_response resp
     | O => finish_response resp
     end)
    is_RequestException
    (fun e => console_print (MsgRequestError e) ;;; ret JNull).

(** A call [self._request(method, url, ...)] whose endpoint is a value
    read from a response: only a string has [startswith]. *)
Definition _request_value (self : SpotifyClient) (method : http_method) (endpoint : json)
    (params : option query) : M World json :=
  match endpoint with
  | JStr s => _request self method s params None 3
  | _ => raise AttributeError
  end.

(** How one turn of the loop of [get_all_playlists] ends. *)
Inductive turn : Type :=
| Break (all_playlists : list json)
| Continue (all_playlists : list json) (url : json).

(** The body of the [while] loop with its [try]/[except].  No statement
    after [extend] can raise an [HTTPError], so the handler sees the list
    as it was when the turn began. *)
Definition playlists_turn (self : SpotifyClient) (url : json) (params : option query)
    (all_playlists : list json) : M World turn :=
  try_except
    (data <- _request_value self GET url params ;;
     if negb (truthy data) then ret (Break all_playlists)
     else
       items <- lift_result (py_getitem data "items") ;;
       new <- lift_result (py_iter items) ;;
       next <- lift_result (py_get data "next" JNull) ;;
       console_print (MsgFound (List.length (all_playlists ++ new))) ;;;
       ret (Continue (all_playlists ++ new) next))
    is_HTTPError
    (fun e => console_print (MsgErrorFetchingPlaylists e) ;;; ret (Break all_playlists)).

(** The [while url:] loop; [None] when [fuel] turns do not end it. *)
Fixpoint playlists_loop (self : SpotifyClient) (fuel : nat) (url : json)
    (params : option query) (all_playlists : list json) (w : World)
  : option (result (list json) * World * list event) :=
  if truthy url then
    match fuel with
    | O => None
    | S fuel' =>
        match playlists_turn self url params all_playlists w with
        | (Ok (Break done), w1, ev1) => Some (Ok done, w1, ev1)
        | (Ok (Continue acc next), w1, ev1) =>
            match playlists_loop self fuel' next None acc w1 with
            | Some (r, w2, ev2) => Some (r, w2, ev1 ++ ev2)
            | None => None
            end
        | (Raise e, w1, ev1) => Some (Raise e, w1, ev1)
        end
    end
  else Some (Ok all_playlists, w, []).

(** [SpotifyClient.get_all_playlists]. *)
Definition get_all_playlists (self : SpotifyClient) (fuel : nat) (w : World)
  : option (result (list json) * World * list event) :=
  match playlists_loop self fuel (JStr "me/playlists") (Some [("limit", 50%Z)]) [] w with
  | Some (r, w', ev) => Some (r, w', EvPrint MsgFetchingAll :: ev)
  | None => None
  end.

(** [SpotifyClient.get_playlists_page]. *)
Definition get_playlists_page (self : SpotifyClient) (page limit : Z) : M World json :=
  let params := [("limit", limit); ("offset", ((page - 1) * limit)%Z)] in
  try_except
    (_request self GET "me/playlists" (Some params) None 3)
    is_HTTPError
    (fun e => console_print (MsgErrorFetchingPage e) ;;; ret JNull).

(** [SpotifyClient.unfollow_playlist]. *)
Definition unfollow_playlist (self : SpotifyClient) (playlist_id : string) : M World bool :=
  try_except
    (_request self DELETE ("playlists/" ++ playlist_id ++ "/followers")%string None None 3 ;;;
     ret true)
    is_HTTPError
    (fun e => console_print (MsgErrorUnfollowing playlist_id e) ;;; ret false).

(** A client instance together with the network it talks to. *)
Record state : Type := mk_state {
  world : World;
  self_ : SpotifyClient
}.

(** Run a computation that only reads [self]. *)
Definition on_world {A} (c : SpotifyClient -> M World A) : M state A :=
  fun st =>
    let '(r, w, ev) := c (self_ st) (world st) in
    (r, {| world := w; self_ := self_ st |}, ev).

Definition set_user_data (v : json) : M state unit :=
  fun st =>
    (Ok tt,
     {| world := world st;
        self_ := {| _access_token := _access_token (self_ st);
                    _headers := _headers (self_ st);
                    _user_data := v |} |},
     []).

Definition is_None (v : json) : bool :=
  match v with JNull => true | _ => false end.

Definition get_user_data : M state json :=
  fun st => (Ok (_user_data (self_ st)), st, []).

(** [SpotifyClient.get_current_user]. *)
Definition get_current_user : M state json :=
  cached <- get_user_data ;;
  (if is_None cached then
     console_print MsgFetchingProfile ;;;
     v <- on_world (fun self => _request self GET "me" None None 3) ;;
     set_user_data v
   else ret tt) ;;;
  get_user_data.

End Client.

Arguments requests_request {World} send rq _.
Arguments finish_response {World} resp _.
Arguments retry_after_of {World} resp _.
Arguments _request {World} send self method endpoint params json_body retries _.
Arguments _request_value {World} send self method endpoint params _.
Arguments playlists_turn {World} send self url params all_playlists _.
Arguments playlists_loop {World} send self fuel url params all_playlists w.
Arguments get_all_playlists {World} send self fuel w.
Arguments get_playlists_page {World} send self page limit _.
Arguments unfollow_playlist {World} send self playlist_id _.
Arguments state World : clear implicits.
Arguments mk_state {World} world self_.
Arguments world {World} s.
Arguments self_ {World} s.
Arguments on_world {World A} c _.
Arguments set_user_data {World} v _.
Arguments get_user_data {World} _.
Arguments get_current_user {World} send _.

(** The request [_request] puts on the wire for its arguments. *)
Definition request_for (self : SpotifyClient) (method : http_method) (endpoint : string)
    (params : option query) (json_body : option json) : request :=
  mk_request method
    (if startswith "http" endpoint then endpoint else (API_BASE_URL ++ endpoint)%string)
    (_headers self) params json_body.

(** A response that [_request] hands back as its JSON document. *)
Definition answers (resp : response) (v : json) : Prop :=
  (status_code resp <> 429 /\ raise_for_status resp = Ok tt /\ content resp = BJson v)%Z.

(** *** What a 429 response asks for

    The header and the number of seconds in the words of the
    specification, written without the functions of the client. *)








(* ================================================================== *)
(** ** The filter engine ([cli.py]) *)
(* ================================================================== *)

(** A list comprehension [[p for p in l if keep p]] whose condition may
    raise: the first exception, in list order, ends it. *)
Fixpoint filter_r (keep : json -> result bool) (l : list json) : result (list json) :=
  match l with
  | [] => Ok []
  | p :: l' =>
      rbind (keep p) (fun b =>
      rbind (filter_r keep l') (fun rest =>
      Ok (if b then p :: rest else rest)))
  end.

(** [p.get('owner', {}).get('id')]. *)
Definition owner_id (p : json) : result json :=
  rbind (py_get p "owner" (JDict [])) (fun o => py_get o "id" JNull).

(** The conditions of the comprehensions, one per criterion. *)
Definition owned_by (id : json) (p : json) : result bool :=
  rbind (owner_id p) (fun i => Ok (py_eq i id)).

Definition not_owned_by (id : json) (p : json) : result bool :=
  rbind (owner_id p) (fun i => Ok (py_ne i id)).

Definition collaborative_is (flag : bool) (p : json) : result bool :=
  rbind (py_get p "collaborative" JNull) (fun c => Ok (py_eq c (JBool flag))).

Definition has_no_tracks (p : json) : result bool :=
  rbind (py_get p "tracks" (JDict [])) (fun t =>
  rbind (py_get t "total" (JInt (-1))) (fun n => Ok (py_eq n (JInt 0)))).

Definition has_no_description (p : json) : result bool :=
  rbind (py_get p "description" JNull) (fun d => Ok (negb (truthy d))).

(** [if s:] for an optional string: present and not empty. *)
Definition given (s : option string) : option string :=
  match s with
  | Some t => if t =? "" then None else Some t
  | None => None
  end.

(** A stage of the filter either returns from the function or goes on with
    the narrowed list. *)
Inductive flow : Type :=
| Return (playlists : list json)
| Next (filtered_playlists : list json).

Section Filters.

Variable World : Type.
Variable send : request -> World -> result response * World.

(** The [re] module: [re.compile(pattern, re.IGNORECASE)] gives a compiled
    pattern or raises ([ReError] is [re.error]); [search] on a string
    tells whether the pattern matches somewhere. *)
Variable regex : Type.
Variable re_compile : string -> result regex.
Variable re_search : regex -> string -> bool.

(** [rich.markup.render], which [console.print] applies to a string: it
    returns, or raises [MarkupError] on a closing tag with nothing to
    close. *)
Variable render : string -> result unit.

(** The line the handler of the name stage prints. *)
Definition invalid_regex_line (e : exn) : string :=
  ("[bold red]Invalid regex for --name: " ++ re_error_text e ++ "[/bold red]")%string.

(** [name_re.search(v)]: the argument must be a string. *)
Definition name_matches (name_re : regex) (p : json) : result bool :=
  rbind (py_get p "name" (JStr "")) (fun v =>
    match v with
    | JStr s => Ok (re_search name_re s)
    | _ => Raise TypeError
    end).

Definition name_stage (name : option string) (filtered_playlists : list json)
  : M (state World) flow :=
  match given name with
  | Some pattern =>
      try_except
        (name_re <- lift_result (re_compile pattern) ;;
         l <- lift_result (filter_r (name_matches name_re) filtered_playlists) ;;
         ret (Next l))
        is_ReError
        (fun e =>
           console_print_markup render (invalid_regex_line e) (MsgInvalidRegex e) ;;;
           ret (Return []))
  | None => ret (Next filtered_playlists)
  end.

Definition owner_stage (owner : option string) (filtered_playlists : list json)
  : M (state World) flow :=
  match given owner with
  | Some o =>
      current_user <- get_current_user send ;;
      if negb (truthy current_user) then ret (Return [])
      else
        current_user_id <- lift_result (py_getitem current_user "id") ;;
        l <- lift_result
               (if lower o =? "me" then
                  filter_r (owned_by current_user_id) filtered_playlists
                else if lower o =? "not-me" then
                  filter_r (not_owned_by current_user_id) filtered_playlists
                else
                  filter_r (owned_by (JStr o)) filtered_playlists) ;;
        ret (Next l)
  | None => ret (Next filtered_playlists)
  end.

(** The three criteria that need neither the network nor [re]. *)
Definition flag_stages (is_collaborative : option bool) (empty no_description : bool)
    (filtered_playlists : list json) : result (list json) :=
  rbind (match is_collaborative with
         | Some flag => filter_r (collaborative_is flag) filtered_playlists
         | None => Ok filtered_playlists
         end) (fun l1 =>
  rbind (if empty then filter_r has_no_tracks l1 else Ok l1) (fun l2 =>
  if no_description then filter_r has_no_description l2 else Ok l2)).

(** [_apply_filters_to_playlists]; the [client] argument is the instance
    held in the state. *)
Definition _apply_filters_to_playlists (playlists : list json)
    (name owner : option string) (is_collaborative : option bool)
    (empty no_description : bool) : M (state World) (list json) :=
  let filtered_playlists := playlists in
  s1 <- name_stage name filtered_playlists ;;
  match s1 with
  | Return r => ret r
  | Next filtered_playlists =>
      s2 <- owner_stage owner filtered_playlists ;;
      match s2 with
      | Return r => ret r
      | Next filtered_playlists =>
          lift_result (flag_stages is_collaborative empty no_description filtered_playlists)
      end
  end.

End Filters.

Arguments name_matches {regex} re_search name_re p.
Arguments invalid_regex_line e : simpl never.
Arguments name_stage {World regex} re_compile re_search render name filtered_playlists _.
Arguments owner_stage {World} send owner filtered_playlists _.
Arguments _apply_filters_to_playlists {World} send {regex} re_compile re_search render
  playlists name owner is_collaborative empty no_description _.

(* ================================================================== *)
(** ** The authorization URL ([auth.py]) *)
(* ================================================================== *)

Module Auth.

Definition REDIRECT_URI : string := "http://127.0.0.1:8888/callback".

Definition SCOPES : string :=
  "user-read-email playlist-modify-public playlist-modify-private playlist-read-private playlist-read-collaborative".

(** Step 1 of [_perform_auth_flow]: [None] when a credential is missing
    (no URL is built), otherwise the URL handed to the browser.
    [CLIENT_ID] and [CLIENT_SECRET] are what [os.getenv] returned. *)
Definition auth_url (CLIENT_ID CLIENT_SECRET : option string) : option string :=
  match given CLIENT_ID, given CLIENT_SECRET with
  | Some client_id, Some _ =>
      Some ("https://accounts.spotify.com/authorize?" ++
            "client_id=" ++ client_id ++ "&" ++
            "response_type=code&" ++
            "redirect_uri=" ++ REDIRECT_URI ++ "&" ++
            "scope=" ++ SCOPES)%string
  | _, _ => None
  end.

(** [s.partition(sep)]: the text before the first [sep] and, when there
    is one, the text after it. *)
Fixpoint partition_at (sep : ascii) (s : string) : string * option string :=
  match s with
  | EmptyString => (EmptyString, None)
  | String c s' =>
      if Ascii.eqb c sep then (EmptyString, Some s')
      else let (h, t) := partition_at sep s' in (String c h, t)
  end.

(** [s.split(sep)]. *)
Fixpoint split_on (sep : ascii) (s : string) : list string :=
  match s with
  | EmptyString => [EmptyString]
  | String c s' =>
      if Ascii.eqb c sep then EmptyString :: split_on sep s'
      else match split_on sep s' with
           | h :: t => String c h :: t
           | [] => [String c EmptyString]
           end
  end.

(** The query of a URL: what stands between the first '?' and the
    fragment. *)
Definition query_of (url : string) : string :=
  match snd (partition_at "?" (fst (partition_at "#" url))) with
  | Some q => q
  | None => EmptyString
  end.

(** The [name=value] pairs of a URL, in order. *)
Definition query_params (url : string) : list (string * string) :=
  map (fun kv =>
         let (k, v) := partition_at "=" kv in
         (k, match v with Some x => x | None => EmptyString end))
      (split_on "&" (query_of url)).

Fixpoint lookup (k : string) (l : list (string * string)) : option string :=
  match l with
  | [] => None
  | (k', v) :: l' => if k =? k' then Some v else lookup k l'
  end.

Definition query_param (k : string) (url : string) : option string :=
  lookup k (query_params url).

(** The scope names the program requests: the words of [SCOPES]. *)
Definition scope_names : list string := split_on " " SCOPES.

Fixpoint has_char (c : ascii) (s : string) : bool :=
  match s with
  | EmptyString => false
  | String c' s' => Ascii.eqb c' c || has_char c s'
  end.

(** A client id that does not itself end a query parameter or the query. *)
Definition plain_id (s : string) : bool :=
  negb (has_char "&" s) && negb (has_char "#" s).

End Auth.

(* ================================================================== *)
(** ** Paginated sources, records and test doubles *)
(* ================================================================== *)

(** A source of [xs] served [L] items a page: every page but the last has
    [L] items and the last has the rest; an empty source has one empty
    page.  The recursion is on [fuel], which [chunks] sets to the number of
    items. *)
Fixpoint chunks_fuel (fuel L : nat) (xs : list json) : list (list json) :=
  match fuel with
  | O => [xs]
  | S fuel' =>
      if (List.length xs <=? L)%nat then [xs]
      else firstn L xs :: chunks_fuel fuel' L (skipn L xs)
  end.

Definition chunks (L : nat) (xs : list json) : list (list json) :=
  chunks_fuel (List.length xs) L xs.

Section Pagination.

Variable World : Type.
Variable send : request -> World -> result response * World.
Variable self : SpotifyClient.

(** [fetches w url params pages completed]: starting in [w], the request
    for [url] and then for each next-page link answers the envelopes of
    [pages], in order.  With [completed = true] the last envelope has no
    next link; with [completed = false] the request that follows the last
    of [pages] yields nothing. *)
Inductive fetches : World -> string -> option query -> list (list json) -> bool -> Prop :=
| fetch_last w url params data w1 ev items next :
    _request send self GET url params None 3 w = (Ok data, w1, ev) ->
    py_getitem data "items" = Ok (JList items) ->
    py_get data "next" JNull = Ok next ->
    truthy next = false ->
    fetches w url params [items] true
| fetch_more w url params data w1 ev items next pages completed :
    _request send self GET url params None 3 w = (Ok data, w1, ev) ->
    py_getitem data "items" = Ok (JList items) ->
    py_get data "next" JNull = Ok (JStr next) ->
    next <> "" ->
    fetches w1 next None pages completed ->
    fetches w url params (items :: pages) completed
| fetch_fail w url params data w1 ev :
    _request send self GET url params None 3 w = (Ok data, w1, ev) ->
    truthy data = false ->
    fetches w url params [] false.

End Pagination.

Arguments fetches {World} send self _ _ _ _ _.

(** A playlist record as far as the filters look into it: an object whose
    name, when present, is a string and whose owner and tracks, when
    present, are objects. *)
Definition playlist_record (p : json) : bool :=
  match p with
  | JDict d =>
      match dict_get "name" d with Some (JStr _) | None => true | _ => false end &&
      match dict_get "owner" d with Some (JDict _) | None => true | _ => false end &&
      match dict_get "tracks" d with Some (JDict _) | None => true | _ => false end
  | _ => false
  end.

(** An entry the name stage can read: an object whose name, when it has
    one, is a string. *)
Definition name_readable (p : json) : Prop :=
  exists d,
    p = JDict d
    /\ (dict_get "name" d = None \/ exists s, dict_get "name" d = Some (JStr s)).

(** [p.get('id')] of a record. *)
Definition playlist_id (p : json) : option json :=
  match p with
  | JDict d => dict_get "id" d
  | _ => None
  end.

(** The total conditions the filters compute on records. *)
Definition field (k : string) (default : json) (p : json) : json :=
  match p with
  | JDict d => match dict_get k d with Some x => x | None => default end
  | _ => default
  end.

Definition is_owned_by (id : json) (p : json) : bool :=
  py_eq (field "id" JNull (field "owner" (JDict []) p)) id.

(** The condition the owner stage applies once the caller's id is known. *)
Definition owner_condition (o : string) (current_user_id : json) (p : json) : bool :=
  if lower o =? "me" then is_owned_by current_user_id p
  else if lower o =? "not-me" then negb (is_owned_by current_user_id p)
  else is_owned_by (JStr o) p.

Definition name_of (p : json) : string :=
  match field "name" (JStr "") p with
  | JStr s => s
  | _ => ""
  end.

Definition is_collaborative_record (flag : bool) (p : json) : bool :=
  py_eq (field "collaborative" JNull p) (JBool flag).

Definition is_empty_record (p : json) : bool :=
  py_eq (field "total" (JInt (-1)) (field "tracks" (JDict []) p)) (JInt 0).

Definition is_undescribed_record (p : json) : bool :=
  negb (truthy (field "description" JNull p)).

(** The conjunction of the three flag criteria on a record. *)
Definition passes_flags (is_collaborative : option bool) (empty no_description : bool)
    (p : json) : bool :=
  match is_collaborative with
  | Some flag => is_collaborative_record flag p
  | None => true
  end
  && (if empty then is_empty_record p else true)
  && (if no_description then is_undescribed_record p else true).

(** What a run returned or raised, without its state and events. *)
Definition outcome {S A} (run : result A * S * list event) : result A := fst (fst run).

(** A scripted network: each request takes the next entry; the entry names
    the URL it expects and answers 404 to any other. *)
Definition script : Type := list (string * result response).

Definition script_send (rq : request) (w : script) : result response * script :=
  match w with
  | (url, answer) :: w' =>
      if rq_url rq =? url then (answer, w')
      else (Ok (mk_response 404 [] BEmpty), w')
  | [] => (Raise (RequestException ConnectionError), [])
  end.

(** A stand-in for [re] in examples: literal patterns matched without
    case.  It knows three of the ways [re.compile] refuses a pattern, with
    the exception and the text CPython gives: a repeat count [{n}] of
    [MAXREPEAT] or more is an [OverflowError]; a named group [(?P<name>]
    whose name has a character that is neither a letter nor an underscore
    is an [re.error]; and any other opening parenthesis is taken as never
    closed, an [re.error] too. *)
Definition MAXREPEAT : Z := 4294967295.

Definition repeat_count (pattern : string) : option Z :=
  match snd (Auth.partition_at "{" pattern) with
  | Some after => py_int (fst (Auth.partition_at "}" after))
  | None => None
  end.

Definition is_name_char (c : ascii) : bool :=
  let n := nat_of_ascii c in
  ((65 <=? n) && (n <=? 90) || (97 <=? n) && (n <=? 122) || (n =? 95))%nat.

Definition group_name (pattern : string) : option string :=
  if String.prefix "(?P<" pattern
  then Some (fst (Auth.partition_at ">" (substring 4 (String.length pattern - 4) pattern)))
  else None.

Definition literal_compile (pattern : string) : result string :=
  match repeat_count pattern with
  | Some n => if (MAXREPEAT <=? n)%Z then Raise OverflowError else Ok (lower pattern)
  | None =>
      match group_name pattern with
      | Some name =>
          if forallb is_name_char (list_ascii_of_string name)
          then Raise (ReError "missing ), unterminated subpattern at position 0")
          else Raise (ReError ("bad character in group name '" ++ name ++ "' at position 4"))
      | None =>
          if Auth.has_char "(" pattern
          then Raise (ReError "missing ), unterminated subpattern at position 0")
          else Ok (lower pattern)
      end
  end.

Definition literal_search (name_re : string) (s : string) : bool :=
  match index 0 name_re (lower s) with
  | Some _ => true
  | None => false
  end.

(** A stand-in for [rich.markup.render] in examples, as far as tags go.
    A tag is an opening bracket, one of the characters a tag may start
    with, and the text up to the next closing bracket with no opening
    bracket before it; an odd number of backslashes (code 92) in front of
    it makes it plain text.  [[name]] (the text before an equals sign) opens a
    style, [[/name]] closes the nearest open style of that name and [[/]]
    the last one opened; a closing tag with nothing to close is a
    [MarkupError].  Style names are compared as they are written. *)
Definition tag_start (c : ascii) : bool :=
  let n := nat_of_ascii c in
  ((97 <=? n) && (n <=? 122) || (n =? 35) || (n =? 47) || (n =? 64))%nat.

Fixpoint tag_end (l : list ascii) : option (list ascii * list ascii) :=
  match l with
  | [] => None
  | c :: l' =>
      if Ascii.eqb c "]" then Some ([], l')
      else if Ascii.eqb c "[" then None
      else
        match tag_end l' with
        | Some (t, rest) => Some (c :: t, rest)
        | None => None
        end
  end.

Fixpoint pop_style (style_name : string) (style_stack : list string) : option (list string) :=
  match style_stack with
  | [] => None
  | t :: below =>
      if t =? style_name then Some below
      else
        match pop_style style_name below with
        | Some others => Some (t :: others)
        | None => None
        end
  end.

Definition tag_name (t : list ascii) : string :=
  fst (Auth.partition_at "=" (string_of_list_ascii t)).

Fixpoint scan_tags (fuel : nat) (style_stack : list string) (escapes : nat)
    (l : list ascii) : result unit :=
  match fuel, l with
  | S fuel', c :: l' =>
      if (nat_of_ascii c =? 92)%nat then scan_tags fuel' style_stack (S escapes) l'
      else if Ascii.eqb c "[" then
        match l' with
        | d :: _ =>
            if tag_start d then
              match tag_end l' with
              | Some (t, rest) =>
                  if Nat.odd escapes then scan_tags fuel' style_stack 0 rest
                  else
                    match tag_name t with
                    | String "/" style_name =>
                        match (if style_name =? ""
                               then match style_stack with
                                    | _ :: below => Some below
                                    | [] => None
                                    end
                               else pop_style style_name style_stack) with
                        | Some others => scan_tags fuel' others 0 rest
                        | None => Raise MarkupError
                        end
                    | name => scan_tags fuel' (name :: style_stack) 0 rest
                    end
              | None => scan_tags fuel' style_stack 0 l'
              end
            else scan_tags fuel' style_stack 0 l'
        | [] => Ok tt
        end
      else scan_tags fuel' style_stack 0 l'
  | _, _ => Ok tt
  end.

Definition tag_render (text : string) : result unit :=
  scan_tags (S (String.length text)) [] 0 (list_ascii_of_string text).

Definition client0 : SpotifyClient :=
  {| _access_token := "token";
     _headers := [("Authorization", "Bearer token")];
     _user_data := JNull |}.

Definition ok_json (v : json) : result response := Ok (mk_response 200 [] (BJson v)).
Definition not_found : result response := Ok (mk_response 404 [] BEmpty).
Definition rate_limited (retry_after : string) : result response :=
  Ok (mk_response 429 [("Retry-After", retry_after)] BEmpty).

Definition playlist (id name owner : string) (total : Z) : json :=
  JDict [("id", JStr id); ("name", JStr name);
         ("owner", JDict [("id", JStr owner)]);
         ("collaborative", JBool false);
         ("description", JStr "");
         ("tracks", JDict [("total", JInt total)])].

Definition user_alice : json := JDict [("id", JStr "alice"); ("display_name", JStr "Alice")].

Definition url_me : string := "https://api.spotify.com/v1/me".
Definition url_playlists : string := "https://api.spotify.com/v1/me/playlists".
Definition url_page2 : string := "https://api.spotify.com/v1/me/playlists?offset=2&limit=2".

Definition p1 : json := playlist "p1" "Road trip" "alice" 12.
Definition p2 : json := playlist "p2" "Focus" "bob" 0.
Definition p3 : json := playlist "p3" "Morning" "alice" 3.


Definition page (items : list json) (next : json) : json :=
  JDict [("items", JList items); ("next", next); ("total", JInt 3)].

(* ================================================================== *)
(** ** Observations on runs *)
(* ================================================================== *)

Definition is_request (e : event) : bool :=
  match e with EvRequest _ => true | _ => false end.

Definition is_sleep (e : event) : bool :=
  match e with EvSleep _ => true | _ => false end.

(** How many requests, and how many sleeps, a run made. *)
Definition requests_in (ev : list event) : nat := List.length (filter is_request ev).
Definition sleeps_in (ev : list event) : nat := List.length (filter is_sleep ev).

(** A server that answers every request with a page and the same next
    link. *)
Definition endless_send (rq : request) (w : unit) : result response * unit :=
  (ok_json (page [p1] (JStr url_playlists)), w).

(** [l] is [playlists] with some entries left out, the others in place. *)
Inductive subseq : list json -> list json -> Prop :=
| subseq_nil : subseq [] []
| subseq_keep p l playlists : subseq l playlists -> subseq (p :: l) (p :: playlists)
| subseq_drop p l playlists : subseq l playlists -> subseq l (p :: playlists).

Definition is_object (p : json) : bool :=
  match p with JDict _ => true | _ => false end.

(** What the filter keeps on records once the pattern is compiled
    ([name_re]) and the caller's id is known ([owner] pairs the keyword or
    id given with that id): the conjunction of the criteria that are set. *)
Definition keeps {regex : Type} (re_search : regex -> string -> bool)
    (name_re : option regex) (owner : option (string * json))
    (is_collaborative : option bool) (empty no_description : bool) (p : json) : bool :=
  match name_re with
  | Some r => re_search r (name_of p)
  | None => true
  end
  && match owner with
     | Some (o, current_user_id) => owner_condition o current_user_id p
     | None => true
     end
  && passes_flags is_collaborative empty no_description p.

(** The name criterion is unset, or is a pattern that compiles to
    [name_re]. *)
Definition name_ready {regex : Type} (re_compile : string -> result regex)
    (name : option string) (name_re : option regex) : Prop :=
  match given name with
  | None => name_re = None
  | Some pattern => exists r, re_compile pattern = Ok r /\ name_re = Some r
  end.

(** The owner criterion is unset (the state stays and nothing happens), or
    the lookup in [st] returns a user with an id, leaves [st1] and emits
    [ev]. *)
Definition owner_ready {World : Type} (send : request -> World -> result response * World)
    (owner : option string) (st : state World) (known : option (string * json))
    (st1 : state World) (ev : list event) : Prop :=
  match given owner with
  | None => known = None /\ st1 = st /\ ev = []
  | Some o =>
      exists u uid,
        get_current_user send st = (Ok u, st1, ev)
        /\ truthy u = true
        /\ py_getitem u "id" = Ok uid
        /\ known = Some (o, uid)
  end.

(** A client about to look its user up, the same client once the lookup
    answered, and what the lookup emits. *)
Definition st_alice : state script := mk_state [(url_me, ok_json user_alice)] client0.

Definition st_alice_cached : state script :=
  mk_state [] {| _access_token := "token";
                 _headers := [("Authorization", "Bearer token")];
                 _user_data := user_alice |}.

Definition ev_lookup : list event :=
  [EvPrint MsgFetchingProfile; EvRequest (request_for client0 GET "me" None None)].

(** Every request among the events satisfies [P]. *)
Definition requests_all (P : request -> Prop) (ev : list event) : Prop :=
  Forall (fun e => match e with EvRequest rq => P rq | _ => True end) ev.

Definition is_get (rq : request) : Prop := rq_method rq = GET.

(* ================================================================== *)
(** ** The clean command ([cli.py]) and the picker ([interactive.py]) *)
(* ================================================================== *)

(** [any(filters.values())] over the five filter options: a string counts
    when it is not empty, the collaborative flag when it is [True]. *)
Definition filters_provided (name owner : option string) (is_collaborative : option bool)
    (empty no_description : bool) : bool :=
  match given name with Some _ => true | None => false end
  || match given owner with Some _ => true | None => false end
  || match is_collaborative with Some flag => flag | None => false end
  || empty
  || no_description.

(** An entry of the checkbox prompt: the three values its title is
    formatted from and the playlist it stands for. *)
Record choice : Type := mk_choice {
  choice_name : json;
  choice_total : json;
  choice_owner : json;
  choice_value : json
}.

Definition make_choice (p : json) : result choice :=
  rbind (py_get p "name" (JStr "Untitled Playlist")) (fun name =>
  rbind (py_get p "tracks" (JDict [])) (fun tracks =>
  rbind (py_get tracks "total" (JInt 0)) (fun total =>
  rbind (py_get p "owner" (JDict [])) (fun owner =>
  rbind (py_get owner "display_name" (JStr "N/A")) (fun display_name =>
  Ok (mk_choice name total display_name p)))))).

(** The comprehension that builds the choices. *)
Fixpoint make_choices (playlists : list json) : result (list choice) :=
  match playlists with
  | [] => Ok []
  | p :: rest =>
      rbind (make_choice p) (fun c =>
      rbind (make_choices rest) (fun cs => Ok (c :: cs)))
  end.

(** What [questionary.checkbox(...).ask()] ends with: a selection, [None],
    or a [KeyboardInterrupt]. *)
Inductive answer : Type :=
| Selected (selected_playlists : list json)
| NoAnswer
| Interrupted.

Inductive cli_message : Type :=
| SayInteractiveMode
| SayCancelledByUser
| SayNothingSelected
| SayWillUnfollow
| SayItem (name id : json)
| SayDryRun
| SayCancelled
| SayUnfollowed (count : nat).

(** What an observer of a command sees: the events of the client and the
    filter, the lines of the command, and its two prompts. *)
Inductive cli_event : Type :=
| FromClient (e : event)
| Say (m : cli_message)
| Prompt (choices : list choice)
| Confirm (count : nat).

(** How a command ends: it returns, an exception leaves it, or
    [click.Abort] does. *)
Inductive ended (A : Type) : Type :=
| Returned (a : A)
| Raised (e : exn)
| Aborted.
Arguments Returned {A} a.
Arguments Raised {A} e.
Arguments Aborted {A}.

Definition C (S A : Type) : Type := S -> ended A * S * list cli_event.

Definition cret {S A} (a : A) : C S A := fun s => (Returned a, s, []).

Definition cbind {S A B} (c : C S A) (k : A -> C S B) : C S B :=
  fun s =>
    match c s with
    | (Returned a, s1, ev1) => let '(r, s2, ev2) := k a s1 in (r, s2, ev1 ++ ev2)
    | (Raised e, s1, ev1) => (Raised e, s1, ev1)
    | (Aborted, s1, ev1) => (Aborted, s1, ev1)
    end.

Definition say {S} (m : cli_message) : C S unit := fun s => (Returned tt, s, [Say m]).

Definition from_result {S A} (r : result A) : C S A :=
  fun s => (match r with Ok a => Returned a | Raise e => Raised e end, s, []).

(** A computation of the client or the filter, run inside a command. *)
Definition from_client {S A} (c : M S A) : C S A :=
  fun s =>
    let '(r, s1, ev) := c s in
    (match r with Ok a => Returned a | Raise e => Raised e end, s1, map FromClient ev).

(** [select_playlists_interactive]; [ask] is the user at the prompt. *)
Definition select_playlists_interactive {S} (ask : list choice -> answer)
    (playlists : list json) : C S (list json) :=
  match playlists with
  | [] => cret []
  | _ =>
      cbind (from_result (make_choices playlists)) (fun choices =>
      cbind (fun s => (Returned tt, s, [Prompt choices])) (fun _ =>
      match ask choices with
      | Selected selected_playlists => cret selected_playlists
      | NoAnswer => cret []
      | Interrupted => cbind (say SayCancelledByUser) (fun _ => cret [])
      end))
  end.

Section Commands.

Variable World : Type.
Variable send : request -> World -> result response * World.
Variable regex : Type.
Variable re_compile : string -> result regex.
Variable re_search : regex -> string -> bool.
Variable render : string -> result unit.

(** The user: at the checkbox prompt, and at [click.confirm] ([None] when
    the prompt is aborted). *)
Variable ask : list choice -> answer.
Variable confirm : nat -> option bool.

(** [str] of a value that is not a string, as an f-string formats it. *)
Variable format : json -> string.

Definition fstring (v : json) : string :=
  match v with
  | JStr s => s
  | _ => format v
  end.

(** The line that lists one playlist to unfollow. *)
Definition item_line (name id : json) : string :=
  (" - [cyan]" ++ fstring name ++ "[/cyan] (ID: " ++ fstring id ++ ")")%string.

(** [console.print(text)] in a command, for a text that holds values of
    the run: rich renders the markup first, and what the rendering raises
    leaves the command. *)
Definition say_markup (text : string) (m : cli_message) : C (state World) unit :=
  fun s =>
    match render text with
    | Ok _ => (Returned tt, s, [Say m])
    | Raise e => (Raised e, s, [])
    end.

(** The first part of [clean]: the picker without filters, the filter
    with them. *)
Definition playlists_to_unfollow_of (name owner : option string)
    (is_collaborative : option bool) (empty no_description : bool)
    (all_playlists : list json) : C (state World) (list json) :=
  if negb (filters_provided name owner is_collaborative empty no_description) then
    cbind (say SayInteractiveMode) (fun _ =>
    select_playlists_interactive ask all_playlists)
  else
    from_client (_apply_filters_to_playlists send re_compile re_search render
                   all_playlists name owner is_collaborative empty no_description).

(** The loop that lists what will be unfollowed. *)
Fixpoint list_items (playlists_to_unfollow : list json) : C (state World) unit :=
  match playlists_to_unfollow with
  | [] => cret tt
  | p :: rest =>
      cbind (from_result (py_getitem p "name")) (fun name =>
      cbind (from_result (py_getitem p "id")) (fun id =>
      cbind (say_markup (item_line name id) (SayItem name id)) (fun _ =>
      list_items rest)))
  end.

(** The loop that unfollows; the value [unfollow_playlist] returns is
    dropped. *)
Fixpoint unfollow_each (playlists_to_unfollow : list json) : C (state World) unit :=
  match playlists_to_unfollow with
  | [] => cret tt
  | p :: rest =>
      cbind (from_result (py_getitem p "id")) (fun id =>
      cbind (from_client (on_world (fun self =>
               unfollow_playlist send self (fstring id)))) (fun _ =>
      unfollow_each rest))
  end.

Definition ask_confirm (count : nat) : C (state World) bool :=
  fun s =>
    (match confirm count with Some b => Returned b | None => Aborted end, s, [Confirm count]).

(** [clean] once the playlists are fetched. *)
Definition clean_fetched (dry_run yes : bool) (name owner : option string)
    (is_collaborative : option bool) (empty no_description : bool)
    (all_playlists : list json) : C (state World) unit :=
  cbind (playlists_to_unfollow_of name owner is_collaborative empty no_description
           all_playlists) (fun playlists_to_unfollow =>
  match playlists_to_unfollow with
  | [] => say SayNothingSelected
  | _ =>
      cbind (say SayWillUnfollow) (fun _ =>
      cbind (list_items playlists_to_unfollow) (fun _ =>
      if dry_run then say SayDryRun
      else
        cbind (if negb yes then ask_confirm (List.length playlists_to_unfollow)
               else cret true) (fun go =>
        if negb go then say SayCancelled
        else
          cbind (unfollow_each playlists_to_unfollow) (fun _ =>
          say (SayUnfollowed (List.length playlists_to_unfollow))))))
  end).

(** The command [clean]; [None] when [fuel] turns do not end the
    listing. *)
Definition clean (fuel : nat) (dry_run yes : bool) (name owner : option string)
    (is_collaborative : option bool) (empty no_description : bool) (st : state World)
  : option (ended unit * state World * list cli_event) :=
  match get_all_playlists send (self_ st) fuel (world st) with
  | None => None
  | Some (Raise e, w, ev) => Some (Raised e, mk_state w (self_ st), map FromClient ev)
  | Some (Ok all_playlists, w, ev) =>
      let '(r, st', ev') :=
        clean_fetched dry_run yes name owner is_collaborative empty no_description
          all_playlists (mk_state w (self_ st)) in
      Some (r, st', map FromClient ev ++ ev')
  end.

End Commands.

Arguments playlists_to_unfollow_of {World} send {regex} re_compile re_search render ask
  name owner is_collaborative empty no_description all_playlists _.
Arguments item_line format name id : simpl never.
Arguments say_markup {World} render text m _.
Arguments list_items {World} render format playlists_to_unfollow _.
Arguments unfollow_each {World} send format playlists_to_unfollow _.
Arguments ask_confirm {World} confirm count _.
Arguments clean_fetched {World} send {regex} re_compile re_search render ask confirm format
  dry_run yes name owner is_collaborative empty no_description all_playlists _.
Arguments clean {World} send {regex} re_compile re_search render ask confirm format
  fuel dry_run yes name owner is_collaborative empty no_description st.

(** Every request of the client among the events of a command satisfies
    [P]. *)
Definition cli_requests_all (P : request -> Prop) (ev : list cli_event) : Prop :=
  Forall (fun e => match e with FromClient (EvRequest rq) => P rq | _ => True end) ev.




(** A user who picks the first entry offered, and one who answers no. *)
Definition pick_first (choices : list choice) : answer :=
  match choices with
  | c :: _ => Selected [choice_value c]
  | [] => NoAnswer
  end.

Definition say_no (count : nat) : option bool := Some false.
Definition say_yes (count : nat) : option bool := Some true.

(** A stand-in for [str] on values that are not strings. *)
Definition no_format (v : json) : string := "?".


(* ================================================================== *)
(** ** The token flow ([auth.py]) *)
(* ================================================================== *)

Module AuthFlow.

(** [key in v]: membership in an object's keys, a list's elements, or a
    string's text; other values are not iterable. *)
Definition py_contains (key : string) (v : json) : result bool :=
  match v with
  | JDict d => Ok (match dict_get key d with Some _ => true | None => false end)
  | JList l => Ok (existsb (fun x => py_eq x (JStr key)) l)
  | JStr s => Ok (match index 0 key s with Some _ => true | None => false end)
  | _ => Raise TypeError
  end.

(** The exceptions of the keyring besides the ones of [exn].
    [PasswordDeleteError] is what the library raises when there is no
    password to delete; [PasswordNotFoundError] is the class
    [clear_credentials] names in its first handler. *)
Inductive auth_exn : Type :=
| PasswordNotFoundError
| PasswordDeleteError
| NoKeyringError
| OtherError (e : exn).

Inductive outcome_of (A : Type) : Type :=
| Fine (a : A)
| Failed (e : auth_exn).
Arguments Fine {A} a.
Arguments Failed {A} e.

(** The two grants sent to the token endpoint. *)
Inductive grant : Type :=
| authorization_code_grant (code : string) (redirect_uri : string)
| refresh_token_grant (refresh_token : string).

(** A POST to the token endpoint: its form and the two texts its Basic
    header encodes ([id:secret], base64). *)
Record token_request : Type := mk_token_request {
  tr_grant : grant;
  tr_client_id : string;
  tr_client_secret : string
}.

(** The query of a callback request as [parse_qs] returns it: each name
    with its values, the first one apart. *)
Definition parsed_query : Type := list (string * (string * list string)).

(** A callback request as its handler meets it: the parsed query, and the
    connection to the browser, which takes the first [n] writes to
    [wfile] and fails the next one ([Some n]), or takes them all
    ([None]).  The first write of a handler is the response head that
    [end_headers] flushes. *)
Record callback : Type := mk_callback {
  cb_params : parsed_query;
  cb_writes : option nat
}.

(** A callback on a connection that lasts. *)
Definition arriving (params : parsed_query) : callback := mk_callback params None.

Fixpoint callback_get (k : string) (params : parsed_query) : option (string * list string) :=
  match params with
  | [] => None
  | (k', v) :: rest => if k =? k' then Some v else callback_get k rest
  end.

Inductive auth_message : Type :=
| SayForcing
| SayFoundRefreshToken
| SayGotNewAccessToken
| SayRefreshFailedStartingFlow
| SayNoRefreshTokenStartingFlow
| SayCouldNotRefresh
| SayCredentialsMissing
| SayBrowserShouldOpen
| SayOpenManually
| SayLink (url : string)
| SayNoCode
| SayStored
| SayFailedToGetRefreshToken
| SayTokenInfo (token_info : json)
| SayCleared
| SayNothingToClear
| SayNoBackend
| SayUnexpected (e : auth_exn)
| SayCallbackFailed (error : string).

Inductive auth_event : Type :=
| Print (m : auth_message)
| OpenBrowser (url : string)
| HeadSent
| Wrote (text : string)
| ShutdownStarted
| Traceback (e : auth_exn)
| Post (rq : token_request)
| KeyringGet
| KeyringSet (password : json)
| KeyringDelete.

Section Flow.

(** What lies outside the process: the keyring entry 'refresh_token' of
    the service, the token endpoint ([requests.post] followed by
    [response.json()]), the browser, and the listener with the callback
    requests it handles before it stops (one at least). *)
Variable World : Type.
Variable keyring_get_password : World -> outcome_of (option string) * World.
Variable keyring_set_password : json -> World -> outcome_of unit * World.
Variable keyring_delete_password : World -> outcome_of unit * World.
Variable requests_post : token_request -> World -> outcome_of json * World.
Variable webbrowser_open : string -> World -> outcome_of unit * World.
Variable serve_forever : World -> outcome_of (callback * list callback) * World.

(** [CLIENT_ID] and [CLIENT_SECRET], as [os.getenv] returned them. *)
Variable CLIENT_ID : option string.
Variable CLIENT_SECRET : option string.

(** [rich.markup.render], which [console.print] and [console.log] apply
    to a string: it returns, or raises [MarkupError] on a closing tag
    with nothing to close. *)
Variable render : string -> result unit.

(** The installed keyring library: whether its [errors] module has the
    name [PasswordNotFoundError], and [str(e)] of what it raises. *)
Variable errors_has_PasswordNotFoundError : bool.
Variable exception_text : auth_exn -> string.

(** The world and the module's global [authorization_code]. *)
Record auth_state : Type := mk_auth_state {
  outside : World;
  authorization_code : option string
}.

Definition A (X : Type) : Type := auth_state -> outcome_of X * auth_state * list auth_event.

Definition aret {X} (x : X) : A X := fun s => (Fine x, s, []).

Definition abind {X Y} (c : A X) (k : X -> A Y) : A Y :=
  fun s =>
    match c s with
    | (Fine x, s1, ev1) => let '(r, s2, ev2) := k x s1 in (r, s2, ev1 ++ ev2)
    | (Failed e, s1, ev1) => (Failed e, s1, ev1)
    end.

Definition aprint (m : auth_message) : A unit := fun s => (Fine tt, s, [Print m]).

Definition of_result {X} (r : result X) : A X :=
  fun s => (match r with Ok x => Fine x | Raise e => Failed (OtherError e) end, s, []).

(** A call to the outside, with the event that records it. *)
Definition outside_call {X} (call : World -> outcome_of X * World) (e : auth_event) : A X :=
  fun s =>
    let (r, w) := call (outside s) in
    (r, mk_auth_state w (authorization_code s), [e]).

(** [str(v)] of an optional setting inside an f-string. *)
Definition text_of (v : option string) : string :=
  match v with
  | Some s => s
  | None => "None"
  end.

(** [self.wfile.write(...)], the [k]-th write of the handler of [rq]
    (the flush of the response head is write 0): the connection takes it,
    or the write raises. *)
Definition wfile_write (rq : callback) (k : nat) (e : auth_event) : A unit :=
  fun s =>
    match cb_writes rq with
    | Some n => if (k <? n)%nat then (Fine tt, s, [e]) else (Failed (OtherError OSError), s, [])
    | None => (Fine tt, s, [e])
    end.

Definition set_authorization_code (code : string) : A unit :=
  fun s => (Fine tt, mk_auth_state (outside s) (Some code), []).

(** [console.log(text)]: the text is rendered as markup first. *)
Definition console_log (text : string) (m : auth_message) : A unit :=
  fun s =>
    match render text with
    | Ok _ => (Fine tt, s, [Print m])
    | Raise e => (Failed (OtherError e), s, [])
    end.

Definition callback_failed_line (error : string) : string :=
  ("[bold red]Authentication failed. Error: " ++ error ++ "[/bold red]")%string.

(** [params.get("error", ["Unknown error"])[0]]. *)
Definition callback_error (params : parsed_query) : string :=
  match callback_get "error" params with
  | Some (error, _) => error
  | None => "Unknown error"
  end.

(** The thread that calls [self.server.shutdown]. *)
Definition start_shutdown : A unit := fun s => (Fine tt, s, [ShutdownStarted]).

(** [CallbackHandler.do_GET] on a request whose query is parsed.  The
    response head goes out before the query is looked at, and the code is
    stored before the page is written. *)
Definition do_GET (rq : callback) : A unit :=
  abind (wfile_write rq 0 HeadSent) (fun _ =>
  match callback_get "code" (cb_params rq) with
  | Some (code, _) =>
      abind (set_authorization_code code) (fun _ =>
      abind (wfile_write rq 1 (Wrote "<html><body>")) (fun _ =>
      abind (wfile_write rq 2 (Wrote "<h1>Authentication Successful!</h1>")) (fun _ =>
      abind (wfile_write rq 3 (Wrote "<p>You can close this window now.</p>")) (fun _ =>
      abind (wfile_write rq 4 (Wrote "</body></html>")) (fun _ =>
      start_shutdown)))))
  | None =>
      let error := callback_error (cb_params rq) in
      abind (wfile_write rq 1 (Wrote "<html><body>")) (fun _ =>
      abind (wfile_write rq 2
               (Wrote ("<h1>Authentication Failed:</h1><p>" ++ error ++ "</p>")%string)) (fun _ =>
      abind (wfile_write rq 3 (Wrote "</body></html>")) (fun _ =>
      abind (console_log (callback_failed_line error) (SayCallbackFailed error)) (fun _ =>
      start_shutdown))))
  end).

(** The listener over the requests it gets: the server runs the handler
    of each, and what a handler raises goes no further than the server,
    which reports it ([handle_error]) and takes the next request. *)
Fixpoint handle_all (requests : list callback) : A unit :=
  match requests with
  | [] => aret tt
  | rq :: rest =>
      fun s =>
        let '(r, s1, ev1) := do_GET rq s in
        let reported := match r with Fine _ => [] | Failed e => [Traceback e] end in
        let '(r2, s2, ev2) := handle_all rest s1 in
        (r2, s2, ev1 ++ reported ++ ev2)
  end.

Definition get_authorization_code : A (option string) :=
  fun s => (Fine (authorization_code s), s, []).

(** [_perform_auth_flow].  The link line holds the authorization URL,
    fixed text around the client id that Spotify issues; it is printed as
    the fixed lines are. *)
Definition _perform_auth_flow : A json :=
  match Auth.auth_url CLIENT_ID CLIENT_SECRET with
  | None => abind (aprint SayCredentialsMissing) (fun _ => aret JNull)
  | Some auth_url =>
      abind (aprint SayBrowserShouldOpen) (fun _ =>
      abind (aprint SayOpenManually) (fun _ =>
      abind (aprint (SayLink auth_url)) (fun _ =>
      abind (outside_call (webbrowser_open auth_url) (OpenBrowser auth_url)) (fun _ =>
      abind (fun s =>
               let (r, w) := serve_forever (outside s) in
               (r, mk_auth_state w (authorization_code s), [])) (fun handled =>
      abind (handle_all (fst handled :: snd handled)) (fun _ =>
      abind get_authorization_code (fun captured =>
      match given captured with
      | None => abind (aprint SayNoCode) (fun _ => aret JNull)
      | Some code =>
          let rq := mk_token_request (authorization_code_grant code Auth.REDIRECT_URI)
                      (text_of CLIENT_ID) (text_of CLIENT_SECRET) in
          abind (outside_call (requests_post rq) (Post rq)) (fun token_info =>
          abind (of_result (py_contains "refresh_token" token_info)) (fun has_refresh =>
          if has_refresh then
            abind (of_result (py_getitem token_info "refresh_token")) (fun refresh_token =>
            abind (outside_call (keyring_set_password refresh_token)
                     (KeyringSet refresh_token)) (fun _ =>
            abind (aprint SayStored) (fun _ =>
            of_result (py_get token_info "access_token" JNull))))
          else
            abind (aprint SayFailedToGetRefreshToken) (fun _ =>
            abind (aprint (SayTokenInfo token_info)) (fun _ =>
            aret JNull))))
      end)))))))
  end.

(** [_refresh_access_token]. *)
Definition _refresh_access_token (refresh_token : string) : A json :=
  let rq := mk_token_request (refresh_token_grant refresh_token)
              (text_of CLIENT_ID) (text_of CLIENT_SECRET) in
  abind (outside_call (requests_post rq) (Post rq)) (fun token_info =>
  abind (of_result (py_contains "access_token" token_info)) (fun has_access =>
  if has_access then
    abind (of_result (py_contains "refresh_token" token_info)) (fun has_refresh =>
    abind (if has_refresh then
             abind (of_result (py_getitem token_info "refresh_token")) (fun new_token =>
             outside_call (keyring_set_password new_token) (KeyringSet new_token))
           else aret tt) (fun _ =>
    of_result (py_getitem token_info "access_token")))
  else
    abind (aprint SayCouldNotRefresh) (fun _ => aret JNull))).

(** [get_access_token]. *)
Definition get_access_token (force_reauth : bool) : A json :=
  if force_reauth then
    abind (aprint SayForcing) (fun _ => _perform_auth_flow)
  else
    abind (outside_call keyring_get_password KeyringGet) (fun refresh_token =>
    match given refresh_token with
    | Some token =>
        abind (aprint SayFoundRefreshToken) (fun _ =>
        abind (_refresh_access_token token) (fun access_token =>
        if truthy access_token then
          abind (aprint SayGotNewAccessToken) (fun _ => aret access_token)
        else
          abind (aprint SayRefreshFailedStartingFlow) (fun _ => _perform_auth_flow)))
    | None =>
        abind (aprint SayNoRefreshTokenStartingFlow) (fun _ => _perform_auth_flow)
    end).

Definition unexpected_line (e : auth_exn) : string :=
  ("[red]An unexpected error occurred while clearing credentials: "
   ++ exception_text e ++ "[/red]")%string.

(** [clear_credentials].  When the deletion raises, Python looks the
    handlers up in order, and the first names
    [keyring.errors.PasswordNotFoundError]: without that name in the
    module, the lookup itself raises [AttributeError], which leaves the
    function.  The last handler is for any [Exception]. *)
Definition clear_credentials : A unit :=
  fun s =>
    match outside_call keyring_delete_password KeyringDelete s with
    | (Fine _, s1, ev) => (Fine tt, s1, ev ++ [Print SayCleared])
    | (Failed e, s1, ev) =>
        if negb errors_has_PasswordNotFoundError
        then (Failed (OtherError AttributeError), s1, ev)
        else
          match e with
          | PasswordNotFoundError => (Fine tt, s1, ev ++ [Print SayNothingToClear])
          | NoKeyringError => (Fine tt, s1, ev ++ [Print SayNoBackend])
          | _ =>
              match render (unexpected_line e) with
              | Ok _ => (Fine tt, s1, ev ++ [Print (SayUnexpected e)])
              | Raise e' => (Failed (OtherError e'), s1, ev)
              end
          end
    end.

End Flow.

Arguments mk_auth_state {World} outside authorization_code.
Arguments outside {World} a.
Arguments authorization_code {World} a.

(** A keyring that holds at most one password, a token endpoint that
    answers one document, a browser that opens, a listener that handles
    the given requests. *)
Definition memory_get (w : option json) : outcome_of (option string) * option json :=
  (Fine (match w with Some (JStr s) => Some s | _ => None end), w).

Definition memory_set (password : json) (w : option json) : outcome_of unit * option json :=
  (Fine tt, Some password).

Definition memory_delete (w : option json) : outcome_of unit * option json :=
  match w with
  | Some _ => (Fine tt, None)
  | None => (Failed PasswordDeleteError, None)
  end.

Definition answer_with (token_info : json) (rq : token_request) (w : option json)
  : outcome_of json * option json := (Fine token_info, w).

Definition browser_opens (url : string) (w : option json) : outcome_of unit * option json :=
  (Fine tt, w).

Definition listener_handles (first : callback) (rest : list callback) (w : option json)
  : outcome_of (callback * list callback) * option json := (Fine (first, rest), w).

(** The response head of a callback went out. *)
Definition head_sent (rq : callback) : bool :=
  match cb_writes rq with
  | Some O => false
  | _ => true
  end.

(** The code of the last callback that carries one, among those whose
    response head went out. *)
Fixpoint last_code (requests : list callback) : option string :=
  match requests with
  | [] => None
  | rq :: rest =>
      match last_code rest with
      | Some code => Some code
      | None =>
          if head_sent rq then
            match callback_get "code" (cb_params rq) with
            | Some (code, _) => Some code
            | None => None
            end
          else None
      end
  end.

Definition is_open_browser (e : auth_event) : bool :=
  match e with OpenBrowser _ => true | _ => false end.

Definition is_post (e : auth_event) : bool :=
  match e with Post _ => true | _ => false end.

Definition is_keyring_set (e : auth_event) : bool :=
  match e with KeyringSet _ => true | _ => false end.

End AuthFlow.

(* ================================================================== *)
(** ** The model on small inputs *)
(* ================================================================== *)

(** [int] on header values: sign, blanks and underscores as Python reads
    them; a date, a fraction and the empty string are refused. *)
Example py_int_examples :
  py_int "2" = Some 2%Z
  /\ py_int " +1_000 " = Some 1000%Z
  /\ py_int "-7" = Some (-7)%Z
  /\ py_int "007" = Some 7%Z
  /\ py_int "Wed, 21 Oct 2015 07:28:00 GMT" = None
  /\ py_int "1.5" = None
  /\ py_int "1__0" = None
  /\ py_int "" = None.
Proof. repeat split; vm_compute; reflexivity. Qed.

(** [==] across the numeric types and on objects. *)
Example py_eq_examples :
  py_eq (JInt 1) (JBool true) = true
  /\ py_eq (JFloat 0%float) (JInt 0) = true
  /\ py_eq (JFloat 2.5%float) (JInt 2) = false
  /\ py_eq (JStr "1") (JInt 1) = false
  /\ py_eq (JDict [("a", JInt 1); ("b", JNull)]) (JDict [("b", JNull); ("a", JFloat 1%float)])
     = true.
Proof. repeat split; vm_compute; reflexivity. Qed.

(** The constructor refuses a missing token and builds the bearer header. *)
Example SpotifyClient_init_examples :
  SpotifyClient_init None = Raise ValueError
  /\ SpotifyClient_init (Some "") = Raise ValueError
  /\ SpotifyClient_init (Some "token") = Ok client0.
Proof. repeat split; reflexivity. Qed.

(** Page [p] of size [l] starts at offset [(p - 1) * l]. *)
Example get_playlists_page_offset :
  get_playlists_page script_send client0 3 20 [(url_playlists, ok_json (page [p3] JNull))]
  = (Ok (page [p3] JNull), [],
     [EvRequest (mk_request GET url_playlists (_headers client0)
                   (Some [("limit", 20%Z); ("offset", 40%Z)]) None)]).
Proof. vm_compute. reflexivity. Qed.

(* ================================================================== *)
(** ** Properties of the request primitive *)
(* ================================================================== *)

Section RequestFacts.

Variable World : Type.
Variable send : request -> World -> result response * World.
Variable self : SpotifyClient.

(** An exception that leaves [try_except] is one the handler does not
    catch, when the handler itself cannot raise. *)
Lemma try_except_escapes {S A} (c : M S A) catches (h : exn -> M S A) s e s' ev :
  (forall e0 s0, exists a s1 ev1, h e0 s0 = (Ok a, s1, ev1)) ->
  try_except c catches h s = (Raise e, s', ev) ->
  catches e = false /\ c s = (Raise e, s', ev).
Proof.
  intros Hh. unfold try_except.
  destruct (c s) as [[[a | e0] s1] ev1] eqn:Hc; [discriminate |].
  destruct (catches e0) eqn:Hcatch.
  - destruct (Hh e0 s1) as (a & s2 & ev2 & Hrun). rewrite Hrun. discriminate.
  - intros Heq. inversion Heq; subst. auto.
Qed.

(** One unfolding of [_request]. *)
Lemma _request_eq method endpoint params json_body retries :
  _request send self method endpoint params json_body retries =
  try_except
    (resp <- requests_request send (request_for self method endpoint params json_body) ;;
     match retries with
     | S retries' =>
         if (status_code resp =? 429)%Z then
           retry_after <- retry_after_of resp ;;
           console_print (MsgRateLimited retry_after) ;;;
           time_sleep retry_after ;;;
           _request send self method endpoint params json_body retries'
         else finish_response resp
     | O => finish_response resp
     end)
    is_RequestException
    (fun e => console_print (MsgRequestError e) ;;; ret JNull).
Proof. destruct retries; reflexivity. Qed.

(** [_request] swallows every [RequestException]. *)
Lemma _request_no_RequestException method endpoint params json_body retries w e w' ev :
  _request send self method endpoint params json_body retries w = (Raise e, w', ev) ->
  is_RequestException e = false.
Proof.
  rewrite _request_eq. intros H.
  apply try_except_escapes in H; try tauto.
  intros e0 s0; do 3 eexists; reflexivity.
Qed.

(** Every run of [_request] starts by sending its request. *)
Lemma _request_sends_first method endpoint params json_body retries w r w' ev :
  _request send self method endpoint params json_body retries w = (r, w', ev) ->
  exists ev', ev = EvRequest (request_for self method endpoint params json_body) :: ev'.
Proof.
  rewrite _request_eq.
  set (rq := request_for self method endpoint params json_body).
  unfold try_except, bind at 1, requests_request.
  destruct (send rq w) as [[resp | e0] w1].
  - match goal with |- context [match ?c w1 with _ => _ end] =>
      destruct (c w1) as [[[v | e1] w2] ev2] end.
    + intros H; inversion H; simpl; eauto.
    + destruct (is_RequestException e1); simpl; intros H; inversion H; simpl; eauto.
  - destruct (is_RequestException e0); simpl; intros H; inversion H; simpl; eauto.
Qed.

(** A response that is not retried and carries a document is returned. *)
Lemma _request_answers method endpoint params json_body retries w resp w1 v :
  send (request_for self method endpoint params json_body) w = (Ok resp, w1) ->
  answers resp v ->
  _request send self method endpoint params json_body retries w =
    (Ok v, w1, [EvRequest (request_for self method endpoint params json_body)]).
Proof.
  intros Hsend (Hst & Hraise & Hbody).
  apply Z.eqb_neq in Hst.
  rewrite _request_eq.
  unfold try_except, bind at 1, requests_request. rewrite Hsend.
  assert (Hfin : finish_response resp w1 = (Ok v, w1, [])).
  { unfold finish_response, bind, lift_result, response_json.
    rewrite Hraise, Hbody. reflexivity. }
  destruct retries; rewrite ?Hst, Hfin; reflexivity.
Qed.


End RequestFacts.

(* ================================================================== *)
(** ** Rate limiting and failures of the request primitive *)
(* ================================================================== *)

Section RateLimit.

Variable World : Type.
Variable send : request -> World -> result response * World.
Variable self : SpotifyClient.













(** C10.  A 429 response whose Retry-After header [int] cannot read makes
    [_request] raise [ValueError] right after the request, with budget
    left; the exception is not a [RequestException], so it also leaves
    [unfollow_playlist], whose handler only catches [HTTPError]. *)
Theorem request_bad_retry_after_raises method endpoint params json_body r w resp w1 h :
  send (request_for self method endpoint params json_body) w = (Ok resp, w1) ->
  status_code resp = 429%Z ->
  headers_get "Retry-After" (headers resp) = Some h ->
  py_int h = None ->
  _request send self method endpoint params json_body (S r) w =
    (Raise ValueError, w1, [EvRequest (request_for self method endpoint params json_body)])
  /\ (forall playlist_id,
        method = DELETE ->
        endpoint = ("playlists/" ++ playlist_id ++ "/followers")%string ->
        params = None -> json_body = None ->
        unfollow_playlist send self playlist_id w =
          (Raise ValueError, w1,
           [EvRequest (request_for self method endpoint params json_body)])).
Proof.
  intros Hsend Hst Hh Hint.
  assert (Hraise : forall r0,
    _request send self method endpoint params json_body (S r0) w =
    (Raise ValueError, w1, [EvRequest (request_for self method endpoint params json_body)])).
  { intros r0.
    rewrite (_request_eq _ send self method endpoint params json_body (S r0)).
    unfold try_except, bind, requests_request. rewrite Hsend.
    rewrite Hst. simpl (429 =? 429)%Z. cbv beta iota.
    unfold retry_after_of. rewrite Hh, Hint. reflexivity. }
  split; [apply Hraise |].
  intros playlist_id -> -> -> ->.
  unfold unfollow_playlist, try_except, bind.
  rewrite (Hraise 2%nat). reflexivity.
Qed.

(** Whatever the network does, a call of [unfollow_playlist] that returns
    returns [True]. *)
Lemma unfollow_playlist_only_true playlist_id w b w' ev :
  unfollow_playlist send self playlist_id w = (Ok b, w', ev) -> b = true.
Proof.
  unfold unfollow_playlist, try_except, bind.
  destruct (_request send self DELETE _ None None 3 w) as [[[v | e] w1] ev1] eqn:Hreq.
  - unfold ret. intros H; inversion H; reflexivity.
  - apply _request_no_RequestException in Hreq.
    destruct e; simpl in *; try discriminate.
Qed.

End RateLimit.

(** C1.  On a 404 answer to the DELETE, [unfollow_playlist] reports the
    error through [_request] and then returns [True]: the failure is not
    turned into [False]. *)
Theorem unfollow_playlist_404_returns_true :
  unfollow_playlist script_send client0 "p1"
    [("https://api.spotify.com/v1/playlists/p1/followers", not_found)]
  = (Ok true, [],
     [EvRequest (request_for client0 DELETE "playlists/p1/followers" None None);
      EvPrint (MsgRequestError (RequestException (HTTPError 404)))]).
Proof. vm_compute. reflexivity. Qed.



Lemma request_bad_retry_after_raises_witness :
  _request script_send client0 DELETE "playlists/p1/followers" None None 3
    [("https://api.spotify.com/v1/playlists/p1/followers",
      rate_limited "Wed, 21 Oct 2015 07:28:00 GMT")]
  = (Raise ValueError, [],
     [EvRequest (request_for client0 DELETE "playlists/p1/followers" None None)])
  /\ unfollow_playlist script_send client0 "p1"
       [("https://api.spotify.com/v1/playlists/p1/followers",
         rate_limited "Wed, 21 Oct 2015 07:28:00 GMT")]
     = (Raise ValueError, [],
        [EvRequest (request_for client0 DELETE "playlists/p1/followers" None None)]).
Proof.
  assert (H := request_bad_retry_after_raises script script_send client0
                 DELETE "playlists/p1/followers" None None 2
                 [("https://api.spotify.com/v1/playlists/p1/followers",
                   rate_limited "Wed, 21 Oct 2015 07:28:00 GMT")]
                 (mk_response 429 [("Retry-After", "Wed, 21 Oct 2015 07:28:00 GMT")] BEmpty)
                 [] "Wed, 21 Oct 2015 07:28:00 GMT"
                 eq_refl eq_refl eq_refl eq_refl).
  split.
  - exact (proj1 H).
  - exact (proj2 H "p1" eq_refl eq_refl eq_refl eq_refl).
Defined.

(* ================================================================== *)
(** ** The cached current user *)
(* ================================================================== *)

Section CurrentUser.

Variable World : Type.
Variable send : request -> World -> result response * World.

(** With a cached value the call answers from the cache and touches
    nothing. *)
Lemma get_current_user_cached (st : state World) :
  is_None (_user_data (self_ st)) = false ->
  get_current_user send st = (Ok (_user_data (self_ st)), st, []).
Proof.
  intros Hc. unfold get_current_user, bind, get_user_data. rewrite Hc. reflexivity.
Qed.

(** Without one, the call prints, asks for 'me' and stores what
    [_request] returned. *)
Lemma get_current_user_fetches (st : state World) v w' ev :
  _user_data (self_ st) = JNull ->
  _request send (self_ st) GET "me" None None 3 (world st) = (Ok v, w', ev) ->
  get_current_user send st =
    (Ok v,
     mk_state w' {| _access_token := _access_token (self_ st);
                    _headers := _headers (self_ st);
                    _user_data := v |},
     EvPrint MsgFetchingProfile :: ev).
Proof.
  intros Hc Hreq.
  unfold get_current_user, bind, get_user_data. rewrite Hc. unfold is_None, console_print, emit, on_world. cbv beta iota.
  rewrite Hreq. simpl. rewrite !app_nil_r. reflexivity.
Qed.

Lemma get_current_user_fetch_raises (st : state World) e w' ev :
  _user_data (self_ st) = JNull ->
  _request send (self_ st) GET "me" None None 3 (world st) = (Raise e, w', ev) ->
  get_current_user send st =
    (Raise e, mk_state w' (self_ st), EvPrint MsgFetchingProfile :: ev).
Proof.
  intros Hc Hreq.
  unfold get_current_user, bind, get_user_data. rewrite Hc. unfold is_None, console_print, emit, on_world. cbv beta iota.
  rewrite Hreq. simpl. reflexivity.
Qed.

(** On an instance without a cached value the call starts by printing
    and sending the GET for 'me', whatever comes of it. *)
Lemma get_current_user_asks (st : state World) r st' ev :
  _user_data (self_ st) = JNull ->
  get_current_user send st = (r, st', ev) ->
  exists ev',
    ev = EvPrint MsgFetchingProfile
           :: EvRequest (request_for (self_ st) GET "me" None None) :: ev'.
Proof.
  intros Hc.
  destruct (_request send (self_ st) GET "me" None None 3 (world st))
    as [[[v | e] w'] ev0] eqn:Hreq;
    destruct (_request_sends_first _ _ _ _ _ _ _ _ _ _ _ _ Hreq) as [ev' ->].
  - rewrite (get_current_user_fetches st v w' _ Hc Hreq).
    intros H; inversion H; eauto.
  - rewrite (get_current_user_fetch_raises st e w' _ Hc Hreq).
    intros H; inversion H; eauto.
Qed.

Lemma is_None_false v : v <> JNull -> is_None v = false.
Proof. destruct v; simpl; congruence. Qed.

(** C2, amended.  The first call on an instance sends a GET for 'me'.
    When its result is present, every later call on the instance returns
    that value and sends nothing; when its result is absent, nothing is
    cached and the next call sends the GET again. *)
Theorem get_current_user_memoizes_present (st : state World) v st1 ev :
  _user_data (self_ st) = JNull ->
  get_current_user send st = (Ok v, st1, ev) ->
  (exists ev',
      ev = EvPrint MsgFetchingProfile
             :: EvRequest (request_for (self_ st) GET "me" None None) :: ev')
  /\ (v <> JNull ->
      forall st2 : state World,
        _user_data (self_ st2) = _user_data (self_ st1) ->
        get_current_user send st2 = (Ok v, st2, []))
  /\ (v = JNull ->
      _user_data (self_ st1) = JNull
      /\ exists r st2 ev',
          get_current_user send st1 =
            (r, st2,
             EvPrint MsgFetchingProfile
               :: EvRequest (request_for (self_ st1) GET "me" None None) :: ev')).
Proof.
  intros Hc Hrun.
  assert (Hcache : _user_data (self_ st1) = v).
  { destruct (_request send (self_ st) GET "me" None None 3 (world st))
      as [[[v0 | e] w'] ev0] eqn:Hreq.
    - rewrite (get_current_user_fetches st v0 w' _ Hc Hreq) in Hrun.
      inversion Hrun; subst. reflexivity.
    - rewrite (get_current_user_fetch_raises st e w' _ Hc Hreq) in Hrun.
      discriminate. }
  split; [eapply get_current_user_asks; eauto |].
  split.
  - intros Hv st2 Hsame.
    rewrite get_current_user_cached; rewrite Hsame, Hcache.
    + reflexivity.
    + apply is_None_false, Hv.
  - intros ->. split; [exact Hcache |].
    destruct (get_current_user send st1) as [[r st2] ev2] eqn:Hnext.
    destruct (get_current_user_asks st1 r st2 ev2 Hcache Hnext) as [ev' ->].
    eauto.
Qed.

End CurrentUser.

(** The claim fails as stated: after a first call that found nothing
    (404), the second call sends the GET again and returns the profile. *)
Lemma get_current_user_failure_not_cached :
  get_current_user script_send
    (mk_state [(url_me, not_found); (url_me, ok_json user_alice)] client0)
  = (Ok JNull,
     mk_state [(url_me, ok_json user_alice)] client0,
     [EvPrint MsgFetchingProfile;
      EvRequest (request_for client0 GET "me" None None);
      EvPrint (MsgRequestError (RequestException (HTTPError 404)))])
  /\ get_current_user script_send (mk_state [(url_me, ok_json user_alice)] client0)
     = (Ok user_alice,
        mk_state [] {| _access_token := "token";
                       _headers := [("Authorization", "Bearer token")];
                       _user_data := user_alice |},
        [EvPrint MsgFetchingProfile;
         EvRequest (request_for client0 GET "me" None None)]).
Proof. split; vm_compute; reflexivity. Qed.


Lemma get_current_user_memoizes_present_witness :
  get_current_user script_send
    (mk_state [] {| _access_token := "token";
                    _headers := [("Authorization", "Bearer token")];
                    _user_data := user_alice |})
  = (Ok user_alice,
     mk_state [] {| _access_token := "token";
                    _headers := [("Authorization", "Bearer token")];
                    _user_data := user_alice |},
     []).
Proof.
  refine (proj1 (proj2 (get_current_user_memoizes_present script script_send
                          (mk_state [(url_me, ok_json user_alice)] client0)
                          user_alice
                          (mk_state [] {| _access_token := "token";
                                          _headers := [("Authorization", "Bearer token")];
                                          _user_data := user_alice |})
                          [EvPrint MsgFetchingProfile;
                           EvRequest (request_for client0 GET "me" None None)]
                          eq_refl eq_refl)) _ _ eq_refl).
  unfold user_alice. discriminate.
Defined.

(* ================================================================== *)
(** ** The filter engine *)
(* ================================================================== *)

(** A comprehension whose condition is total on the list is [filter]. *)
Lemma filter_r_total (keep : json -> result bool) (f : json -> bool) (l : list json) :
  Forall (fun p => keep p = Ok (f p)) l ->
  filter_r keep l = Ok (filter f l).
Proof.
  induction 1 as [| p l Hp _ IH]; simpl.
  - reflexivity.
  - rewrite Hp, IH. simpl. reflexivity.
Qed.

Lemma Forall_filter_keeps {A} (P : A -> Prop) (f : A -> bool) (l : list A) :
  Forall P l -> Forall P (filter f l).
Proof.
  induction 1 as [| x l Hx _ IH]; simpl; [constructor |].
  destruct (f x); [constructor |]; assumption.
Qed.

Lemma filter_swap {A} (f g : A -> bool) (l : list A) :
  filter f (filter g l) = filter g (filter f l).
Proof.
  induction l as [| x l IH]; simpl; [reflexivity |].
  destruct (f x) eqn:Hf, (g x) eqn:Hg; simpl; rewrite ?Hf, ?Hg, IH; reflexivity.
Qed.

Lemma filter_split_perm {A} (f : A -> bool) (l : list A) :
  Permutation (filter f l ++ filter (fun x => negb (f x)) l) l.
Proof.
  induction l as [| x l IH]; simpl; [constructor |].
  destruct (f x); simpl.
  - constructor. exact IH.
  - apply Permutation_sym. apply Permutation_cons_app. apply Permutation_sym. exact IH.
Qed.

Section RecordFacts.

Variable p : json.
Hypothesis Hrec : playlist_record p = true.

Lemma record_is_dict : exists d, p = JDict d.
Proof. destruct p; try discriminate. eauto. Qed.

Lemma owned_by_total id : owned_by id p = Ok (is_owned_by id p).
Proof.
  destruct record_is_dict as [d ->].
  unfold owned_by, owner_id, is_owned_by, field, playlist_record in *. simpl.
  destruct (dict_get "owner" d) as [[] |]; simpl;
    rewrite ?andb_false_r in Hrec; simpl in Hrec; try discriminate; reflexivity.
Qed.

Lemma not_owned_by_total id : not_owned_by id p = Ok (negb (is_owned_by id p)).
Proof.
  destruct record_is_dict as [d ->].
  unfold not_owned_by, owner_id, is_owned_by, py_ne, field, playlist_record in *. simpl.
  destruct (dict_get "owner" d) as [[] |]; simpl;
    rewrite ?andb_false_r in Hrec; simpl in Hrec; try discriminate; reflexivity.
Qed.

Lemma collaborative_is_total flag :
  collaborative_is flag p = Ok (is_collaborative_record flag p).
Proof. destruct record_is_dict as [d ->]. reflexivity. Qed.

Lemma has_no_tracks_total : has_no_tracks p = Ok (is_empty_record p).
Proof.
  destruct record_is_dict as [d ->].
  unfold has_no_tracks, is_empty_record, field, playlist_record in *. simpl.
  destruct (dict_get "tracks" d) as [[] |]; simpl;
    rewrite ?andb_false_r in Hrec; simpl in Hrec; try discriminate; reflexivity.
Qed.

Lemma has_no_description_total : has_no_description p = Ok (is_undescribed_record p).
Proof. destruct record_is_dict as [d ->]. reflexivity. Qed.

Lemma name_matches_total {regex} (re_search : regex -> string -> bool) name_re :
  name_matches re_search name_re p = Ok (re_search name_re (name_of p)).
Proof.
  destruct record_is_dict as [d ->].
  unfold name_matches, name_of, field, playlist_record in *. simpl.
  destruct (dict_get "name" d) as [[] |]; simpl; simpl in Hrec;
    try discriminate; reflexivity.
Qed.

End RecordFacts.

Lemma filter_andb {A} (f g : A -> bool) (l : list A) :
  filter (fun x => f x && g x) l = filter g (filter f l).
Proof.
  induction l as [| x l IH]; simpl; [reflexivity |].
  destruct (f x); simpl; [destruct (g x) |]; rewrite IH; reflexivity.
Qed.

Lemma filter_all {A} (l : list A) : filter (fun _ => true) l = l.
Proof. induction l as [| x l IH]; simpl; [| rewrite IH]; reflexivity. Qed.

Lemma Forall_record_total (keep : json -> result bool) (f : json -> bool) (l : list json) :
  (forall p, playlist_record p = true -> keep p = Ok (f p)) ->
  Forall (fun p => playlist_record p = true) l ->
  filter_r keep l = Ok (filter f l).
Proof.
  intros Hk Hl. apply filter_r_total.
  eapply Forall_impl; [| exact Hl]. intros p Hp. apply Hk, Hp.
Qed.

(** On records the three flag stages are one [filter]. *)
Lemma flag_stages_total is_collaborative empty no_description l :
  Forall (fun p => playlist_record p = true) l ->
  flag_stages is_collaborative empty no_description l
  = Ok (filter (passes_flags is_collaborative empty no_description) l).
Proof.
  intros Hl. unfold flag_stages, passes_flags.
  rewrite filter_andb, filter_andb.
  set (cf := fun p => match is_collaborative with
                      | Some flag => is_collaborative_record flag p
                      | None => true
                      end).
  assert (H1 : match is_collaborative with
               | Some flag => filter_r (collaborative_is flag) l
               | None => Ok l
               end = Ok (filter cf l)).
  { unfold cf. destruct is_collaborative as [flag |].
    - apply Forall_record_total; [| exact Hl].
      intros p Hp. apply collaborative_is_total, Hp.
    - rewrite filter_all. reflexivity. }
  rewrite H1. simpl.
  assert (Hl1 : Forall (fun p => playlist_record p = true) (filter cf l))
    by (apply Forall_filter_keeps, Hl).
  assert (H2 : (if empty then filter_r has_no_tracks (filter cf l) else Ok (filter cf l))
               = Ok (filter (fun p => if empty then is_empty_record p else true)
                            (filter cf l))).
  { destruct empty.
    - apply Forall_record_total; [| exact Hl1].
      intros p Hp. apply has_no_tracks_total, Hp.
    - rewrite filter_all. reflexivity. }
  rewrite H2. simpl.
  destruct no_description.
  - apply Forall_record_total; [| apply Forall_filter_keeps, Hl1].
    intros p Hp. apply has_no_description_total, Hp.
  - rewrite filter_all. reflexivity.
Qed.

Lemma outcome_bind_ok {S A B} (c : M S A) (k : A -> M S B) s a s1 ev1 :
  c s = (Ok a, s1, ev1) -> outcome (bind c k s) = outcome (k a s1).
Proof.
  intros H. unfold outcome, bind. rewrite H.
  destruct (k a s1) as [[r s2] ev2]. reflexivity.
Qed.

Lemma outcome_bind_raise {S A B} (c : M S A) (k : A -> M S B) s e s1 ev1 :
  c s = (Raise e, s1, ev1) -> outcome (bind c k s) = Raise e.
Proof. intros H. unfold outcome, bind. rewrite H. reflexivity. Qed.

Section FilterFacts.

Variable World : Type.
Variable send : request -> World -> result response * World.
Variable regex : Type.
Variable re_compile : string -> result regex.
Variable re_search : regex -> string -> bool.
Variable render : string -> result unit.

(** What the handler of the name stage does with a pattern error: the
    line renders and the stage returns the empty list, or the exception
    of the rendering leaves the stage. *)
Definition after_pattern_error (e : exn) (st : state World)
  : result flow * state World * list event :=
  match render (invalid_regex_line e) with
  | Ok _ => (Ok (Return []), st, [EvPrint (MsgInvalidRegex e)])
  | Raise e' => (Raise e', st, [])
  end.

(** The ways the name stage can end on records. *)
Lemma name_stage_cases name playlists (st : state World) :
  Forall (fun p => playlist_record p = true) playlists ->
  name_stage re_compile re_search render name playlists st =
    match given name with
    | None => (Ok (Next playlists), st, [])
    | Some pattern =>
        match re_compile pattern with
        | Ok name_re =>
            (Ok (Next (filter (fun p => re_search name_re (name_of p)) playlists)), st, [])
        | Raise e =>
            if is_ReError e then after_pattern_error e st else (Raise e, st, [])
        end
    end.
Proof.
  intros Hl. unfold name_stage.
  destruct (given name) as [pattern |]; [| reflexivity].
  unfold try_except, bind, lift_result.
  destruct (re_compile pattern) as [name_re | e].
  - rewrite (Forall_record_total _ (fun p => re_search name_re (name_of p)) _
               (fun p Hp => name_matches_total p Hp re_search name_re) Hl).
    reflexivity.
  - destruct (is_ReError e); [| reflexivity].
    unfold after_pattern_error, console_print_markup.
    destruct (render (invalid_regex_line e)) as [[] | e']; reflexivity.
Qed.

(** A pattern error ends the name stage whatever the list holds. *)
Lemma name_stage_rejected name pattern msg playlists (st : state World) :
  given name = Some pattern ->
  re_compile pattern = Raise (ReError msg) ->
  name_stage re_compile re_search render name playlists st
  = after_pattern_error (ReError msg) st.
Proof.
  intros Hn Hc. unfold name_stage. rewrite Hn.
  unfold try_except, bind, lift_result. rewrite Hc. cbn [is_ReError].
  unfold after_pattern_error, console_print_markup.
  destruct (render (invalid_regex_line (ReError msg))) as [[] | e']; reflexivity.
Qed.

Lemma name_matches_readable name_re p :
  name_readable p -> name_matches re_search name_re p = Ok (re_search name_re (name_of p)).
Proof.
  intros (d & -> & [Hnone | (t & Hsome)]);
    unfold name_matches, name_of, field, py_get, rbind.
  - rewrite Hnone. reflexivity.
  - rewrite Hsome. reflexivity.
Qed.

(** With a pattern that compiles, the name stage narrows a list it can
    read and goes on. *)
Lemma name_stage_readable name pattern name_re playlists (st : state World) :
  given name = Some pattern ->
  re_compile pattern = Ok name_re ->
  Forall name_readable playlists ->
  name_stage re_compile re_search render name playlists st
  = (Ok (Next (filter (fun p => re_search name_re (name_of p)) playlists)), st, []).
Proof.
  intros Hn Hc Hl. unfold name_stage. rewrite Hn.
  unfold try_except, bind, lift_result. rewrite Hc.
  rewrite (filter_r_total _ (fun p => re_search name_re (name_of p))).
  - reflexivity.
  - eapply Forall_impl; [| exact Hl]. intros p Hp. apply name_matches_readable, Hp.
Qed.

Lemma owner_stage_known owner o l (st : state World) u st1 ev uid :
  given owner = Some o ->
  get_current_user send st = (Ok u, st1, ev) ->
  truthy u = true ->
  py_getitem u "id" = Ok uid ->
  Forall (fun p => playlist_record p = true) l ->
  owner_stage send owner l st = (Ok (Next (filter (owner_condition o uid) l)), st1, ev).
Proof.
  intros Ho Hu Ht Hid Hl. unfold owner_stage. rewrite Ho.
  unfold bind at 1. rewrite Hu, Ht. simpl negb. cbv iota.
  unfold bind, lift_result. rewrite Hid.
  assert (Hf : (if lower o =? "me" then filter_r (owned_by uid) l
                else if lower o =? "not-me" then filter_r (not_owned_by uid) l
                else filter_r (owned_by (JStr o)) l)
               = Ok (filter (owner_condition o uid) l)).
  { unfold owner_condition.
    destruct (lower o =? "me").
    - apply Forall_record_total; [| exact Hl]. intros p Hp. apply owned_by_total, Hp.
    - destruct (lower o =? "not-me").
      + apply Forall_record_total; [| exact Hl].
        intros p Hp. apply not_owned_by_total, Hp.
      + apply Forall_record_total; [| exact Hl].
        intros p Hp. apply owned_by_total, Hp. }
  rewrite Hf. simpl. rewrite !app_nil_r. reflexivity.
Qed.

Lemma owner_stage_absent owner o l (st : state World) u st1 ev :
  given owner = Some o ->
  get_current_user send st = (Ok u, st1, ev) ->
  truthy u = false ->
  owner_stage send owner l st = (Ok (Return []), st1, ev).
Proof.
  intros Ho Hu Ht. unfold owner_stage. rewrite Ho.
  unfold bind. rewrite Hu, Ht. simpl. rewrite app_nil_r. reflexivity.
Qed.

(** C5.  With every criterion unset (no name, no owner, no collaborative
    flag, neither empty nor no-description), the filter returns its input
    list, sends nothing and prints nothing. *)
Theorem filters_unset_identity playlists name owner (st : state World) :
  given name = None ->
  given owner = None ->
  _apply_filters_to_playlists send re_compile re_search render playlists name owner None false false st = (Ok playlists, st, []).
Proof.
  intros Hn Ho.
  unfold _apply_filters_to_playlists, name_stage, owner_stage.
  rewrite Hn, Ho. reflexivity.
Qed.

(** A name criterion that [re.compile] rejects as a pattern error ends
    the filter in the handler, whatever the input list and the other
    criteria are: when the error line renders, the line is printed and the
    empty list returned, with nothing sent; when rich refuses the line,
    its exception leaves the filter and no list is returned. *)
Lemma invalid_regex_outcome playlists name pattern msg owner
    is_collaborative empty no_description (st : state World) :
  given name = Some pattern ->
  re_compile pattern = Raise (ReError msg) ->
  _apply_filters_to_playlists send re_compile re_search render playlists name owner is_collaborative empty no_description st
  = match render (invalid_regex_line (ReError msg)) with
    | Ok _ => (Ok [], st, [EvPrint (MsgInvalidRegex (ReError msg))])
    | Raise e => (Raise e, st, [])
    end.
Proof.
  intros Hn Hc.
  unfold _apply_filters_to_playlists, bind.
  rewrite (name_stage_rejected name pattern msg playlists st Hn Hc).
  unfold after_pattern_error.
  destruct (render (invalid_regex_line (ReError msg))) as [[] | e]; reflexivity.
Qed.

(** C9.  When an owner criterion is given and the current-user lookup
    yields nothing, the filter returns the empty list for every choice of
    the other criteria, whenever the name stage, which runs before the
    lookup, does not raise: with no name criterion that is for every input
    list; with a pattern that compiles, for every list whose entries are
    objects with a string for a name; with a pattern rejected as a pattern
    error, when the error line renders. *)
Theorem owner_lookup_absent_yields_empty playlists name owner o
    is_collaborative empty no_description (st : state World) u st1 ev :
  given owner = Some o ->
  get_current_user send st = (Ok u, st1, ev) ->
  truthy u = false ->
  given name = None
  \/ (exists pattern name_re,
        given name = Some pattern
        /\ re_compile pattern = Ok name_re
        /\ Forall name_readable playlists)
  \/ (exists pattern msg,
        given name = Some pattern
        /\ re_compile pattern = Raise (ReError msg)
        /\ render (invalid_regex_line (ReError msg)) = Ok tt) ->
  outcome (_apply_filters_to_playlists send re_compile re_search render
             playlists name owner is_collaborative empty no_description st)
  = Ok [].
Proof.
  intros Ho Hu Ht [Hn | [(pattern & name_re & Hn & Hc & Hl) | (pattern & msg & Hn & Hc & Hr)]].
  - unfold _apply_filters_to_playlists, name_stage. rewrite Hn.
    rewrite (outcome_bind_ok _ _ _ _ _ _ (eq_refl : ret (Next playlists) st = _)).
    rewrite (outcome_bind_ok _ _ _ _ _ _
               (owner_stage_absent owner o _ st u st1 ev Ho Hu Ht)).
    reflexivity.
  - unfold _apply_filters_to_playlists.
    rewrite (outcome_bind_ok _ _ _ _ _ _
               (name_stage_readable name pattern name_re playlists st Hn Hc Hl)).
    rewrite (outcome_bind_ok _ _ _ _ _ _
               (owner_stage_absent owner o _ st u st1 ev Ho Hu Ht)).
    reflexivity.
  - rewrite (invalid_regex_outcome playlists name pattern msg owner _ _ _ st Hn Hc), Hr.
    reflexivity.
Qed.

End FilterFacts.

(** Splitting a list by a condition and its negation loses and repeats
    nothing. *)
Lemma split_by_condition (f : json -> bool) (base : list json) :
  (forall p, In p (filter f base) -> In p (filter (fun x => negb (f x)) base) -> False)
  /\ Permutation (filter f base ++ filter (fun x => negb (f x)) base) base
  /\ (forall i, In i (map playlist_id base) <->
                In i (map playlist_id (filter f base))
                \/ In i (map playlist_id (filter (fun x => negb (f x)) base))).
Proof.
  split; [| split].
  - intros p H1 H2.
    apply filter_In in H1. apply filter_In in H2.
    destruct H1 as [_ H1], H2 as [_ H2]. rewrite H1 in H2. discriminate.
  - apply filter_split_perm.
  - intros i. rewrite <- in_app_iff, <- map_app.
    split; intros H.
    + eapply Permutation_in; [| exact H].
      apply Permutation_map, Permutation_sym, filter_split_perm.
    + eapply Permutation_in; [| exact H].
      apply Permutation_map, filter_split_perm.
Qed.

Section OwnerPartition.

Variable World : Type.
Variable send : request -> World -> result response * World.
Variable regex : Type.
Variable re_compile : string -> result regex.
Variable re_search : regex -> string -> bool.
Variable render : string -> result unit.

Lemma owner_condition_me uid : owner_condition "me" uid = is_owned_by uid.
Proof. reflexivity. Qed.

Lemma owner_condition_not_me uid :
  owner_condition "not-me" uid = fun p => negb (is_owned_by uid p).
Proof. reflexivity. Qed.

(** The filter with an owner keyword, when the name stage passes [l0] on
    and the lookup finds the caller. *)
Lemma apply_filters_with_owner playlists name o is_collaborative empty no_description
    (st : state World) u st1 ev uid l0 :
  o <> "" ->
  name_stage re_compile re_search render name playlists st = (Ok (Next l0), st, []) ->
  Forall (fun p => playlist_record p = true) l0 ->
  get_current_user send st = (Ok u, st1, ev) ->
  truthy u = true ->
  py_getitem u "id" = Ok uid ->
  outcome (_apply_filters_to_playlists send re_compile re_search render
             playlists name (Some o) is_collaborative empty no_description st)
  = Ok (filter (owner_condition o uid)
          (filter (passes_flags is_collaborative empty no_description) l0)).
Proof.
  intros Ho Hname Hl Hu Ht Hid.
  assert (Hgiven : given (Some o) = Some o).
  { simpl. destruct (o =? "") eqn:E; [apply String.eqb_eq in E; contradiction | reflexivity]. }
  unfold _apply_filters_to_playlists.
  rewrite (outcome_bind_ok _ _ _ _ _ _ Hname).
  rewrite (outcome_bind_ok _ _ _ _ _ _
             (owner_stage_known World send (Some o) o l0 st u st1 ev uid
                Hgiven Hu Ht Hid Hl)).
  unfold outcome, lift_result. simpl.
  rewrite flag_stages_total by (apply Forall_filter_keeps, Hl).
  rewrite filter_swap. reflexivity.
Qed.

(** C6.  For a list of records and a caller whose id the lookup returns,
    the playlists kept with owner 'me' and those kept with owner 'not-me'
    have nothing in common, and together they are the playlists kept
    without an owner criterion, record by record and id by id. *)
Theorem owner_me_not_me_partition playlists name is_collaborative empty no_description
    (st : state World) u st1 ev uid base :
  Forall (fun p => playlist_record p = true) playlists ->
  get_current_user send st = (Ok u, st1, ev) ->
  truthy u = true ->
  py_getitem u "id" = Ok uid ->
  outcome (_apply_filters_to_playlists send re_compile re_search render
             playlists name None is_collaborative empty no_description st) = Ok base ->
  exists mine others,
    outcome (_apply_filters_to_playlists send re_compile re_search render
               playlists name (Some "me") is_collaborative empty no_description st)
    = Ok mine
    /\ outcome (_apply_filters_to_playlists send re_compile re_search render
                  playlists name (Some "not-me") is_collaborative empty no_description st)
       = Ok others
    /\ (forall p, In p mine -> In p others -> False)
    /\ Permutation (mine ++ others) base
    /\ (forall i, In i (map playlist_id base) <->
                  In i (map playlist_id mine) \/ In i (map playlist_id others)).
Proof.
  intros Hl Hu Ht Hid Hbase.
  pose proof (name_stage_cases World regex re_compile re_search render name playlists st Hl)
    as Hname.
  assert (Hnext : forall l0,
    Forall (fun p => playlist_record p = true) l0 ->
    name_stage re_compile re_search render name playlists st = (Ok (Next l0), st, []) ->
    exists mine others,
      outcome (_apply_filters_to_playlists send re_compile re_search render
                 playlists name (Some "me") is_collaborative empty no_description st)
      = Ok mine
      /\ outcome (_apply_filters_to_playlists send re_compile re_search render
                    playlists name (Some "not-me") is_collaborative empty no_description st)
         = Ok others
      /\ (forall p, In p mine -> In p others -> False)
      /\ Permutation (mine ++ others) base
      /\ (forall i, In i (map playlist_id base) <->
                    In i (map playlist_id mine) \/ In i (map playlist_id others))).
  { intros l0 Hl0 Hn.
    assert (Hb : base = filter (passes_flags is_collaborative empty no_description) l0).
    { unfold _apply_filters_to_playlists in Hbase.
      rewrite (outcome_bind_ok _ _ _ _ _ _ Hn) in Hbase.
      unfold owner_stage in Hbase. simpl given in Hbase.
      unfold outcome, bind, ret, lift_result in Hbase. simpl in Hbase.
      rewrite flag_stages_total in Hbase by exact Hl0.
      simpl in Hbase. congruence. }
    exists (filter (is_owned_by uid) base),
           (filter (fun p => negb (is_owned_by uid p)) base).
    split; [| split].
    - rewrite (apply_filters_with_owner playlists name "me" _ _ _ st u st1 ev uid l0);
        try assumption; [| discriminate].
      rewrite owner_condition_me, Hb. reflexivity.
    - rewrite (apply_filters_with_owner playlists name "not-me" _ _ _ st u st1 ev uid l0);
        try assumption; [| discriminate].
      rewrite owner_condition_not_me, Hb. reflexivity.
    - apply split_by_condition. }
  destruct (given name) as [pattern |].
  - destruct (re_compile pattern) as [name_re | e].
    + apply (Hnext _ (Forall_filter_keeps _ _ _ Hl) Hname).
    + unfold after_pattern_error in Hname.
      destruct (is_ReError e) eqn:He;
        [destruct (render (invalid_regex_line e)) as [[] | e'] |].
      * assert (Hany : forall owner,
          outcome (_apply_filters_to_playlists send re_compile re_search render
                     playlists name owner is_collaborative empty no_description st)
          = Ok []).
        { intros owner. unfold _apply_filters_to_playlists.
          rewrite (outcome_bind_ok _ _ _ _ _ _ Hname). reflexivity. }
        rewrite Hany in Hbase. inversion Hbase; subst.
        exists [], []. rewrite !Hany.
        repeat split; simpl; auto; try tauto.
      * unfold _apply_filters_to_playlists in Hbase.
        rewrite (outcome_bind_raise _ _ _ _ _ _ Hname) in Hbase. discriminate.
      * unfold _apply_filters_to_playlists in Hbase.
        rewrite (outcome_bind_raise _ _ _ _ _ _ Hname) in Hbase. discriminate.
  - apply (Hnext _ Hl Hname).
Qed.

End OwnerPartition.

Lemma filters_unset_identity_witness :
  _apply_filters_to_playlists script_send literal_compile literal_search tag_render
    [p1; p2; p3] None (Some "") None false false (mk_state [] client0)
  = (Ok [p1; p2; p3], mk_state [] client0, []).
Proof.
  exact (filters_unset_identity script script_send string literal_compile literal_search tag_render
           [p1; p2; p3] None (Some "") (mk_state [] client0) eq_refl eq_refl).
Defined.

(** C7.  On the name criterion '(?P<[/x]>a)', which [re.compile] rejects
    as a pattern error whose text quotes the group name, the filter does
    not return the empty list: the handler puts the text of the error into
    the markup of the line it prints, rich meets the closing tag [[/x]]
    with nothing to close, and [MarkupError] leaves the filter. *)
Theorem invalid_regex_markup_raises :
  literal_compile "(?P<[/x]>a)"
  = Raise (ReError "bad character in group name '[/x]' at position 4")
  /\ tag_render
       "[bold red]Invalid regex for --name: bad character in group name '[/x]' at position 4[/bold red]"
     = Raise MarkupError
  /\ _apply_filters_to_playlists script_send literal_compile literal_search tag_render
       [p1; p2; p3] (Some "(?P<[/x]>a)") None None false false (mk_state [] client0)
     = (Raise MarkupError, mk_state [] client0, []).
Proof. repeat split; vm_compute; reflexivity. Qed.

(** A pattern error whose text holds no tag is printed, and the empty
    list returned before any other stage runs. *)
Example invalid_regex_example :
  _apply_filters_to_playlists script_send literal_compile literal_search tag_render
    [p1; p2; p3] (Some "(road") (Some "me") (Some false) true true
    (mk_state [(url_me, ok_json user_alice)] client0)
  = (Ok [], mk_state [(url_me, ok_json user_alice)] client0,
     [EvPrint (MsgInvalidRegex (ReError "missing ), unterminated subpattern at position 0"))]).
Proof. vm_compute. reflexivity. Qed.

(** The claim of C9 as it was written fails where the name stage raises
    before the lookup is reached.  With the owner 'me' and a lookup that
    yields nothing, the pattern 'a{99999999999}' makes [re.compile] raise
    [OverflowError], which the handler for pattern errors does not catch,
    on a list of ordinary playlists; and an entry that is not an object
    makes the name stage raise [AttributeError]. *)
Lemma owner_lookup_absent_name_stage_raises :
  get_current_user script_send (mk_state [(url_me, not_found)] client0)
  = (Ok JNull, mk_state [] client0,
     [EvPrint MsgFetchingProfile;
      EvRequest (request_for client0 GET "me" None None);
      EvPrint (MsgRequestError (RequestException (HTTPError 404)))])
  /\ _apply_filters_to_playlists script_send literal_compile literal_search tag_render
       [p1; p2; p3] (Some "a{99999999999}") (Some "me") None false false
       (mk_state [(url_me, not_found)] client0)
     = (Raise OverflowError, mk_state [(url_me, not_found)] client0, [])
  /\ _apply_filters_to_playlists script_send literal_compile literal_search tag_render
       [p1; JNull] (Some "road") (Some "me") None false false
       (mk_state [(url_me, not_found)] client0)
     = (Raise AttributeError, mk_state [(url_me, not_found)] client0, []).
Proof. repeat split; vm_compute; reflexivity. Qed.

Lemma owner_lookup_absent_yields_empty_witness :
  outcome (_apply_filters_to_playlists script_send literal_compile literal_search tag_render
             [p1; p2; p3] (Some "o") (Some "not-me") None false false
             (mk_state [(url_me, not_found)] client0))
  = Ok []
  /\ outcome (_apply_filters_to_playlists script_send literal_compile literal_search tag_render
                [JNull; JInt 3] None (Some "not-me") (Some true) true true
                (mk_state [(url_me, not_found)] client0))
     = Ok [].
Proof.
  split.
  - refine (owner_lookup_absent_yields_empty script script_send string
              literal_compile literal_search tag_render
              [p1; p2; p3] (Some "o") (Some "not-me") "not-me" None false false
              (mk_state [(url_me, not_found)] client0)
              JNull (mk_state [] client0)
              [EvPrint MsgFetchingProfile;
               EvRequest (request_for client0 GET "me" None None);
               EvPrint (MsgRequestError (RequestException (HTTPError 404)))]
              eq_refl eq_refl eq_refl _).
    right. left. exists "o", "o". split; [reflexivity | split; [reflexivity |]].
    repeat (constructor;
            [eexists; split; [reflexivity | right; eexists; reflexivity] |]).
    constructor.
  - refine (owner_lookup_absent_yields_empty script script_send string
              literal_compile literal_search tag_render
              [JNull; JInt 3] None (Some "not-me") "not-me" (Some true) true true
              (mk_state [(url_me, not_found)] client0)
              JNull (mk_state [] client0)
              [EvPrint MsgFetchingProfile;
               EvRequest (request_for client0 GET "me" None None);
               EvPrint (MsgRequestError (RequestException (HTTPError 404)))]
              eq_refl eq_refl eq_refl _).
    left. reflexivity.
Defined.

Lemma owner_me_not_me_partition_witness :
  exists mine others,
    outcome (_apply_filters_to_playlists script_send literal_compile literal_search tag_render
               [p1; p2; p3] (Some "o") (Some "me") (Some false) false true
               (mk_state [(url_me, ok_json user_alice)] client0))
    = Ok mine
    /\ outcome (_apply_filters_to_playlists script_send literal_compile literal_search tag_render
                  [p1; p2; p3] (Some "o") (Some "not-me") (Some false) false true
                  (mk_state [(url_me, ok_json user_alice)] client0))
       = Ok others
    /\ (forall p, In p mine -> In p others -> False)
    /\ Permutation (mine ++ others) [p1; p2; p3]
    /\ (forall i, In i (map playlist_id [p1; p2; p3]) <->
                  In i (map playlist_id mine) \/ In i (map playlist_id others)).
Proof.
  refine (owner_me_not_me_partition script script_send string
            literal_compile literal_search tag_render
            [p1; p2; p3] (Some "o") (Some false) false true
            (mk_state [(url_me, ok_json user_alice)] client0)
            user_alice
            (mk_state [] {| _access_token := "token";
                            _headers := [("Authorization", "Bearer token")];
                            _user_data := user_alice |})
            [EvPrint MsgFetchingProfile;
             EvRequest (request_for client0 GET "me" None None)]
            (JStr "alice") [p1; p2; p3] _ eq_refl eq_refl eq_refl eq_refl).
  repeat constructor.
Defined.

(** What the two owner keywords keep on a small list: alice's playlists and
    the others. *)
Example owner_split_example :
  outcome (_apply_filters_to_playlists script_send literal_compile literal_search tag_render
             [p1; p2; p3] None (Some "me") None false false
             (mk_state [(url_me, ok_json user_alice)] client0)) = Ok [p1; p3]
  /\ outcome (_apply_filters_to_playlists script_send literal_compile literal_search tag_render
                [p1; p2; p3] None (Some "Not-Me") None false false
                (mk_state [(url_me, ok_json user_alice)] client0)) = Ok [p2]
  /\ outcome (_apply_filters_to_playlists script_send literal_compile literal_search tag_render
                [p1; p2; p3] (Some "FOCUS") None None true false
                (mk_state [] client0)) = Ok [p2].
Proof. repeat split; vm_compute; reflexivity. Qed.

(* ================================================================== *)
(** ** The authorization URL *)
(* ================================================================== *)

Module AuthFacts.
Import Auth.

Lemma has_char_app c s t : has_char c (s ++ t)%string = has_char c s || has_char c t.
Proof.
  induction s as [| a s IH]; simpl; [reflexivity |].
  rewrite IH, orb_assoc. reflexivity.
Qed.

Lemma partition_at_absent c s :
  has_char c s = false -> partition_at c s = (s, None).
Proof.
  induction s as [| a s IH]; simpl; [reflexivity |].
  intros H. apply orb_false_iff in H. destruct H as [Ha Hs].
  rewrite Ha, (IH Hs). reflexivity.
Qed.

Lemma partition_at_first c s t :
  has_char c s = false -> partition_at c (s ++ String c t)%string = (s, Some t).
Proof.
  induction s as [| a s IH]; simpl.
  - rewrite Ascii.eqb_refl. reflexivity.
  - intros H. apply orb_false_iff in H. destruct H as [Ha Hs].
    rewrite Ha, (IH Hs). reflexivity.
Qed.

Lemma split_on_first c s t :
  has_char c s = false -> split_on c (s ++ String c t)%string = s :: split_on c t.
Proof.
  induction s as [| a s IH]; simpl.
  - rewrite Ascii.eqb_refl. reflexivity.
  - intros H. apply orb_false_iff in H. destruct H as [Ha Hs].
    rewrite Ha, (IH Hs). reflexivity.
Qed.

(** The words of [SCOPES]. *)
Lemma scope_names_are :
  scope_names =
    ["user-read-email"; "playlist-modify-public"; "playlist-modify-private";
     "playlist-read-private"; "playlist-read-collaborative"]
  /\ Forall (fun s => has_char " " s = false) scope_names
  /\ String.concat " " scope_names = SCOPES.
Proof.
  split; [vm_compute; reflexivity |].
  split; [| vm_compute; reflexivity].
  apply Forall_forall. intros s Hs.
  vm_compute in Hs.
  repeat (destruct Hs as [<- | Hs]; [vm_compute; reflexivity |]).
  destruct Hs.
Qed.

(** C8, amended.  With both credentials set, the URL of the interactive
    flow carries as its scope query parameter the requested scope names
    joined by single spaces (the text of [SCOPES] as it is). *)
Theorem auth_url_scope_parameter CLIENT_ID CLIENT_SECRET client_id client_secret :
  given CLIENT_ID = Some client_id ->
  given CLIENT_SECRET = Some client_secret ->
  plain_id client_id = true ->
  exists url,
    auth_url CLIENT_ID CLIENT_SECRET = Some url
    /\ query_param "scope" url = Some (String.concat " " scope_names).
Proof.
  intros Hid Hsecret Hplain.
  unfold auth_url. rewrite Hid, Hsecret.
  eexists. split; [reflexivity |].
  apply andb_true_iff in Hplain. destruct Hplain as [Hamp Hhash].
  apply negb_true_iff in Hamp. apply negb_true_iff in Hhash.
  set (rest := ("response_type=code&redirect_uri=" ++ REDIRECT_URI ++ "&scope=" ++ SCOPES)%string).
  set (q := (("client_id=" ++ client_id) ++ String "&" rest)%string).
  assert (Hurl : ("https://accounts.spotify.com/authorize?" ++
                  "client_id=" ++ client_id ++ "&" ++
                  "response_type=code&" ++
                  "redirect_uri=" ++ REDIRECT_URI ++ "&" ++
                  "scope=" ++ SCOPES)%string
                 = ("https://accounts.spotify.com/authorize" ++ String "?" q)%string).
  { unfold q, rest. simpl. reflexivity. }
  rewrite Hurl. clear Hurl.
  assert (Hq : has_char "#" q = false).
  { unfold q, rest. rewrite !has_char_app, Hhash. vm_compute. reflexivity. }
  unfold query_param, query_params, query_of.
  rewrite (partition_at_absent "#").
  2:{ rewrite has_char_app. simpl. exact Hq. }
  cbn [fst].
  rewrite (partition_at_first "?" "https://accounts.spotify.com/authorize" q eq_refl).
  cbn [snd]. unfold q.
  rewrite (split_on_first "&").
  2:{ rewrite has_char_app, Hamp. reflexivity. }
  change (("client_id=" ++ client_id)%string)
    with (("client_id" ++ String "=" client_id)%string).
  cbn [map]. rewrite (partition_at_first "=" "client_id" client_id eq_refl).
  reflexivity.
Qed.

End AuthFacts.

(** The claim fails as stated: the scope parameter of the URL is the text
    of [SCOPES], with a space between the names; the space-free
    concatenation of the names is another string. *)
Lemma auth_url_scope_has_spaces :
  Auth.auth_url (Some "0123abcd") (Some "secret")
  = Some "https://accounts.spotify.com/authorize?client_id=0123abcd&response_type=code&redirect_uri=http://127.0.0.1:8888/callback&scope=user-read-email playlist-modify-public playlist-modify-private playlist-read-private playlist-read-collaborative"
  /\ Auth.query_param "scope"
       "https://accounts.spotify.com/authorize?client_id=0123abcd&response_type=code&redirect_uri=http://127.0.0.1:8888/callback&scope=user-read-email playlist-modify-public playlist-modify-private playlist-read-private playlist-read-collaborative"
     = Some Auth.SCOPES
  /\ Auth.has_char " " Auth.SCOPES = true
  /\ Auth.SCOPES <> String.concat "" Auth.scope_names.
Proof.
  split; [reflexivity |]. split; [vm_compute; reflexivity |].
  split; [reflexivity |]. vm_compute. discriminate.
Qed.

Lemma auth_url_scope_parameter_witness :
  exists url,
    Auth.auth_url (Some "0123abcd") (Some "secret") = Some url
    /\ Auth.query_param "scope" url = Some (String.concat " " Auth.scope_names).
Proof.
  exact (AuthFacts.auth_url_scope_parameter (Some "0123abcd") (Some "secret")
           "0123abcd" "secret" eq_refl eq_refl eq_refl).
Defined.

(* ================================================================== *)
(** ** The full listing *)
(* ================================================================== *)

Lemma concat_chunks_fuel fuel L xs : List.concat (chunks_fuel fuel L xs) = xs.
Proof.
  revert xs. induction fuel as [| fuel IH]; intros xs; simpl.
  - apply app_nil_r.
  - destruct (List.length xs <=? L)%nat; simpl.
    + apply app_nil_r.
    + rewrite IH. apply firstn_skipn.
Qed.

Lemma concat_chunks L xs : List.concat (chunks L xs) = xs.
Proof. apply concat_chunks_fuel. Qed.

(** With a positive page size no page of [chunks] exceeds it. *)
Lemma chunks_page_sizes L xs :
  (0 < L)%nat -> Forall (fun page => (List.length page <= L)%nat) (chunks L xs).
Proof.
  intros HL. unfold chunks.
  assert (H : forall fuel ys, (List.length ys <= fuel)%nat ->
            Forall (fun page => (List.length page <= L)%nat) (chunks_fuel fuel L ys)).
  { induction fuel as [| fuel IH]; intros ys Hlen; simpl.
    - constructor; [lia | constructor].
    - destruct (List.length ys <=? L)%nat eqn:E.
      + apply Nat.leb_le in E. constructor; [exact E | constructor].
      + apply Nat.leb_gt in E. constructor.
        * rewrite length_firstn. lia.
        * apply IH. rewrite length_skipn. lia. }
  apply H. lia.
Qed.

Lemma has_items_truthy data items :
  py_getitem data "items" = Ok items -> truthy data = true.
Proof.
  destruct data; simpl; try discriminate.
  destruct d; simpl; [discriminate | reflexivity].
Qed.

Section FullListing.

Variable World : Type.
Variable send : request -> World -> result response * World.
Variable self : SpotifyClient.

(** A turn whose request brings an envelope extends the list and moves
    to the next link. *)
Lemma playlists_turn_page url params acc w data w1 ev items next :
  _request send self GET url params None 3 w = (Ok data, w1, ev) ->
  py_getitem data "items" = Ok (JList items) ->
  py_get data "next" JNull = Ok next ->
  playlists_turn send self (JStr url) params acc w =
    (Ok (Continue (acc ++ items) next), w1,
     ev ++ [EvPrint (MsgFound (List.length (acc ++ items)))]).
Proof.
  intros Hreq Hitems Hnext.
  unfold playlists_turn, try_except, bind, _request_value.
  rewrite Hreq, (has_items_truthy _ _ Hitems). simpl negb. cbv iota.
  unfold lift_result. rewrite Hitems. simpl py_iter. cbv iota.
  rewrite Hnext. reflexivity.
Qed.

(** A turn whose request brings nothing ends the loop with the list as
    it is. *)
Lemma playlists_turn_nothing url params acc w data w1 ev :
  _request send self GET url params None 3 w = (Ok data, w1, ev) ->
  truthy data = false ->
  playlists_turn send self (JStr url) params acc w = (Ok (Break acc), w1, ev).
Proof.
  intros Hreq Hfalse.
  unfold playlists_turn, try_except, bind, _request_value.
  rewrite Hreq, Hfalse. simpl. rewrite app_nil_r. reflexivity.
Qed.

Lemma playlists_loop_over fuel next params acc w :
  truthy next = false ->
  playlists_loop send self fuel next params acc w = Some (Ok acc, w, []).
Proof. intros H. destruct fuel; simpl; rewrite H; reflexivity. Qed.

Lemma url_truthy url : url <> "" -> truthy (JStr url) = true.
Proof.
  intros H. simpl. destruct (url =? "") eqn:E; [| reflexivity].
  apply String.eqb_eq in E. contradiction.
Qed.

(** One unfolding of the loop on a link that is not empty. *)
Lemma playlists_loop_turn fuel url params acc w :
  url <> "" ->
  playlists_loop send self (S fuel) (JStr url) params acc w =
    match playlists_turn send self (JStr url) params acc w with
    | (Ok (Break done), w1, ev1) => Some (Ok done, w1, ev1)
    | (Ok (Continue acc' next), w1, ev1) =>
        match playlists_loop send self fuel next None acc' w1 with
        | Some (r, w2, ev2) => Some (r, w2, ev1 ++ ev2)
        | None => None
        end
    | (Raise e, w1, ev1) => Some (Raise e, w1, ev1)
    end.
Proof.
  intros Hurl.
  change (playlists_loop send self (S fuel) (JStr url) params acc w)
    with (if truthy (JStr url) then
            match playlists_turn send self (JStr url) params acc w with
            | (Ok (Break done), w1, ev1) => Some (Ok done, w1, ev1)
            | (Ok (Continue acc' next), w1, ev1) =>
                match playlists_loop send self fuel next None acc' w1 with
                | Some (r, w2, ev2) => Some (r, w2, ev1 ++ ev2)
                | None => None
                end
            | (Raise e, w1, ev1) => Some (Raise e, w1, ev1)
            end
          else Some (Ok acc, w, [])).
  rewrite (url_truthy url Hurl). reflexivity.
Qed.

(** The loop returns the pages it is served, appended in order to what
    it already holds. *)
Lemma playlists_loop_fetches w url params pages completed :
  fetches send self w url params pages completed ->
  url <> "" ->
  forall acc fuel,
    (List.length pages < fuel)%nat ->
    exists w' ev,
      playlists_loop send self fuel (JStr url) params acc w
      = Some (Ok (acc ++ List.concat pages), w', ev).
Proof.
  induction 1 as [w url params data w1 ev items next Hreq Hitems Hnext Hend
                 | w url params data w1 ev items next pages completed
                     Hreq Hitems Hnext Hne Hrest IH
                 | w url params data w1 ev Hreq Hfalse];
    intros Hurl acc fuel Hfuel.
  - destruct fuel as [| fuel]; [simpl in Hfuel; lia |].
    rewrite (playlists_loop_turn fuel url params acc w Hurl).
    rewrite (playlists_turn_page url params acc w data w1 ev items next Hreq Hitems Hnext).
    rewrite (playlists_loop_over fuel next None (acc ++ items) w1 Hend).
    simpl. rewrite ?app_nil_r. eauto.
  - destruct fuel as [| fuel]; [simpl in Hfuel; lia |].
    rewrite (playlists_loop_turn fuel url params acc w Hurl).
    rewrite (playlists_turn_page url params acc w data w1 ev items (JStr next)
               Hreq Hitems Hnext).
    destruct (IH Hne (acc ++ items) fuel) as (w' & ev' & Hloop).
    { simpl in Hfuel. lia. }
    rewrite Hloop. simpl. rewrite <- app_assoc. eauto.
  - destruct fuel as [| fuel]; [simpl in Hfuel; lia |].
    rewrite (playlists_loop_turn fuel url params acc w Hurl).
    rewrite (playlists_turn_nothing url params acc w data w1 ev Hreq Hfalse).
    simpl. rewrite ?app_nil_r. eauto.
Qed.

(** C4.  [get_all_playlists] starts at 'me/playlists' with [limit] 50 and
    follows the next-page links.  For a source of the items [xs] served
    in pages of [L], it returns the pages it was served, in order: all of
    [xs] when the last page was reached, and the items of the pages
    before the failing request, as a plain list, when a request brought
    nothing. *)
Theorem get_all_playlists_accumulates w L xs pages rest completed fuel :
  chunks L xs = pages ++ rest ->
  (completed = true -> rest = []) ->
  fetches send self w "me/playlists" (Some [("limit", 50%Z)]) pages completed ->
  (List.length pages < fuel)%nat ->
  exists w' ev,
    get_all_playlists send self fuel w = Some (Ok (List.concat pages), w', ev)
    /\ xs = List.concat pages ++ List.concat rest
    /\ (completed = true ->
        List.concat pages = xs /\ List.length (List.concat pages) = List.length xs).
Proof.
  intros Hchunks Hdone Hfetch Hfuel.
  destruct (playlists_loop_fetches w _ _ pages completed Hfetch
              ltac:(discriminate) [] fuel Hfuel) as (w' & ev & Hloop).
  assert (Hxs : xs = List.concat pages ++ List.concat rest).
  { rewrite <- concat_app, <- Hchunks, concat_chunks. reflexivity. }
  exists w', (EvPrint MsgFetchingAll :: ev).
  split; [| split].
  - unfold get_all_playlists. rewrite Hloop. reflexivity.
  - exact Hxs.
  - intros Hc. rewrite (Hdone Hc) in Hxs. simpl in Hxs. rewrite app_nil_r in Hxs.
    rewrite <- Hxs. split; reflexivity.
Qed.

End FullListing.

Lemma get_all_playlists_accumulates_witness :
  exists w' ev,
    get_all_playlists script_send client0 3
      [(url_playlists, ok_json (page [p1; p2] (JStr url_page2)));
       (url_page2, ok_json (page [p3] JNull))]
    = Some (Ok (List.concat [[p1; p2]; [p3]]), w', ev)
    /\ [p1; p2; p3] = List.concat [[p1; p2]; [p3]] ++ List.concat []
    /\ (true = true ->
        List.concat [[p1; p2]; [p3]] = [p1; p2; p3]
        /\ List.length (List.concat [[p1; p2]; [p3]]) = List.length [p1; p2; p3]).
Proof.
  refine (get_all_playlists_accumulates script script_send client0
            [(url_playlists, ok_json (page [p1; p2] (JStr url_page2)));
             (url_page2, ok_json (page [p3] JNull))]
            2 [p1; p2; p3] [[p1; p2]; [p3]] [] true 3 _ _ _ _).
  - vm_compute. reflexivity.
  - reflexivity.
  - eapply fetch_more.
    + vm_compute. reflexivity.
    + reflexivity.
    + reflexivity.
    + discriminate.
    + eapply fetch_last.
      * vm_compute. reflexivity.
      * reflexivity.
      * reflexivity.
      * reflexivity.
  - simpl. lia.
Defined.

(** A listing whose second page answers 500 returns the first page. *)
Example get_all_playlists_partial :
  get_all_playlists script_send client0 3
    [(url_playlists, ok_json (page [p1; p2] (JStr url_page2)));
     (url_page2, Ok (mk_response 500 [] BEmpty))]
  = Some (Ok [p1; p2], [],
          [EvPrint MsgFetchingAll;
           EvRequest (mk_request GET url_playlists (_headers client0)
                        (Some [("limit", 50%Z)]) None);
           EvPrint (MsgFound 2);
           EvRequest (mk_request GET url_page2 (_headers client0) None None);
           EvPrint (MsgRequestError (RequestException (HTTPError 500)))]).
Proof. vm_compute. reflexivity. Qed.

(* ================================================================== *)
(** ** More on the request primitive *)
(* ================================================================== *)

Lemma requests_in_app ev1 ev2 : requests_in (ev1 ++ ev2) = (requests_in ev1 + requests_in ev2)%nat.
Proof. unfold requests_in. rewrite filter_app, length_app. reflexivity. Qed.

Lemma sleeps_in_app ev1 ev2 : sleeps_in (ev1 ++ ev2) = (sleeps_in ev1 + sleeps_in ev2)%nat.
Proof. unfold sleeps_in. rewrite filter_app, length_app. reflexivity. Qed.

Ltac count_events :=
  unfold requests_in, sleeps_in in *; cbn;
  rewrite ?filter_app, ?length_app; cbn; lia.

Section RequestBounds.

Variable World : Type.
Variable send : request -> World -> result response * World.
Variable self : SpotifyClient.

Lemma finish_response_silent resp (w : World) r w' ev :
  finish_response resp w = (r, w', ev) -> w' = w /\ ev = [].
Proof.
  unfold finish_response, bind, lift_result.
  destruct (raise_for_status resp) as [[] | e].
  - destruct (content resp); unfold ret, response_json;
      [| destruct (content resp) |]; intros H; inversion H; auto.
  - intros H; inversion H; auto.
Qed.

Lemma retry_after_of_silent resp (w : World) r w' ev :
  retry_after_of resp w = (r, w', ev) -> w' = w /\ ev = [].
Proof.
  unfold retry_after_of, ret, raise.
  destruct (headers_get "Retry-After" (headers resp)) as [h |];
    [destruct (py_int h) |]; intros H; inversion H; auto.
Qed.

Lemma time_sleep_events n (w : World) r w' ev :
  time_sleep n w = (r, w', ev) ->
  w' = w /\ requests_in ev = 0%nat /\ (sleeps_in ev <= 1)%nat.
Proof.
  unfold time_sleep, raise, emit.
  destruct ((n <? sleep_min)%Z || (sleep_max <? n)%Z); [| destruct (n <? 0)%Z];
    intros H; inversion H; subst; cbn; auto.
Qed.

(** The handler of a [try_except] that prints and returns adds no request
    and no sleep. *)
Lemma try_except_print_counts {A} (c : M World A) catches (msg : exn -> message) (a : A)
    w r w' ev :
  try_except c catches (fun e => console_print (msg e) ;;; ret a) w = (r, w', ev) ->
  exists r0 ev0,
    c w = (r0, w', ev0)
    /\ requests_in ev = requests_in ev0 /\ sleeps_in ev = sleeps_in ev0.
Proof.
  unfold try_except, bind, console_print, emit, ret.
  destruct (c w) as [[[v | e] w1] ev1].
  - intros H; inversion H; subst. eauto.
  - destruct (catches e); intros H; inversion H; subst.
    + do 2 eexists. split; [reflexivity |].
      rewrite requests_in_app, sleeps_in_app. cbn. lia.
    + eauto.
Qed.

(** X1.  Whatever the network answers, one call of [_request] with retry
    budget [retries] sends at least one and at most [retries + 1]
    requests, and sleeps at most [retries] times. *)
Theorem request_sends_within_budget method endpoint params json_body retries w r w' ev :
  _request send self method endpoint params json_body retries w = (r, w', ev) ->
  (1 <= requests_in ev <= S retries)%nat /\ (sleeps_in ev <= retries)%nat.
Proof.
  revert w r w' ev.
  induction retries as [| retries IH]; intros w r w' ev;
    rewrite _request_eq; intros Hrun;
    apply try_except_print_counts in Hrun;
    destruct Hrun as (r0 & ev0 & Hbody & -> & ->);
    unfold bind at 1, requests_request in Hbody;
    destruct (send (request_for self method endpoint params json_body) w)
      as [[resp | e0] w1].
  - destruct (finish_response resp w1) as [[r1 w2] ev2] eqn:Hfin.
    apply finish_response_silent in Hfin. destruct Hfin as [-> ->].
    inversion Hbody; subst. count_events.
  - inversion Hbody; subst. count_events.
  - destruct (status_code resp =? 429)%Z.
    + unfold bind in Hbody.
      destruct (retry_after_of resp w1) as [[[n | e1] w2] ev2] eqn:Hra;
        apply retry_after_of_silent in Hra; destruct Hra as [-> ->].
      * unfold console_print, emit in Hbody.
        destruct (time_sleep n w1) as [[[[] | e3] w4] ev4] eqn:Hsl;
          apply time_sleep_events in Hsl; destruct Hsl as (-> & Hrq & Hsl).
        -- destruct (_request send self method endpoint params json_body retries w1)
             as [[r5 w5] ev5] eqn:Hrec.
           apply IH in Hrec. inversion Hbody; subst.
           destruct Hrec. count_events.
        -- inversion Hbody; subst.
           count_events.
      * inversion Hbody; subst. count_events.
    + destruct (finish_response resp w1) as [[r1 w2] ev2] eqn:Hfin.
      apply finish_response_silent in Hfin. destruct Hfin as [-> ->].
      inversion Hbody; subst. count_events.
  - inversion Hbody; subst. count_events.
Qed.

(** X2.  When [requests.request] itself raises a [RequestException] (no
    connection, a timeout), [_request] prints it and returns nothing, at
    any budget and without a retry. *)
Theorem request_transport_error_yields_none method endpoint params json_body retries
    w k w1 :
  send (request_for self method endpoint params json_body) w
  = (Raise (RequestException k), w1) ->
  _request send self method endpoint params json_body retries w =
    (Ok JNull, w1,
     [EvRequest (request_for self method endpoint params json_body);
      EvPrint (MsgRequestError (RequestException k))]).
Proof.
  intros Hsend. rewrite _request_eq.
  unfold try_except, bind at 1, requests_request. rewrite Hsend. reflexivity.
Qed.


Lemma _request_silent_none method endpoint params json_body retries w resp w1 :
  send (request_for self method endpoint params json_body) w = (Ok resp, w1) ->
  raise_for_status resp = Ok tt ->
  content resp = BEmpty ->
  _request send self method endpoint params json_body retries w =
    (Ok JNull, w1, [EvRequest (request_for self method endpoint params json_body)]).
Proof.
  intros Hsend Hraise Hbody. rewrite _request_eq.
  unfold try_except, bind at 1, requests_request. rewrite Hsend.
  assert (Hst : (status_code resp =? 429)%Z = false).
  { apply Z.eqb_neq. intros E. unfold raise_for_status in Hraise.
    rewrite E in Hraise. discriminate. }
  assert (Hfin : finish_response resp w1 = (Ok JNull, w1, [])).
  { unfold finish_response, bind, lift_result. rewrite Hraise, Hbody. reflexivity. }
  destruct retries; rewrite ?Hst, Hfin; reflexivity.
Qed.


(** X5.  [get_playlists_page page limit] sends one GET for 'me/playlists'
    whose parameters are the limit and the offset [(page - 1) * limit],
    and returns the envelope the server answers. *)
Theorem get_playlists_page_offset_and_result page limit w resp w1 v :
  send (mk_request GET url_playlists (_headers self)
          (Some [("limit", limit); ("offset", ((page - 1) * limit)%Z)]) None) w
  = (Ok resp, w1) ->
  answers resp v ->
  get_playlists_page send self page limit w =
    (Ok v, w1,
     [EvRequest (mk_request GET url_playlists (_headers self)
                   (Some [("limit", limit); ("offset", ((page - 1) * limit)%Z)]) None)]).
Proof.
  intros Hsend Hans.
  unfold get_playlists_page, try_except.
  rewrite (_request_answers World send self GET "me/playlists"
             (Some [("limit", limit); ("offset", ((page - 1) * limit)%Z)]) None 3
             w resp w1 v Hsend Hans).
  reflexivity.
Qed.

(** X6.  A call of [unfollow_playlist] that returns returns [True],
    whatever the network did: the method never reports a failure. *)
Theorem unfollow_playlist_never_false playlist_id w b w' ev :
  unfollow_playlist send self playlist_id w = (Ok b, w', ev) -> b = true.
Proof.
  unfold unfollow_playlist, try_except, bind.
  destruct (_request send self DELETE
              ("playlists/" ++ playlist_id ++ "/followers")%string None None 3 w)
    as [[[v | e] w1] ev1] eqn:Hreq.
  - unfold ret. intros H; inversion H; reflexivity.
  - apply _request_no_RequestException in Hreq.
    destruct e; simpl in *; try discriminate.
Qed.

(** X7.  When the DELETE is answered outside 4xx and 5xx with an empty
    body, [unfollow_playlist] returns [True] after exactly one request: a
    DELETE for the followers of that playlist under the API base URL. *)
Theorem unfollow_playlist_sends_one_delete playlist_id w resp w1 :
  send (mk_request DELETE
          ("https://api.spotify.com/v1/playlists/" ++ playlist_id ++ "/followers")%string
          (_headers self) None None) w = (Ok resp, w1) ->
  raise_for_status resp = Ok tt ->
  content resp = BEmpty ->
  unfollow_playlist send self playlist_id w =
    (Ok true, w1,
     [EvRequest (mk_request DELETE
                   ("https://api.spotify.com/v1/playlists/" ++ playlist_id ++ "/followers")%string
                   (_headers self) None None)]).
Proof.
  intros Hsend Hraise Hbody.
  unfold unfollow_playlist, try_except, bind.
  rewrite (_request_silent_none DELETE ("playlists/" ++ playlist_id ++ "/followers")%string
             None None 3 w resp w1 Hsend Hraise Hbody).
  reflexivity.
Qed.

(** X8.  A call of [get_current_user] never changes the token or the
    headers of the instance; when it returns, the value it returns is the
    value the instance holds afterwards, and when it raises, the cache is
    as it was. *)
Theorem get_current_user_keeps_instance (st : state World) r st1 ev :
  get_current_user send st = (r, st1, ev) ->
  _access_token (self_ st1) = _access_token (self_ st)
  /\ _headers (self_ st1) = _headers (self_ st)
  /\ (forall v, r = Ok v -> _user_data (self_ st1) = v)
  /\ (forall e, r = Raise e -> _user_data (self_ st1) = _user_data (self_ st)).
Proof.
  intros Hrun.
  destruct (is_None (_user_data (self_ st))) eqn:Hc.
  - assert (Hnull : _user_data (self_ st) = JNull)
      by (destruct (_user_data (self_ st)); simpl in Hc; congruence).
    destruct (_request send (self_ st) GET "me" None None 3 (world st))
      as [[[v | e] w'] ev0] eqn:Hreq.
    + rewrite (get_current_user_fetches World send st v w' ev0 Hnull Hreq) in Hrun.
      inversion Hrun; subst. simpl. repeat split; congruence.
    + rewrite (get_current_user_fetch_raises World send st e w' ev0 Hnull Hreq) in Hrun.
      inversion Hrun; subst. simpl. repeat split; congruence.
  - rewrite (get_current_user_cached World send st Hc) in Hrun.
    inversion Hrun; subst. repeat split; congruence.
Qed.

(** What [data["items"]] followed by [extend] can raise is never an
    [HTTPError]. *)
Lemma items_error_kind data e :
  rbind (py_getitem data "items") py_iter = Raise e ->
  (e = TypeError \/ e = KeyError "items") /\ is_HTTPError e = false.
Proof.
  unfold py_getitem, py_iter, rbind.
  destruct data as [| | | | | | d]; try solve [intros H; inversion H; subst; auto].
  destruct (dict_get "items" d) as [[] |]; intros H; inversion H; subst; auto.
Qed.

(** X9.  When the first page is a truthy value without a usable 'items'
    member (not an object, no such key, or items that cannot be iterated),
    [get_all_playlists] raises [KeyError] or [TypeError]: its handler only
    catches [HTTPError], so no list is returned. *)
Theorem get_all_playlists_bad_envelope_raises w data w1 ev e fuel :
  _request send self GET "me/playlists" (Some [("limit", 50%Z)]) None 3 w = (Ok data, w1, ev) ->
  truthy data = true ->
  rbind (py_getitem data "items") py_iter = Raise e ->
  get_all_playlists send self (S fuel) w = Some (Raise e, w1, EvPrint MsgFetchingAll :: ev)
  /\ (e = TypeError \/ e = KeyError "items").
Proof.
  intros Hreq Htruthy Hitems.
  destruct (items_error_kind data e Hitems) as [Hkind Hnot].
  split; [| exact Hkind].
  unfold get_all_playlists.
  rewrite (playlists_loop_turn World send self fuel "me/playlists" _ [] w)
    by discriminate.
  assert (Hturn : playlists_turn send self (JStr "me/playlists")
                    (Some [("limit", 50%Z)]) [] w = (Raise e, w1, ev)).
  { unfold playlists_turn, try_except, bind at 1, _request_value.
    rewrite Hreq, Htruthy. change (negb true) with false. cbv beta iota.
    unfold bind, lift_result. unfold rbind in Hitems.
    destruct (py_getitem data "items") as [items | e0].
    - rewrite Hitems. cbv beta iota. rewrite Hnot, app_nil_r. reflexivity.
    - inversion Hitems; subst. cbv beta iota. rewrite Hnot, app_nil_r. reflexivity. }
  rewrite Hturn. reflexivity.
Qed.

(** X10.  [get_all_playlists] has no bound of its own on the pages it
    follows: against a server that keeps answering a page with a next
    link, no number of turns ends the loop. *)
Theorem get_all_playlists_follows_links_forever (Inv : World -> Prop) w :
  (forall w0 rq, Inv w0 ->
     exists resp w1 d items next,
       send rq w0 = (Ok resp, w1)
       /\ answers resp (JDict d)
       /\ dict_get "items" d = Some (JList items)
       /\ dict_get "next" d = Some (JStr next)
       /\ next <> ""
       /\ Inv w1) ->
  Inv w ->
  forall fuel, get_all_playlists send self fuel w = None.
Proof.
  intros Hstep Hw fuel.
  assert (Hloop : forall fuel url params acc w0,
            url <> "" -> Inv w0 ->
            playlists_loop send self fuel (JStr url) params acc w0 = None).
  { clear w Hw fuel.
    induction fuel as [| fuel IH]; intros url params acc w0 Hurl Hinv.
    - cbn [playlists_loop]. rewrite (url_truthy url Hurl). reflexivity.
    - rewrite (playlists_loop_turn World send self fuel url params acc w0 Hurl).
      destruct (Hstep w0 (request_for self GET url params None) Hinv)
        as (resp & w1 & d & items & next & Hsend & Hans & Hitems & Hnext & Hne & Hinv1).
      rewrite (playlists_turn_page World send self url params acc w0 (JDict d) w1
                 [EvRequest (request_for self GET url params None)] items (JStr next)).
      + rewrite (IH next None (acc ++ items) w1 Hne Hinv1). reflexivity.
      + apply (_request_answers World send self GET url params None 3 w0 resp w1 (JDict d));
          assumption.
      + simpl. rewrite Hitems. reflexivity.
      + simpl. rewrite Hnext. reflexivity. }
  unfold get_all_playlists.
  rewrite (Hloop fuel "me/playlists" _ [] w); [reflexivity | discriminate | exact Hw].
Qed.

End RequestBounds.

Lemma request_sends_within_budget_witness :
  (1 <= requests_in
          [EvRequest (request_for client0 GET "me" None None);
           EvPrint (MsgRateLimited 2); EvSleep 2;
           EvRequest (request_for client0 GET "me" None None)] <= 4)%nat
  /\ (sleeps_in
        [EvRequest (request_for client0 GET "me" None None);
         EvPrint (MsgRateLimited 2); EvSleep 2;
         EvRequest (request_for client0 GET "me" None None)] <= 3)%nat.
Proof.
  exact (request_sends_within_budget script script_send client0 GET "me" None None 3
           [(url_me, rate_limited "2"); (url_me, ok_json user_alice)]
           (Ok user_alice) [] _ eq_refl).
Defined.

Lemma request_transport_error_yields_none_witness :
  _request script_send client0 GET "me" None None 3 []
  = (Ok JNull, [],
     [EvRequest (request_for client0 GET "me" None None);
      EvPrint (MsgRequestError (RequestException ConnectionError))]).
Proof.
  exact (request_transport_error_yields_none script script_send client0
           GET "me" None None 3 [] ConnectionError [] eq_refl).
Defined.



Lemma get_playlists_page_offset_and_result_witness :
  get_playlists_page script_send client0 1 50
    [(url_playlists, ok_json (page [p1; p2; p3] JNull))]
  = (Ok (page [p1; p2; p3] JNull), [],
     [EvRequest (mk_request GET url_playlists (_headers client0)
                   (Some [("limit", 50%Z); ("offset", ((1 - 1) * 50)%Z)]) None)]).
Proof.
  refine (get_playlists_page_offset_and_result script script_send client0 1 50
            [(url_playlists, ok_json (page [p1; p2; p3] JNull))]
            (mk_response 200 [] (BJson (page [p1; p2; p3] JNull))) []
            (page [p1; p2; p3] JNull) eq_refl _).
  unfold answers. simpl. split; [lia | split; reflexivity].
Defined.

Lemma unfollow_playlist_never_false_witness :
  outcome (unfollow_playlist script_send client0 "p1"
             [("https://api.spotify.com/v1/playlists/p1/followers", not_found)])
  = Ok true
  /\ true = true.
Proof.
  split; [reflexivity |].
  exact (unfollow_playlist_never_false script script_send client0 "p1"
           [("https://api.spotify.com/v1/playlists/p1/followers", not_found)]
           true []
           [EvRequest (request_for client0 DELETE "playlists/p1/followers" None None);
            EvPrint (MsgRequestError (RequestException (HTTPError 404)))]
           eq_refl).
Defined.

Lemma unfollow_playlist_sends_one_delete_witness :
  unfollow_playlist script_send client0 "p1"
    [("https://api.spotify.com/v1/playlists/p1/followers", Ok (mk_response 204 [] BEmpty))]
  = (Ok true, [],
     [EvRequest (mk_request DELETE "https://api.spotify.com/v1/playlists/p1/followers"
                   (_headers client0) None None)]).
Proof.
  exact (unfollow_playlist_sends_one_delete script script_send client0 "p1"
           [("https://api.spotify.com/v1/playlists/p1/followers",
             Ok (mk_response 204 [] BEmpty))]
           (mk_response 204 [] BEmpty) [] eq_refl eq_refl eq_refl).
Defined.

Lemma get_current_user_keeps_instance_witness :
  _access_token
    (self_ (mk_state (@nil (string * result response))
              {| _access_token := "token";
                 _headers := [("Authorization", "Bearer token")];
                 _user_data := user_alice |}))
  = _access_token (self_ (mk_state [(url_me, ok_json user_alice)] client0))
  /\ _headers
       (self_ (mk_state (@nil (string * result response))
                 {| _access_token := "token";
                    _headers := [("Authorization", "Bearer token")];
                    _user_data := user_alice |}))
     = _headers (self_ (mk_state [(url_me, ok_json user_alice)] client0))
  /\ (forall v, Ok user_alice = Ok v ->
       _user_data
         (self_ (mk_state (@nil (string * result response))
                   {| _access_token := "token";
                      _headers := [("Authorization", "Bearer token")];
                      _user_data := user_alice |})) = v)
  /\ (forall e, Ok user_alice = Raise e ->
       _user_data
         (self_ (mk_state (@nil (string * result response))
                   {| _access_token := "token";
                      _headers := [("Authorization", "Bearer token")];
                      _user_data := user_alice |}))
       = _user_data (self_ (mk_state [(url_me, ok_json user_alice)] client0))).
Proof.
  exact (get_current_user_keeps_instance script script_send
           (mk_state [(url_me, ok_json user_alice)] client0)
           (Ok user_alice)
           (mk_state [] {| _access_token := "token";
                           _headers := [("Authorization", "Bearer token")];
                           _user_data := user_alice |})
           [EvPrint MsgFetchingProfile;
            EvRequest (request_for client0 GET "me" None None)]
           eq_refl).
Defined.

Lemma get_all_playlists_bad_envelope_raises_witness :
  get_all_playlists script_send client0 1
    [(url_playlists, ok_json (JDict [("error", JStr "unexpected")]))]
  = Some (Raise (KeyError "items"), [],
          [EvPrint MsgFetchingAll;
           EvRequest (mk_request GET url_playlists (_headers client0)
                        (Some [("limit", 50%Z)]) None)])
  /\ (KeyError "items" = TypeError \/ KeyError "items" = KeyError "items").
Proof.
  exact (get_all_playlists_bad_envelope_raises script script_send client0
           [(url_playlists, ok_json (JDict [("error", JStr "unexpected")]))]
           (JDict [("error", JStr "unexpected")]) []
           [EvRequest (mk_request GET url_playlists (_headers client0)
                         (Some [("limit", 50%Z)]) None)]
           (KeyError "items") 0 eq_refl eq_refl eq_refl).
Defined.

Lemma get_all_playlists_follows_links_forever_witness :
  get_all_playlists endless_send client0 1000 tt = None.
Proof.
  refine (get_all_playlists_follows_links_forever unit endless_send client0
            (fun _ => True) tt _ I 1000).
  intros w0 rq _.
  exists (mk_response 200 [] (BJson (page [p1] (JStr url_playlists)))), w0,
         [("items", JList [p1]); ("next", JStr url_playlists); ("total", JInt 3)],
         [p1], url_playlists.
  repeat split; try reflexivity; try discriminate.
Defined.

(* ================================================================== *)
(** ** More on the filter engine *)
(* ================================================================== *)

Lemma subseq_refl l : subseq l l.
Proof. induction l; constructor; assumption. Qed.

Lemma subseq_nil_l l : subseq [] l.
Proof. induction l; constructor; assumption. Qed.

Lemma subseq_trans l1 l2 l3 : subseq l1 l2 -> subseq l2 l3 -> subseq l1 l3.
Proof.
  intros H12 H23. revert l1 H12.
  induction H23 as [| p l2 l3 _ IH | p l2 l3 _ IH]; intros l1 H12.
  - exact H12.
  - inversion H12; subst.
    + constructor. apply IH. assumption.
    + apply subseq_drop. apply IH. assumption.
  - apply subseq_drop. apply IH. assumption.
Qed.

Lemma filter_r_subseq keep l l' : filter_r keep l = Ok l' -> subseq l' l.
Proof.
  revert l'. induction l as [| p l IH]; simpl; intros l' H.
  - inversion H. constructor.
  - destruct (keep p) as [b | e]; simpl in H; [| discriminate].
    destruct (filter_r keep l) as [rest | e]; simpl in H; [| discriminate].
    inversion H; subst. destruct b; constructor; apply IH; reflexivity.
Qed.

Lemma flag_stages_subseq is_collaborative empty no_description l l' :
  flag_stages is_collaborative empty no_description l = Ok l' -> subseq l' l.
Proof.
  unfold flag_stages, rbind.
  destruct (match is_collaborative with
            | Some flag => filter_r (collaborative_is flag) l
            | None => Ok l
            end) as [l1 |] eqn:H1; [| discriminate].
  assert (S1 : subseq l1 l).
  { destruct is_collaborative; [apply filter_r_subseq in H1; exact H1 |].
    inversion H1. apply subseq_refl. }
  destruct (if empty then filter_r has_no_tracks l1 else Ok l1) as [l2 |] eqn:H2;
    [| discriminate].
  assert (S2 : subseq l2 l1).
  { destruct empty; [apply filter_r_subseq in H2; exact H2 |].
    inversion H2. apply subseq_refl. }
  intros H3.
  assert (S3 : subseq l' l2).
  { destruct no_description; [apply filter_r_subseq in H3; exact H3 |].
    inversion H3. apply subseq_refl. }
  eauto using subseq_trans.
Qed.

Lemma filter_idem {A} (f : A -> bool) (l : list A) : filter f (filter f l) = filter f l.
Proof.
  induction l as [| x l IH]; simpl; [reflexivity |].
  destruct (f x) eqn:E; simpl; rewrite ?E, IH; reflexivity.
Qed.

Section FilterMore.

Variable World : Type.
Variable send : request -> World -> result response * World.
Variable regex : Type.
Variable re_compile : string -> result regex.
Variable re_search : regex -> string -> bool.
Variable render : string -> result unit.

(** The name stage never touches the state or the network, and what it
    passes on is part of what it got. *)
Lemma name_stage_effects name playlists (st : state World) r st' ev :
  name_stage re_compile re_search render name playlists st = (r, st', ev) ->
  st' = st
  /\ requests_in ev = 0%nat
  /\ (forall f, r = Ok f -> f = Return [] \/ exists l, f = Next l /\ subseq l playlists).
Proof.
  unfold name_stage.
  destruct (given name) as [pattern |].
  - unfold try_except, bind, lift_result, console_print, emit, ret.
    destruct (re_compile pattern) as [name_re | e].
    + destruct (filter_r (name_matches re_search name_re) playlists) as [l | e] eqn:Hf.
      * intros H; inversion H; subst. repeat split; auto.
        intros f Hfl; inversion Hfl; subst. right. eexists; split; [reflexivity |].
        apply (filter_r_subseq _ _ _ Hf).
      * destruct (is_ReError e);
          [unfold console_print_markup;
           destruct (render (invalid_regex_line e)) as [[] | e'] |];
          intros H; inversion H; subst; repeat split; auto;
          intros f Hfl; inversion Hfl; subst; auto.
    + destruct (is_ReError e);
        [unfold console_print_markup;
         destruct (render (invalid_regex_line e)) as [[] | e'] |];
        intros H; inversion H; subst; repeat split; auto;
        intros f Hfl; inversion Hfl; subst; auto.
  - unfold ret. intros H; inversion H; subst. repeat split; auto.
    intros f Hfl; inversion Hfl; subst. right. eexists; split; [reflexivity |].
    apply subseq_refl.
Qed.

Lemma owner_stage_subseq owner l (st : state World) f st' ev :
  owner_stage send owner l st = (Ok f, st', ev) ->
  f = Return [] \/ exists l', f = Next l' /\ subseq l' l.
Proof.
  unfold owner_stage.
  destruct (given owner) as [o |].
  - unfold bind at 1.
    destruct (get_current_user send st) as [[[u | e] st1] ev1]; [| discriminate].
    destruct (truthy u); simpl negb; cbv iota.
    + unfold bind, lift_result.
      destruct (py_getitem u "id") as [uid | e]; [| discriminate].
      match goal with
      | |- context [match ?c with Ok _ => _ | Raise _ => _ end] =>
          destruct c as [l' | e] eqn:Hf
      end; [| discriminate].
      unfold ret. intros H; inversion H; subst. right. eexists; split; [reflexivity |].
      destruct (lower o =? "me"); [| destruct (lower o =? "not-me")];
        apply (filter_r_subseq _ _ _ Hf).
    + unfold ret. intros H; inversion H; subst. left. reflexivity.
  - unfold ret. intros H; inversion H; subst. right. eexists; split; [reflexivity |].
    apply subseq_refl.
Qed.

(** X11.  Whatever the list holds and whatever the criteria are, a list
    the filter returns is the input with entries left out: nothing is
    added, repeated or moved. *)
Theorem apply_filters_returns_part_of_input playlists name owner
    is_collaborative empty no_description (st : state World) l :
  outcome (_apply_filters_to_playlists send re_compile re_search render
             playlists name owner is_collaborative empty no_description st) = Ok l ->
  subseq l playlists.
Proof.
  unfold _apply_filters_to_playlists, outcome, bind at 1.
  destruct (name_stage re_compile re_search render name playlists st) as [[[f1 | e] st1] ev1] eqn:Hn;
    [| discriminate].
  destruct (name_stage_effects _ _ _ _ _ _ Hn) as (_ & _ & Hf1).
  destruct (Hf1 f1 eq_refl) as [-> | (l0 & -> & S0)].
  - simpl. intros H; inversion H. apply subseq_nil_l.
  - unfold bind.
    destruct (owner_stage send owner l0 st1) as [[[f2 | e] st2] ev2] eqn:Ho;
      [| discriminate].
    destruct (owner_stage_subseq _ _ _ _ _ _ Ho) as [-> | (l1 & -> & S1)].
    + simpl. intros H; inversion H. apply subseq_nil_l.
    + unfold lift_result.
      destruct (flag_stages is_collaborative empty no_description l1) as [l2 | e] eqn:Hfl;
        simpl; intros H; inversion H; subst.
      apply flag_stages_subseq in Hfl. eauto using subseq_trans.
Qed.

(** X12.  Without an owner criterion the filter never touches the client:
    the state, cache included, is as before and no request is sent,
    whether it returns or raises. *)
Theorem apply_filters_without_owner_is_offline playlists name owner
    is_collaborative empty no_description (st : state World) r st' ev :
  given owner = None ->
  _apply_filters_to_playlists send re_compile re_search render
    playlists name owner is_collaborative empty no_description st = (r, st', ev) ->
  st' = st /\ requests_in ev = 0%nat.
Proof.
  intros Ho. unfold _apply_filters_to_playlists, bind at 1.
  destruct (name_stage re_compile re_search render name playlists st) as [[[f1 | e] st1] ev1] eqn:Hn;
    destruct (name_stage_effects _ _ _ _ _ _ Hn) as (-> & Hev & _).
  - destruct f1 as [r0 | l0].
    + unfold ret. intros H; inversion H; subst. rewrite app_nil_r. auto.
    + unfold owner_stage. rewrite Ho. unfold bind, ret, lift_result.
      intros H; inversion H; subst. rewrite !app_nil_r. auto.
  - intros H; inversion H; subst. auto.
Qed.

(** X13.  The owner keywords are read without regard to case: 'ME',
    'Me' or 'Not-Me' run the filter exactly as 'me' and 'not-me' do. *)
Theorem owner_keyword_ignores_case playlists name o
    is_collaborative empty no_description (st : state World) :
  lower o = "me" \/ lower o = "not-me" ->
  _apply_filters_to_playlists send re_compile re_search render
    playlists name (Some o) is_collaborative empty no_description st
  = _apply_filters_to_playlists send re_compile re_search render
      playlists name (Some (lower o)) is_collaborative empty no_description st.
Proof.
  intros Hkw.
  assert (Hstage : forall l (s : state World),
            owner_stage send (Some o) l s = owner_stage send (Some (lower o)) l s).
  { intros l s. unfold owner_stage.
    assert (Hne : given (Some o) = Some o).
    { destruct o; [destruct Hkw; discriminate | reflexivity]. }
    rewrite Hne.
    destruct Hkw as [H | H]; rewrite H; reflexivity. }
  unfold _apply_filters_to_playlists, bind at 1 3.
  destruct (name_stage re_compile re_search render name playlists st) as [[[f1 | e] st1] ev1];
    [| reflexivity].
  destruct f1 as [r0 | l0]; [reflexivity |].
  unfold bind. rewrite Hstage. reflexivity.
Qed.

(** On records, with the pattern compiled and the caller known, the whole
    filter is one [filter] by the conjunction of the criteria. *)
Lemma apply_filters_on_records playlists name owner is_collaborative empty no_description
    (st st1 : state World) name_re known ev :
  Forall (fun p => playlist_record p = true) playlists ->
  name_ready re_compile name name_re ->
  owner_ready send owner st known st1 ev ->
  _apply_filters_to_playlists send re_compile re_search render
    playlists name owner is_collaborative empty no_description st
  = (Ok (filter (keeps re_search name_re known is_collaborative empty no_description)
           playlists), st1, ev).
Proof.
  intros Hl Hname Howner.
  pose proof (name_stage_cases World regex re_compile re_search render name playlists st Hl) as Hn.
  unfold name_ready in Hname. unfold owner_ready in Howner.
  set (nf := fun p => match name_re with
                      | Some r => re_search r (name_of p)
                      | None => true
                      end).
  set (l0 := filter nf playlists).
  assert (Hn' : name_stage re_compile re_search render name playlists st = (Ok (Next l0), st, [])).
  { unfold l0, nf. destruct (given name) as [pattern |].
    - destruct Hname as (r & Hc & ->). rewrite Hc in Hn. exact Hn.
    - subst name_re. rewrite filter_all. exact Hn. }
  assert (Hl0 : Forall (fun p => playlist_record p = true) l0)
    by (apply Forall_filter_keeps, Hl).
  set (okf := fun p => match known with
                       | Some (o, uid) => owner_condition o uid p
                       | None => true
                       end).
  assert (Ho' : owner_stage send owner l0 st = (Ok (Next (filter okf l0)), st1, ev)).
  { unfold okf. destruct (given owner) as [o |] eqn:Hg.
    - destruct Howner as (u & uid & Hu & Ht & Hid & ->).
      apply (owner_stage_known World send owner o l0 st u st1 ev uid Hg Hu Ht Hid Hl0).
    - destruct Howner as (-> & -> & ->).
      unfold owner_stage. rewrite Hg, filter_all. reflexivity. }
  unfold _apply_filters_to_playlists, bind. rewrite Hn', Ho'.
  unfold lift_result.
  rewrite flag_stages_total by (apply Forall_filter_keeps, Hl0).
  rewrite app_nil_r. simpl.
  unfold keeps. rewrite !filter_andb. reflexivity.
Qed.

(** X14.  On a list of records, with a pattern that compiles and a caller
    the lookup finds, the filter returns exactly the records that meet
    every criterion that is set: the criteria combine by AND, so the order
    in which the code applies them does not show in the result. *)
Theorem apply_filters_is_conjunction playlists name owner is_collaborative empty
    no_description (st st1 : state World) name_re known ev :
  Forall (fun p => playlist_record p = true) playlists ->
  name_ready re_compile name name_re ->
  owner_ready send owner st known st1 ev ->
  outcome (_apply_filters_to_playlists send re_compile re_search render
             playlists name owner is_collaborative empty no_description st)
  = Ok (filter (keeps re_search name_re known is_collaborative empty no_description)
          playlists)
  /\ forall p,
       In p (filter (keeps re_search name_re known is_collaborative empty no_description)
               playlists)
       <-> In p playlists
           /\ match name_re with Some r => re_search r (name_of p) = true | None => True end
           /\ match known with
              | Some (o, uid) => owner_condition o uid p = true
              | None => True
              end
           /\ passes_flags is_collaborative empty no_description p = true.
Proof.
  intros Hl Hname Howner.
  rewrite (apply_filters_on_records playlists name owner is_collaborative empty
             no_description st st1 name_re known ev Hl Hname Howner).
  split; [reflexivity |].
  intros p. rewrite filter_In. unfold keeps.
  rewrite !andb_true_iff.
  destruct name_re, known as [[o uid] |]; intuition.
Qed.

(** After a lookup that found the caller, the next lookup answers from the
    cache. *)
Lemma get_current_user_again (st : state World) u st1 ev :
  get_current_user send st = (Ok u, st1, ev) ->
  truthy u = true ->
  get_current_user send st1 = (Ok u, st1, []).
Proof.
  intros Hrun Ht.
  assert (Hu : u <> JNull) by (intros ->; discriminate).
  assert (Hcache : _user_data (self_ st1) = u).
  { destruct (is_None (_user_data (self_ st))) eqn:Hc.
    - assert (Hnull : _user_data (self_ st) = JNull)
        by (destruct (_user_data (self_ st)); simpl in Hc; congruence).
      destruct (_request send (self_ st) GET "me" None None 3 (world st))
        as [[[v | e] w'] ev0] eqn:Hreq.
      + rewrite (get_current_user_fetches World send st v w' ev0 Hnull Hreq) in Hrun.
        inversion Hrun; subst. reflexivity.
      + rewrite (get_current_user_fetch_raises World send st e w' ev0 Hnull Hreq) in Hrun.
        discriminate.
    - rewrite (get_current_user_cached World send st Hc) in Hrun.
      inversion Hrun; subst. reflexivity. }
  rewrite get_current_user_cached; rewrite Hcache.
  - reflexivity.
  - apply is_None_false, Hu.
Qed.

(** X15.  Filtering is idempotent on records: running the filter again,
    with the same criteria, on the list it returned gives that list back,
    and this second run sends and prints nothing (the caller is cached). *)
Theorem apply_filters_idempotent playlists name owner is_collaborative empty
    no_description (st st1 : state World) name_re known ev :
  Forall (fun p => playlist_record p = true) playlists ->
  name_ready re_compile name name_re ->
  owner_ready send owner st known st1 ev ->
  exists kept,
    _apply_filters_to_playlists send re_compile re_search render
      playlists name owner is_collaborative empty no_description st = (Ok kept, st1, ev)
    /\ _apply_filters_to_playlists send re_compile re_search render
         kept name owner is_collaborative empty no_description st1 = (Ok kept, st1, []).
Proof.
  intros Hl Hname Howner.
  eexists. split.
  - apply (apply_filters_on_records playlists name owner is_collaborative empty
             no_description st st1 name_re known ev Hl Hname Howner).
  - assert (Howner' : owner_ready send owner st1 known st1 []).
    { unfold owner_ready in *. destruct (given owner) as [o |].
      - destruct Howner as (u & uid & Hu & Ht & Hid & Hk).
        exists u, uid. repeat split; try assumption.
        apply (get_current_user_again st u st1 ev Hu Ht).
      - destruct Howner as (Hk & _ & _). repeat split. exact Hk. }
    rewrite (apply_filters_on_records _ name owner is_collaborative empty
               no_description st1 st1 name_re known []
               (Forall_filter_keeps _ _ _ Hl) Hname Howner').
    rewrite filter_idem. reflexivity.
Qed.

(** X16.  With an owner criterion and no name criterion, a user object
    that cannot be indexed by 'id' (the key is missing, or the value is
    not an object) makes the filter raise the error of that indexing,
    [KeyError] or [TypeError], after the lookup. *)
Theorem apply_filters_user_without_id_raises playlists name owner o
    is_collaborative empty no_description (st : state World) u st1 ev e :
  given name = None ->
  given owner = Some o ->
  get_current_user send st = (Ok u, st1, ev) ->
  truthy u = true ->
  py_getitem u "id" = Raise e ->
  _apply_filters_to_playlists send re_compile re_search render
    playlists name owner is_collaborative empty no_description st = (Raise e, st1, ev)
  /\ (e = KeyError "id" \/ e = TypeError).
Proof.
  intros Hn Ho Hu Ht Hid.
  split.
  - unfold _apply_filters_to_playlists, name_stage, owner_stage.
    rewrite Hn, Ho. unfold bind, ret. rewrite Hu, Ht. simpl negb. cbv iota.
    unfold lift_result. rewrite Hid. simpl. rewrite app_nil_r. reflexivity.
  - unfold py_getitem in Hid. destruct u; try (inversion Hid; auto; fail).
    destruct (dict_get "id" d); inversion Hid; auto.
Qed.

End FilterMore.

(** A comprehension over a list with an entry that is not an object raises
    [AttributeError], when its condition reads every entry with [get]. *)
Lemma filter_r_non_object (keep : json -> result bool) l :
  (forall p, is_object p = false -> keep p = Raise AttributeError) ->
  (forall p e, keep p = Raise e -> e = AttributeError) ->
  Exists (fun p => is_object p = false) l ->
  filter_r keep l = Raise AttributeError.
Proof.
  intros Hnon Honly. induction 1 as [p l Hp | p l _ IH]; simpl.
  - rewrite (Hnon p Hp). reflexivity.
  - destruct (keep p) as [b | e] eqn:Hk; simpl.
    + rewrite IH. reflexivity.
    + rewrite (Honly p e Hk). reflexivity.
Qed.

Lemma py_get_raises v k default e : py_get v k default = Raise e -> e = AttributeError.
Proof. destruct v; simpl; intros H; inversion H; reflexivity. Qed.

Lemma py_get_non_object v k default :
  is_object v = false -> py_get v k default = Raise AttributeError.
Proof. destruct v; simpl; intros H; try reflexivity; discriminate. Qed.

Section NonObjects.

Variable World : Type.
Variable send : request -> World -> result response * World.
Variable regex : Type.
Variable re_compile : string -> result regex.
Variable re_search : regex -> string -> bool.
Variable render : string -> result unit.

(** X17.  An entry of the list that is not an object (a [null] item of a
    page, say) makes the filter raise [AttributeError] as soon as one of
    the flag criteria is set, with no name and no owner criterion: the
    list is not narrowed, the call fails. *)
Theorem apply_filters_non_object_entry_raises playlists name owner
    is_collaborative empty no_description (st : state World) :
  given name = None ->
  given owner = None ->
  is_collaborative <> None \/ empty = true \/ no_description = true ->
  Exists (fun p => is_object p = false) playlists ->
  _apply_filters_to_playlists send re_compile re_search render
    playlists name owner is_collaborative empty no_description st
  = (Raise AttributeError, st, []).
Proof.
  intros Hn Ho Hset Hex.
  assert (Hc : forall flag l, Exists (fun p => is_object p = false) l ->
                filter_r (collaborative_is flag) l = Raise AttributeError).
  { intros flag l. apply filter_r_non_object.
    - intros p Hp. unfold collaborative_is. rewrite py_get_non_object by exact Hp.
      reflexivity.
    - intros p e. unfold collaborative_is, rbind.
      destruct (py_get p "collaborative" JNull) eqn:Hg; intros H; inversion H; subst.
      apply (py_get_raises _ _ _ _ Hg). }
  assert (He : forall l, Exists (fun p => is_object p = false) l ->
                filter_r has_no_tracks l = Raise AttributeError).
  { intros l. apply filter_r_non_object.
    - intros p Hp. unfold has_no_tracks. rewrite py_get_non_object by exact Hp.
      reflexivity.
    - intros p e. unfold has_no_tracks, rbind.
      destruct (py_get p "tracks" (JDict [])) as [t |] eqn:Hg.
      + destruct (py_get t "total" (JInt (-1))) eqn:Hg2; intros H; inversion H; subst.
        apply (py_get_raises _ _ _ _ Hg2).
      + intros H; inversion H; subst. apply (py_get_raises _ _ _ _ Hg). }
  assert (Hd : forall l, Exists (fun p => is_object p = false) l ->
                filter_r has_no_description l = Raise AttributeError).
  { intros l. apply filter_r_non_object.
    - intros p Hp. unfold has_no_description. rewrite py_get_non_object by exact Hp.
      reflexivity.
    - intros p e. unfold has_no_description, rbind.
      destruct (py_get p "description" JNull) eqn:Hg; intros H; inversion H; subst.
      apply (py_get_raises _ _ _ _ Hg). }
  unfold _apply_filters_to_playlists, name_stage, owner_stage.
  rewrite Hn, Ho. unfold bind, ret, lift_result.
  assert (Hflags : flag_stages is_collaborative empty no_description playlists
                   = Raise AttributeError).
  { unfold flag_stages.
    destruct is_collaborative as [flag |].
    - rewrite (Hc flag playlists Hex). reflexivity.
    - simpl. destruct empty.
      + rewrite (He playlists Hex). reflexivity.
      + simpl. destruct no_description.
        * apply Hd, Hex.
        * destruct Hset as [H | [H | H]]; [contradiction | discriminate | discriminate]. }
  rewrite Hflags. reflexivity.
Qed.

End NonObjects.

Lemma apply_filters_returns_part_of_input_witness : subseq [p1; p3] [p1; p2; p3].
Proof.
  refine (apply_filters_returns_part_of_input script script_send string
            literal_compile literal_search tag_render
            [p1; p2; p3] None (Some "me") None false false st_alice [p1; p3] _).
  vm_compute. reflexivity.
Defined.

Lemma apply_filters_without_owner_is_offline_witness :
  st_alice = st_alice /\ requests_in [] = 0%nat.
Proof.
  refine (apply_filters_without_owner_is_offline script script_send string
            literal_compile literal_search tag_render
            [p1; p2; p3] (Some "focus") None None true false st_alice
            (Ok [p2]) st_alice [] eq_refl _).
  vm_compute. reflexivity.
Defined.

Lemma owner_keyword_ignores_case_witness :
  _apply_filters_to_playlists script_send literal_compile literal_search tag_render
    [p1; p2; p3] None (Some "Not-Me") None false false st_alice
  = _apply_filters_to_playlists script_send literal_compile literal_search tag_render
      [p1; p2; p3] None (Some (lower "Not-Me")) None false false st_alice.
Proof.
  refine (owner_keyword_ignores_case script script_send string
            literal_compile literal_search tag_render
            [p1; p2; p3] None "Not-Me" None false false st_alice _).
  right. reflexivity.
Defined.

Lemma apply_filters_is_conjunction_witness :
  outcome (_apply_filters_to_playlists script_send literal_compile literal_search tag_render
             [p1; p2; p3] (Some "o") (Some "me") (Some false) false true st_alice)
  = Ok (filter (keeps literal_search (Some "o") (Some ("me", JStr "alice"))
                  (Some false) false true)
          [p1; p2; p3]).
Proof.
  refine (proj1 (apply_filters_is_conjunction script script_send string
                   literal_compile literal_search tag_render
                   [p1; p2; p3] (Some "o") (Some "me") (Some false) false true
                   st_alice st_alice_cached (Some "o") (Some ("me", JStr "alice"))
                   ev_lookup _ _ _)).
  - repeat constructor.
  - exists "o". split; reflexivity.
  - exists user_alice, (JStr "alice"). repeat split; reflexivity.
Defined.

Lemma apply_filters_idempotent_witness :
  exists kept,
    _apply_filters_to_playlists script_send literal_compile literal_search tag_render
      [p1; p2; p3] (Some "o") (Some "me") (Some false) false true st_alice
    = (Ok kept, st_alice_cached, ev_lookup)
    /\ _apply_filters_to_playlists script_send literal_compile literal_search tag_render
         kept (Some "o") (Some "me") (Some false) false true st_alice_cached
       = (Ok kept, st_alice_cached, []).
Proof.
  refine (apply_filters_idempotent script script_send string
            literal_compile literal_search tag_render
            [p1; p2; p3] (Some "o") (Some "me") (Some false) false true
            st_alice st_alice_cached (Some "o") (Some ("me", JStr "alice"))
            ev_lookup _ _ _).
  - repeat constructor.
  - exists "o". split; reflexivity.
  - exists user_alice, (JStr "alice"). repeat split; reflexivity.
Defined.

Lemma apply_filters_user_without_id_raises_witness :
  _apply_filters_to_playlists script_send literal_compile literal_search tag_render
    [p1; p2; p3] None (Some "me") None false false
    (mk_state [(url_me, ok_json (JDict [("display_name", JStr "Alice")]))] client0)
  = (Raise (KeyError "id"),
     mk_state [] {| _access_token := "token";
                    _headers := [("Authorization", "Bearer token")];
                    _user_data := JDict [("display_name", JStr "Alice")] |},
     ev_lookup)
  /\ (KeyError "id" = KeyError "id" \/ KeyError "id" = TypeError).
Proof.
  exact (apply_filters_user_without_id_raises script script_send string
           literal_compile literal_search tag_render
           [p1; p2; p3] None (Some "me") "me" None false false
           (mk_state [(url_me, ok_json (JDict [("display_name", JStr "Alice")]))] client0)
           (JDict [("display_name", JStr "Alice")])
           (mk_state [] {| _access_token := "token";
                           _headers := [("Authorization", "Bearer token")];
                           _user_data := JDict [("display_name", JStr "Alice")] |})
           ev_lookup (KeyError "id")
           eq_refl eq_refl eq_refl eq_refl eq_refl).
Defined.

Lemma apply_filters_non_object_entry_raises_witness :
  _apply_filters_to_playlists script_send literal_compile literal_search tag_render
    [p1; JNull; p3] None None None true false st_alice
  = (Raise AttributeError, st_alice, []).
Proof.
  refine (apply_filters_non_object_entry_raises script script_send string
            literal_compile literal_search tag_render
            [p1; JNull; p3] None None None true false st_alice eq_refl eq_refl _ _).
  - right. left. reflexivity.
  - apply Exists_cons_tl. apply Exists_cons_hd. reflexivity.
Defined.

(* ================================================================== *)
(** ** What the reading operations send *)
(* ================================================================== *)

Lemma requests_all_app P ev1 ev2 :
  requests_all P ev1 -> requests_all P ev2 -> requests_all P (ev1 ++ ev2).
Proof. unfold requests_all. intros H1 H2. apply Forall_app. split; assumption. Qed.

Lemma requests_all_nil P : requests_all P [].
Proof. constructor. Qed.

Lemma requests_all_print P m ev : requests_all P ev -> requests_all P (EvPrint m :: ev).
Proof. intros H. constructor; [exact I | exact H]. Qed.

Lemma requests_all_sleep P n ev : requests_all P ev -> requests_all P (EvSleep n :: ev).
Proof. intros H. constructor; [exact I | exact H]. Qed.

Ltac solve_requests :=
  unfold requests_all in *; simpl;
  repeat first [apply Forall_nil | apply Forall_cons | apply Forall_app; split];
  try exact I; try assumption; try reflexivity.

Section ReadOnly.

Variable World : Type.
Variable send : request -> World -> result response * World.
Variable self : SpotifyClient.

(** Every request a call of [_request] sends carries the method of the
    call. *)
Lemma _request_method method endpoint params json_body retries w r w' ev :
  _request send self method endpoint params json_body retries w = (r, w', ev) ->
  requests_all (fun rq => rq_method rq = method) ev.
Proof.
  revert w r w' ev.
  induction retries as [| retries IH]; intros w r w' ev;
    rewrite _request_eq; unfold try_except, bind at 1, requests_request;
    destruct (send (request_for self method endpoint params json_body) w)
      as [[resp | e0] w1].
  - destruct (finish_response resp w1) as [[r1 w2] ev2] eqn:Hfin.
    apply finish_response_silent in Hfin. destruct Hfin as [-> ->].
    destruct r1 as [v | e]; [| destruct (is_RequestException e)];
      intros H; inversion H; subst; solve_requests.
  - destruct (is_RequestException e0); intros H; inversion H; subst; solve_requests.
  - destruct (status_code resp =? 429)%Z.
    + unfold bind.
      destruct (retry_after_of resp w1) as [[[n | e1] w2] ev2] eqn:Hra;
        apply retry_after_of_silent in Hra; destruct Hra as [-> ->].
      * unfold console_print, emit.
        destruct (time_sleep n w1) as [[[[] | e3] w4] ev4] eqn:Hsl.
        -- assert (Hev4 : requests_all (fun rq => rq_method rq = method) ev4).
           { unfold time_sleep, raise, emit in Hsl.
             destruct ((n <? sleep_min)%Z || (sleep_max <? n)%Z); [| destruct (n <? 0)%Z];
               inversion Hsl; subst; solve_requests. }
           destruct (_request send self method endpoint params json_body retries w4)
             as [[r5 w5] ev5] eqn:Hrec.
           apply IH in Hrec.
           destruct r5 as [v | e]; [| destruct (is_RequestException e)];
             intros H; inversion H; subst; solve_requests.
        -- assert (Hev4 : requests_all (fun rq => rq_method rq = method) ev4).
           { unfold time_sleep, raise, emit in Hsl.
             destruct ((n <? sleep_min)%Z || (sleep_max <? n)%Z); [| destruct (n <? 0)%Z];
               inversion Hsl; subst; solve_requests. }
           destruct (is_RequestException e3);
             intros H; inversion H; subst; solve_requests.
      * destruct (is_RequestException e1); intros H; inversion H; subst; solve_requests.
    + destruct (finish_response resp w1) as [[r1 w2] ev2] eqn:Hfin.
      apply finish_response_silent in Hfin. destruct Hfin as [-> ->].
      destruct r1 as [v | e]; [| destruct (is_RequestException e)];
        intros H; inversion H; subst; solve_requests.
  - destruct (is_RequestException e0); intros H; inversion H; subst; solve_requests.
Qed.

Lemma _request_only_gets endpoint params json_body retries w r w' ev :
  _request send self GET endpoint params json_body retries w = (r, w', ev) ->
  requests_all is_get ev.
Proof. apply _request_method. Qed.

Lemma playlists_turn_only_gets url params acc w r w' ev :
  playlists_turn send self url params acc w = (r, w', ev) ->
  requests_all is_get ev.
Proof.
  unfold playlists_turn, try_except, bind at 1.
  destruct (_request_value send self GET url params w) as [[[data | e] w1] ev1] eqn:Hreq.
  - assert (H1 : requests_all is_get ev1).
    { unfold _request_value in Hreq. destruct url;
        try (unfold raise in Hreq; inversion Hreq; fail).
      apply (_request_only_gets _ _ _ _ _ _ _ _ Hreq). }
    destruct (truthy data); simpl negb; cbv iota.
    + unfold bind, lift_result, console_print, emit, ret.
      destruct (py_getitem data "items") as [items | e];
        [destruct (py_iter items) as [new | e];
         [destruct (py_get data "next" JNull) as [next | e] | ] | ];
        intros H; cbn in H;
        repeat match type of H with context [if ?c then _ else _] => destruct c end;
        inversion H; subst; solve_requests.
    + unfold ret. intros H; cbn in H; inversion H; subst. solve_requests.
  - assert (H1 : requests_all is_get ev1).
    { unfold _request_value in Hreq. destruct url;
        try (unfold raise in Hreq; inversion Hreq; subst; constructor; fail).
      apply (_request_only_gets _ _ _ _ _ _ _ _ Hreq). }
    unfold console_print, emit, ret, bind.
    destruct (is_HTTPError e); intros H; cbn in H; inversion H; subst; solve_requests.
Qed.

Lemma playlists_loop_only_gets fuel url params acc w r w' ev :
  playlists_loop send self fuel url params acc w = Some (r, w', ev) ->
  requests_all is_get ev.
Proof.
  revert url params acc w r w' ev.
  induction fuel as [| fuel IH]; intros url params acc w r w' ev; cbn [playlists_loop];
    destruct (truthy url); try discriminate;
    try (intros H; inversion H; subst; constructor; fail).
  destruct (playlists_turn send self url params acc w) as [[[t | e] w1] ev1] eqn:Hturn;
    apply playlists_turn_only_gets in Hturn.
  - destruct t as [done | acc' next].
    + intros H; inversion H; subst. exact Hturn.
    + destruct (playlists_loop send self fuel next None acc' w1) as [[[r2 w2] ev2] |] eqn:Hrec;
        [| discriminate].
      apply IH in Hrec. intros H; cbn in H; inversion H; subst. solve_requests.
  - intros H; inversion H; subst. exact Hturn.
Qed.

Lemma get_all_playlists_only_gets fuel w r w' ev :
  get_all_playlists send self fuel w = Some (r, w', ev) ->
  requests_all is_get ev.
Proof.
  unfold get_all_playlists.
  destruct (playlists_loop send self fuel (JStr "me/playlists")
              (Some [("limit", 50%Z)]) [] w) as [[[r1 w1] ev1] |] eqn:Hloop;
    [| discriminate].
  apply playlists_loop_only_gets in Hloop.
  intros H; cbn in H; inversion H; subst. solve_requests.
Qed.

End ReadOnly.

(** A run that sent nothing sent nothing but GETs. *)
Lemma no_requests_all (P : request -> Prop) ev : requests_in ev = 0%nat -> requests_all P ev.
Proof.
  unfold requests_in, requests_all.
  induction ev as [| e ev IH]; [constructor |].
  cbn [filter]. destruct e as [rq | n | m]; cbn [is_request List.length]; intros H;
    try discriminate; constructor; auto.
Qed.

Section ReadOnlyState.

Variable World : Type.
Variable send : request -> World -> result response * World.
Variable regex : Type.
Variable re_compile : string -> result regex.
Variable re_search : regex -> string -> bool.
Variable render : string -> result unit.

Lemma get_current_user_only_gets (st : state World) r st' ev :
  get_current_user send st = (r, st', ev) ->
  requests_all is_get ev.
Proof.
  intros Hrun.
  destruct (is_None (_user_data (self_ st))) eqn:Hc.
  - assert (Hnull : _user_data (self_ st) = JNull)
      by (destruct (_user_data (self_ st)); simpl in Hc; congruence).
    destruct (_request send (self_ st) GET "me" None None 3 (world st))
      as [[[v | e] w'] ev0] eqn:Hreq;
      pose proof (_request_only_gets World send _ _ _ _ _ _ _ _ _ Hreq) as Hg.
    + rewrite (get_current_user_fetches World send st v w' ev0 Hnull Hreq) in Hrun.
      inversion Hrun; subst. solve_requests.
    + rewrite (get_current_user_fetch_raises World send st e w' ev0 Hnull Hreq) in Hrun.
      inversion Hrun; subst. solve_requests.
  - rewrite (get_current_user_cached World send st Hc) in Hrun.
    inversion Hrun; subst. constructor.
Qed.

Lemma owner_stage_only_gets owner l (st : state World) r st' ev :
  owner_stage send owner l st = (r, st', ev) ->
  requests_all is_get ev.
Proof.
  unfold owner_stage.
  destruct (given owner) as [o |].
  - unfold bind at 1.
    destruct (get_current_user send st) as [[[u | e] st1] ev1] eqn:Hu;
      apply get_current_user_only_gets in Hu.
    + destruct (truthy u); simpl negb; cbv iota.
      * unfold bind, lift_result, ret.
        destruct (py_getitem u "id") as [uid | e].
        -- match goal with
           | |- context [match ?c with Ok _ => _ | Raise _ => _ end] => destruct c
           end; intros H; cbn in H; inversion H; subst; solve_requests.
        -- intros H; cbn in H; inversion H; subst; solve_requests.
      * unfold ret. intros H; cbn in H; inversion H; subst. solve_requests.
    + intros H; inversion H; subst. exact Hu.
  - unfold ret. intros H; inversion H; subst. constructor.
Qed.

Lemma apply_filters_only_gets playlists name owner is_collaborative empty no_description
    (st : state World) r st' ev :
  _apply_filters_to_playlists send re_compile re_search render
    playlists name owner is_collaborative empty no_description st = (r, st', ev) ->
  requests_all is_get ev.
Proof.
  unfold _apply_filters_to_playlists, bind at 1.
  destruct (name_stage re_compile re_search render name playlists st) as [[[f1 | e] st1] ev1] eqn:Hn;
    destruct (name_stage_effects World regex re_compile re_search render _ _ _ _ _ _ Hn)
      as (-> & Hev & _).
  - assert (H1 : requests_all is_get ev1) by (apply no_requests_all, Hev).
    destruct f1 as [r0 | l0].
    + unfold ret. intros H; cbn in H; inversion H; subst. solve_requests.
    + unfold bind.
      destruct (owner_stage send owner l0 st) as [[[f2 | e] st2] ev2] eqn:Ho;
        apply owner_stage_only_gets in Ho.
      * destruct f2; unfold ret, lift_result;
          [| destruct (flag_stages is_collaborative empty no_description filtered_playlists)];
          intros H; cbn in H; inversion H; subst; solve_requests.
      * intros H; cbn in H; inversion H; subst; solve_requests.
  - assert (H1 : requests_all is_get ev1) by (apply no_requests_all, Hev).
    intros H; inversion H; subst. exact H1.
Qed.

(** X18.  Listing, looking the user up and filtering only read: every
    request that [get_all_playlists], [get_current_user] and the filter
    send is a GET, whatever the server answers. *)
Theorem reading_sends_only_get (self : SpotifyClient) fuel (w : World) (st : state World)
    playlists name owner is_collaborative empty no_description :
  (forall r w' ev,
      get_all_playlists send self fuel w = Some (r, w', ev) -> requests_all is_get ev)
  /\ (forall r st' ev,
        get_current_user send st = (r, st', ev) -> requests_all is_get ev)
  /\ (forall r st' ev,
        _apply_filters_to_playlists send re_compile re_search render
          playlists name owner is_collaborative empty no_description st = (r, st', ev) ->
        requests_all is_get ev).
Proof.
  split; [| split].
  - intros r w' ev H. exact (get_all_playlists_only_gets World send self fuel w r w' ev H).
  - intros r st' ev H. exact (get_current_user_only_gets st r st' ev H).
  - intros r st' ev H.
    exact (apply_filters_only_gets playlists name owner is_collaborative empty
             no_description st r st' ev H).
Qed.

End ReadOnlyState.

(* ================================================================== *)
(** ** The clean command *)
(* ================================================================== *)

Lemma cli_requests_all_app P ev1 ev2 :
  cli_requests_all P ev1 -> cli_requests_all P ev2 -> cli_requests_all P (ev1 ++ ev2).
Proof. unfold cli_requests_all. intros H1 H2. apply Forall_app. split; assumption. Qed.

Lemma cli_requests_all_map P ev :
  requests_all P ev -> cli_requests_all P (map FromClient ev).
Proof.
  unfold requests_all, cli_requests_all. induction 1 as [| e ev He _ IH]; simpl.
  - constructor.
  - constructor; [destruct e; auto | exact IH].
Qed.

(** How a sequence of two steps can end. *)
Lemma cbind_inv {S A B} (c : C S A) (k : A -> C S B) s r s' ev :
  cbind c k s = (r, s', ev) ->
  (exists a s1 ev1 ev2,
      c s = (Returned a, s1, ev1) /\ k a s1 = (r, s', ev2) /\ ev = ev1 ++ ev2)
  \/ (exists e, c s = (Raised e, s', ev) /\ r = Raised e)
  \/ (c s = (Aborted, s', ev) /\ r = Aborted).
Proof.
  unfold cbind. destruct (c s) as [[[a | e |] s1] ev1].
  - destruct (k a s1) as [[r2 s2] ev2] eqn:Hk. intros H; inversion H; subst.
    left. exists a, s1, ev1, ev2. auto.
  - intros H; inversion H; subst. right. left. eauto.
  - intros H; inversion H; subst. right. right. auto.
Qed.

Ltac solve_cli_requests :=
  unfold cli_requests_all in *; simpl;
  repeat first [apply Forall_nil | apply Forall_cons | apply Forall_app; split];
  try exact I; try assumption; try reflexivity.

Lemma make_choices_raises playlists e :
  make_choices playlists = Raise e -> e = AttributeError.
Proof.
  induction playlists as [| p rest IH]; simpl; [discriminate |].
  unfold rbind at 1.
  destruct (make_choice p) as [c | e0] eqn:Hc.
  - unfold rbind. destruct (make_choices rest) as [cs | e1]; [discriminate |].
    intros H; inversion H; subst. apply IH. reflexivity.
  - intros H; inversion H; subst.
    unfold make_choice, rbind in Hc.
    repeat match type of Hc with
           | context [match py_get ?v ?k ?d with _ => _ end] =>
               let E := fresh "E" in
               destruct (py_get v k d) eqn:E;
               [| inversion Hc; subst; apply (py_get_raises _ _ _ _ E)]
           end.
    discriminate.
Qed.

Lemma make_choices_non_object playlists :
  Exists (fun p => is_object p = false) playlists ->
  make_choices playlists = Raise AttributeError.
Proof.
  induction 1 as [p rest Hp | p rest _ IH]; simpl.
  - unfold make_choice. rewrite (py_get_non_object p _ _ Hp). reflexivity.
  - unfold rbind at 1. destruct (make_choice p) as [c | e] eqn:Hc.
    + rewrite IH. reflexivity.
    + assert (He : make_choices [p] = Raise e) by (simpl; rewrite Hc; reflexivity).
      rewrite (make_choices_raises _ _ He). reflexivity.
Qed.

(** X19.  The picker shows its prompt only for a list it can describe: an
    empty list gives the empty selection at once, and a list with an entry
    that is not an object raises [AttributeError] before any prompt. *)
Theorem picker_prompts_only_described_lists {S} (ask : list choice -> answer)
    (playlists : list json) (s : S) :
  (playlists = [] ->
   select_playlists_interactive ask playlists s = (Returned [], s, []))
  /\ (Exists (fun p => is_object p = false) playlists ->
      select_playlists_interactive ask playlists s = (Raised AttributeError, s, [])).
Proof.
  split.
  - intros ->. reflexivity.
  - intros Hex. pose proof (make_choices_non_object playlists Hex) as Hc.
    destruct playlists as [| p rest]; [inversion Hex |].
    unfold select_playlists_interactive, cbind, from_result. rewrite Hc. reflexivity.
Qed.

Section CleanFacts.

Variable World : Type.
Variable send : request -> World -> result response * World.
Variable regex : Type.
Variable re_compile : string -> result regex.
Variable re_search : regex -> string -> bool.
Variable render : string -> result unit.
Variable ask : list choice -> answer.
Variable confirm : nat -> option bool.
Variable format : json -> string.

Lemma select_playlists_interactive_quiet P playlists (s : state World) r s' ev :
  select_playlists_interactive ask playlists s = (r, s', ev) ->
  cli_requests_all P ev.
Proof.
  unfold select_playlists_interactive.
  destruct playlists as [| p rest].
  - unfold cret. intros H; inversion H; subst. constructor.
  - unfold cbind, from_result, say, cret.
    destruct (make_choices (p :: rest)) as [cs | e].
    + destruct (ask cs); intros H; inversion H; subst; solve_cli_requests.
    + intros H; inversion H; subst. constructor.
Qed.

Lemma playlists_to_unfollow_of_only_gets name owner is_collaborative empty no_description
    all_playlists (s : state World) r s' ev :
  playlists_to_unfollow_of send re_compile re_search render ask
    name owner is_collaborative empty no_description all_playlists s = (r, s', ev) ->
  cli_requests_all is_get ev.
Proof.
  unfold playlists_to_unfollow_of.
  destruct (negb (filters_provided name owner is_collaborative empty no_description)).
  - intros H. apply cbind_inv in H.
    destruct H as [(a & s1 & ev1 & ev2 & Hsay & Hsel & ->) | [(e & Hsay & _) | [Hsay _]]];
      try (unfold say in Hsay; discriminate).
    unfold say in Hsay. inversion Hsay; subst.
    apply cli_requests_all_app; [solve_cli_requests |].
    apply (select_playlists_interactive_quiet _ _ _ _ _ _ Hsel).
  - unfold from_client.
    destruct (_apply_filters_to_playlists send re_compile re_search render all_playlists
                name owner is_collaborative empty no_description s)
      as [[r0 s1] ev0] eqn:Hrun.
    apply apply_filters_only_gets in Hrun.
    intros H; inversion H; subst. apply cli_requests_all_map, Hrun.
Qed.

Lemma list_items_quiet P l (s : state World) r s' ev :
  list_items render format l s = (r, s', ev) -> cli_requests_all P ev.
Proof.
  revert s r s' ev. induction l as [| p rest IH]; intros s r s' ev; simpl.
  - unfold cret. intros H; inversion H; subst. constructor.
  - unfold cbind at 1, from_result.
    destruct (py_getitem p "name") as [name | e];
      [| intros H; inversion H; subst; constructor].
    unfold cbind at 1.
    destruct (py_getitem p "id") as [id | e];
      [| intros H; inversion H; subst; constructor].
    unfold cbind at 1, say_markup.
    destruct (render (item_line format name id)) as [[] | e];
      [| intros H; inversion H; subst; constructor].
    destruct (list_items render format rest s) as [[r1 s1] ev1] eqn:Hrest.
    apply IH in Hrest.
    intros H; inversion H; subst. solve_cli_requests.
Qed.

(** X20.  [clean] sends a DELETE only after it was told to go on: with
    [--dry-run], or when the confirmation is asked and not answered yes,
    every request of the whole run is a GET. *)
Theorem clean_unfollows_only_when_confirmed fuel dry_run yes name owner
    is_collaborative empty no_description (st : state World) r st' ev :
  dry_run = true \/ (yes = false /\ forall count, confirm count <> Some true) ->
  clean send re_compile re_search render ask confirm format
    fuel dry_run yes name owner is_collaborative empty no_description st
  = Some (r, st', ev) ->
  cli_requests_all is_get ev.
Proof.
  intros Hstop. unfold clean.
  destruct (get_all_playlists send (self_ st) fuel (world st)) as [[[r0 w] ev0] |] eqn:Hall;
    [| discriminate].
  apply get_all_playlists_only_gets in Hall.
  apply (cli_requests_all_map is_get) in Hall.
  destruct r0 as [all_playlists | e];
    [| intros H; inversion H; subst; exact Hall].
  destruct (clean_fetched send re_compile re_search render ask confirm format dry_run yes
              name owner is_collaborative empty no_description all_playlists
              (mk_state w (self_ st))) as [[r1 st1] ev1] eqn:Hrest.
  intros H; inversion H; subst. clear H.
  apply cli_requests_all_app; [exact Hall |].
  unfold clean_fetched in Hrest. apply cbind_inv in Hrest.
  destruct Hrest as [(l & s1 & e1 & e2 & Hsel & Hk & ->) | [(e & Hsel & _) | [Hsel _]]];
    try (apply (playlists_to_unfollow_of_only_gets _ _ _ _ _ _ _ _ _ _ Hsel)).
  apply cli_requests_all_app;
    [apply (playlists_to_unfollow_of_only_gets _ _ _ _ _ _ _ _ _ _ Hsel) |].
  destruct l as [| p rest].
  - unfold say in Hk. inversion Hk; subst. solve_cli_requests.
  - apply cbind_inv in Hk.
    destruct Hk as [(u & s2 & e3 & e4 & Hsay & Hk & ->) | [(e & Hsay & _) | [Hsay _]]];
      try (unfold say in Hsay; discriminate).
    unfold say in Hsay. inversion Hsay; subst. clear Hsay.
    apply cli_requests_all_app; [solve_cli_requests |].
    apply cbind_inv in Hk.
    destruct Hk as [(u' & s3 & e5 & e6 & Hitems & Hk & ->) | [(e & Hitems & _) | [Hitems _]]];
      try (apply (list_items_quiet _ _ _ _ _ _ Hitems)).
    apply cli_requests_all_app; [apply (list_items_quiet _ _ _ _ _ _ Hitems) |].
    destruct Hstop as [-> | [-> Hno]].
    + unfold say in Hk. inversion Hk; subst. solve_cli_requests.
    + destruct dry_run.
      * unfold say in Hk. inversion Hk; subst. solve_cli_requests.
      * simpl negb in Hk. cbv iota in Hk. apply cbind_inv in Hk.
        destruct Hk as [(go & s4 & e7 & e8 & Hask & Hk & ->) | [(e & Hask & _) | [Hask _]]];
          unfold ask_confirm in Hask;
          destruct (confirm (List.length (p :: rest))) as [[|] |] eqn:Hc;
          inversion Hask; subst;
          try (exfalso; apply (Hno _ Hc));
          try solve_cli_requests.
        simpl negb in Hk. cbv iota in Hk. unfold say in Hk. inversion Hk; subst.
        solve_cli_requests.
Qed.

(** X21.  [--not-collaborative] alone is not seen as a filter: with no
    other option, [clean] runs exactly as without any filter, picker
    included, and the flag narrows nothing. *)
Theorem clean_not_collaborative_alone_is_no_filter fuel dry_run yes name owner
    (st : state World) :
  given name = None ->
  given owner = None ->
  clean send re_compile re_search render ask confirm format
    fuel dry_run yes name owner (Some false) false false st
  = clean send re_compile re_search render ask confirm format
      fuel dry_run yes name owner None false false st.
Proof.
  intros Hn Ho.
  unfold clean, clean_fetched, playlists_to_unfollow_of, filters_provided.
  rewrite Hn, Ho. reflexivity.
Qed.







End CleanFacts.

Lemma clean_unfollows_only_when_confirmed_witness :
  exists r st' ev,
    clean script_send literal_compile literal_search tag_render pick_first say_no no_format
      3 false false None None None false false
      (mk_state [(url_playlists, ok_json (page [p1; p2; p3] JNull))] client0)
    = Some (r, st', ev)
    /\ cli_requests_all is_get ev.
Proof.
  do 3 eexists. split.
  - vm_compute. reflexivity.
  - eapply (clean_unfollows_only_when_confirmed script script_send string
              literal_compile literal_search tag_render pick_first say_no no_format
              3 false false None None None false false
              (mk_state [(url_playlists, ok_json (page [p1; p2; p3] JNull))] client0)).
    + right. split; [reflexivity | intros count; discriminate].
    + vm_compute. reflexivity.
Defined.

Lemma clean_not_collaborative_alone_is_no_filter_witness :
  clean script_send literal_compile literal_search tag_render pick_first say_no no_format
    3 true false None (Some "") (Some false) false false
    (mk_state [(url_playlists, ok_json (page [p1; p2; p3] JNull))] client0)
  = clean script_send literal_compile literal_search tag_render pick_first say_no no_format
      3 true false None (Some "") None false false
      (mk_state [(url_playlists, ok_json (page [p1; p2; p3] JNull))] client0).
Proof.
  exact (clean_not_collaborative_alone_is_no_filter script script_send string
           literal_compile literal_search tag_render pick_first say_no no_format
           3 true false None (Some "")
           (mk_state [(url_playlists, ok_json (page [p1; p2; p3] JNull))] client0)
           eq_refl eq_refl).
Defined.


(* ================================================================== *)
(** ** The token flow *)
(* ================================================================== *)

Module AuthFlowFacts.
Import AuthFlow.

Section FlowFacts.

Variable World : Type.
Variable keyring_get_password : World -> outcome_of (option string) * World.
Variable keyring_set_password : json -> World -> outcome_of unit * World.
Variable keyring_delete_password : World -> outcome_of unit * World.
Variable requests_post : token_request -> World -> outcome_of json * World.
Variable webbrowser_open : string -> World -> outcome_of unit * World.
Variable serve_forever : World -> outcome_of (callback * list callback) * World.
Variable CLIENT_ID : option string.
Variable CLIENT_SECRET : option string.
Variable render : string -> result unit.
Variable errors_has_PasswordNotFoundError : bool.
Variable exception_text : auth_exn -> string.

(** Whatever becomes of its writes and of its log line, a handler leaves
    the code of its request in [authorization_code] when the response head
    went out and the request carries one, leaves the value as it was
    otherwise, and never touches the keyring. *)
Lemma do_GET_state (rq : callback) (s : auth_state World) :
  exists r ev,
    do_GET World render rq s
    = (r,
       mk_auth_state (outside s)
         (if head_sent rq then
            match callback_get "code" (cb_params rq) with
            | Some (code, _) => Some code
            | None => authorization_code s
            end
          else authorization_code s),
       ev)
    /\ filter is_keyring_set ev = [].
Proof.
  destruct s as [w c]. destruct rq as [params writes].
  unfold do_GET, abind, wfile_write, set_authorization_code, console_log, start_shutdown,
    head_sent.
  cbn [outside authorization_code cb_params cb_writes].
  destruct (callback_get "code" params) as [[code more] |];
    destruct (render (callback_failed_line (callback_error params))) as [[] | e'];
    destruct writes as [[| [| [| [| [| n]]]]] |]; cbn;
    do 2 eexists; split; reflexivity.
Qed.

(** The listener ends with the code of the last callback that left one,
    it does not fail, and it never touches the keyring. *)
Lemma handle_all_run (requests : list callback) (s : auth_state World) :
  exists ev,
    handle_all World render requests s
    = (Fine tt,
       mk_auth_state (outside s)
         (match last_code requests with
          | Some code => Some code
          | None => authorization_code s
          end),
       ev)
    /\ filter is_keyring_set ev = [].
Proof.
  revert s. induction requests as [| rq rest IH]; intros s; cbn [handle_all last_code].
  - exists []. destruct s. split; reflexivity.
  - destruct (do_GET_state rq s) as (r & ev1 & Hrun & Hq1). rewrite Hrun.
    match goal with
    | |- context [handle_all World render rest ?s1] =>
        destruct (IH s1) as (ev2 & Hrest & Hq2); rewrite Hrest
    end.
    cbn [outside authorization_code].
    eexists. split.
    + destruct (last_code rest); [reflexivity |].
      destruct (head_sent rq); [| reflexivity].
      destruct (callback_get "code" (cb_params rq)) as [[code more] |]; reflexivity.
    + rewrite !filter_app, Hq1, Hq2. destruct r; reflexivity.
Qed.

(** X23.  The listener keeps the code of the last callback that carries
    one and whose response head went out; a callback without a code (an
    error redirect) leaves a code captured earlier in place.  A handler
    can fail and the code still be kept: when the connection breaks while
    the success page is written, the handler raises [OSError] with the
    code already stored; and on an error redirect whose log line rich
    refuses, the handler raises that exception once the failure page is
    out. *)
Theorem handle_all_keeps_last_code (requests : list callback) (s : auth_state World) :
  (exists ev,
     handle_all World render requests s
     = (Fine tt,
        mk_auth_state (outside s)
          (match last_code requests with
           | Some code => Some code
           | None => authorization_code s
           end),
        ev))
  /\ (forall params code more n,
        callback_get "code" params = Some (code, more) ->
        (1 <= n <= 4)%nat ->
        exists ev,
          do_GET World render (mk_callback params (Some n)) s
          = (Failed (OtherError OSError), mk_auth_state (outside s) (Some code), ev))
  /\ (forall params e,
        callback_get "code" params = None ->
        render (callback_failed_line (callback_error params)) = Raise e ->
        do_GET World render (arriving params) s
        = (Failed (OtherError e), s,
           [HeadSent; Wrote "<html><body>";
            Wrote ("<h1>Authentication Failed:</h1><p>" ++ callback_error params ++ "</p>");
            Wrote "</body></html>"])).
Proof.
  split; [| split].
  - destruct (handle_all_run requests s) as (ev & Hrun & _). exists ev. exact Hrun.
  - intros params code more n Hcode Hn.
    unfold do_GET, abind, wfile_write, set_authorization_code, start_shutdown.
    cbn [cb_params cb_writes]. rewrite Hcode.
    destruct n as [| [| [| [| [| n]]]]]; try lia; cbn; eexists; reflexivity.
  - intros params e Hnone Hline.
    unfold do_GET, abind, wfile_write, console_log, arriving.
    cbn [cb_params cb_writes]. rewrite Hnone. cbv beta iota zeta. rewrite Hline.
    destruct s. reflexivity.
Qed.

(** X24.  [clear_credentials] makes one attempt to delete the stored
    token.  When the deletion goes through it prints one line and
    returns.  When the deletion raises and the [errors] module of the
    keyring library has no [PasswordNotFoundError], the first handler
    cannot be looked up and [AttributeError] leaves the function, whatever
    was raised and with nothing printed; with that name in the module, a
    missing backend is reported in one line and the function returns. *)
Theorem clear_credentials_outcomes (s : auth_state World) :
  (forall w,
     keyring_delete_password (outside s) = (Fine tt, w) ->
     clear_credentials World keyring_delete_password render
       errors_has_PasswordNotFoundError exception_text s
     = (Fine tt, mk_auth_state w (authorization_code s), [KeyringDelete; Print SayCleared]))
  /\ (forall e w,
        keyring_delete_password (outside s) = (Failed e, w) ->
        errors_has_PasswordNotFoundError = false ->
        clear_credentials World keyring_delete_password render
          errors_has_PasswordNotFoundError exception_text s
        = (Failed (OtherError AttributeError), mk_auth_state w (authorization_code s),
           [KeyringDelete]))
  /\ (forall w,
        keyring_delete_password (outside s) = (Failed NoKeyringError, w) ->
        errors_has_PasswordNotFoundError = true ->
        clear_credentials World keyring_delete_password render
          errors_has_PasswordNotFoundError exception_text s
        = (Fine tt, mk_auth_state w (authorization_code s),
           [KeyringDelete; Print SayNoBackend])).
Proof.
  unfold clear_credentials, outside_call.
  split; [| split].
  - intros w ->. reflexivity.
  - intros e w -> ->. reflexivity.
  - intros w -> ->. reflexivity.
Qed.

(** X25.  With a stored refresh token and an answer of the token endpoint
    that holds an access token, [get_access_token] returns that token
    without opening the browser; it writes the keyring exactly when the
    answer also holds a refresh token, and then with that new token. *)
Theorem get_access_token_refreshes_and_rotates w code stored token w1 d access w2 :
  keyring_get_password w = (Fine stored, w1) ->
  given stored = Some token ->
  requests_post (mk_token_request (refresh_token_grant token)
                   (text_of CLIENT_ID) (text_of CLIENT_SECRET)) w1
  = (Fine (JDict d), w2) ->
  dict_get "access_token" d = Some access ->
  truthy access = true ->
  (dict_get "refresh_token" d = None ->
   get_access_token World keyring_get_password keyring_set_password requests_post
      webbrowser_open serve_forever CLIENT_ID CLIENT_SECRET render false (mk_auth_state w code)
   = (Fine access, mk_auth_state w2 code,
      [KeyringGet; Print SayFoundRefreshToken;
       Post (mk_token_request (refresh_token_grant token)
               (text_of CLIENT_ID) (text_of CLIENT_SECRET));
       Print SayGotNewAccessToken]))
  /\ (forall new_token w3,
        dict_get "refresh_token" d = Some new_token ->
        keyring_set_password new_token w2 = (Fine tt, w3) ->
        get_access_token World keyring_get_password keyring_set_password requests_post
      webbrowser_open serve_forever CLIENT_ID CLIENT_SECRET render false (mk_auth_state w code)
        = (Fine access, mk_auth_state w3 code,
           [KeyringGet; Print SayFoundRefreshToken;
            Post (mk_token_request (refresh_token_grant token)
                    (text_of CLIENT_ID) (text_of CLIENT_SECRET));
            KeyringSet new_token;
            Print SayGotNewAccessToken])).
Proof.
  intros Hget Hgiven Hpost Haccess Htruthy.
  split.
  - intros Hnone.
    unfold get_access_token, abind at 1, outside_call. cbn [outside authorization_code].
    rewrite Hget, Hgiven.
    unfold abind at 1, aprint. unfold abind at 1.
    unfold _refresh_access_token, abind at 1, outside_call. cbn [outside authorization_code].
    rewrite Hpost.
    unfold abind, of_result, aret, py_contains, py_getitem.
    rewrite Haccess, Hnone. cbv beta iota. rewrite Htruthy. reflexivity.
  - intros new_token w3 Hsome Hset.
    unfold get_access_token, abind at 1, outside_call. cbn [outside authorization_code].
    rewrite Hget, Hgiven.
    unfold abind at 1, aprint. unfold abind at 1.
    unfold _refresh_access_token, abind at 1, outside_call. cbn [outside authorization_code].
    rewrite Hpost.
    unfold abind, of_result, aret, py_contains, py_getitem, outside_call.
    rewrite Haccess, Hsome. cbv beta iota. cbn [outside authorization_code].
    rewrite Hset. cbv beta iota. rewrite Htruthy. reflexivity.
Qed.

(** X26.  [get_access_token] falls back to the interactive flow when no
    refresh token is stored, and when the token endpoint answers the
    refresh with an object that has no access token: the flow then runs
    from the state these steps left. *)
Theorem get_access_token_falls_back_to_flow w code stored w1 :
  keyring_get_password w = (Fine stored, w1) ->
  (given stored = None ->
   get_access_token World keyring_get_password keyring_set_password requests_post
      webbrowser_open serve_forever CLIENT_ID CLIENT_SECRET render false (mk_auth_state w code)
   = (let '(r, s', ev) := _perform_auth_flow World keyring_set_password requests_post webbrowser_open
      serve_forever CLIENT_ID CLIENT_SECRET render (mk_auth_state w1 code) in
      (r, s', [KeyringGet; Print SayNoRefreshTokenStartingFlow] ++ ev)))
  /\ (forall token d w2,
        given stored = Some token ->
        requests_post (mk_token_request (refresh_token_grant token)
                         (text_of CLIENT_ID) (text_of CLIENT_SECRET)) w1
        = (Fine (JDict d), w2) ->
        dict_get "access_token" d = None ->
        get_access_token World keyring_get_password keyring_set_password requests_post
      webbrowser_open serve_forever CLIENT_ID CLIENT_SECRET render false (mk_auth_state w code)
        = (let '(r, s', ev) := _perform_auth_flow World keyring_set_password requests_post webbrowser_open
      serve_forever CLIENT_ID CLIENT_SECRET render (mk_auth_state w2 code) in
           (r, s',
            [KeyringGet; Print SayFoundRefreshToken;
             Post (mk_token_request (refresh_token_grant token)
                     (text_of CLIENT_ID) (text_of CLIENT_SECRET));
             Print SayCouldNotRefresh; Print SayRefreshFailedStartingFlow] ++ ev))).
Proof.
  intros Hget. split.
  - intros Hnone.
    unfold get_access_token, abind at 1, outside_call. cbn [outside authorization_code].
    rewrite Hget, Hnone. unfold abind, aprint.
    destruct (_perform_auth_flow World keyring_set_password requests_post webbrowser_open
      serve_forever CLIENT_ID CLIENT_SECRET render (mk_auth_state w1 code)) as [[r s'] ev]. reflexivity.
  - intros token d w2 Hgiven Hpost Hnone.
    unfold get_access_token, abind at 1, outside_call. cbn [outside authorization_code].
    rewrite Hget, Hgiven.
    unfold abind at 1, aprint. unfold abind at 1.
    unfold _refresh_access_token, abind at 1, outside_call. cbn [outside authorization_code].
    rewrite Hpost.
    unfold abind, of_result, aret, aprint, py_contains.
    rewrite Hnone. cbv beta iota. change (truthy JNull) with false. cbv beta iota.
    destruct (_perform_auth_flow World keyring_set_password requests_post webbrowser_open
      serve_forever CLIENT_ID CLIENT_SECRET render (mk_auth_state w2 code)) as [[r s'] ev]. reflexivity.
Qed.

(** X27.  Without both client credentials the interactive flow gives up at
    once: it prints the error and returns nothing, and neither opens the
    browser nor listens nor posts. *)
Theorem perform_auth_flow_needs_credentials (s : auth_state World) :
  given CLIENT_ID = None \/ given CLIENT_SECRET = None ->
  _perform_auth_flow World keyring_set_password requests_post webbrowser_open
      serve_forever CLIENT_ID CLIENT_SECRET render s = (Fine JNull, s, [Print SayCredentialsMissing]).
Proof.
  intros Hmissing.
  assert (Hurl : Auth.auth_url CLIENT_ID CLIENT_SECRET = None).
  { unfold Auth.auth_url. destruct Hmissing as [-> | ->];
      [reflexivity | destruct (given CLIENT_ID); reflexivity]. }
  unfold _perform_auth_flow. rewrite Hurl. reflexivity.
Qed.

(** X28.  In the interactive flow, with credentials set and the browser
    opened, what the token endpoint answers decides the result: without a
    refresh token in the answer the flow returns nothing and stores
    nothing, even when an access token is there; with one, it stores the
    refresh token first and returns the access token of the answer, or
    nothing when the answer has none. *)
Theorem perform_auth_flow_result w code0 url w1 first rest w2 code d w3 :
  Auth.auth_url CLIENT_ID CLIENT_SECRET = Some url ->
  webbrowser_open url w = (Fine tt, w1) ->
  serve_forever w1 = (Fine (first, rest), w2) ->
  given (match last_code (first :: rest) with
         | Some c => Some c
         | None => code0
         end) = Some code ->
  requests_post (mk_token_request (authorization_code_grant code Auth.REDIRECT_URI)
                   (text_of CLIENT_ID) (text_of CLIENT_SECRET)) w2
  = (Fine (JDict d), w3) ->
  (dict_get "refresh_token" d = None ->
   exists s' ev,
     _perform_auth_flow World keyring_set_password requests_post webbrowser_open
      serve_forever CLIENT_ID CLIENT_SECRET render (mk_auth_state w code0) = (Fine JNull, s', ev)
     /\ outside s' = w3
     /\ filter is_keyring_set ev = [])
  /\ (forall refresh_token w4,
        dict_get "refresh_token" d = Some refresh_token ->
        keyring_set_password refresh_token w3 = (Fine tt, w4) ->
        exists s' ev,
          _perform_auth_flow World keyring_set_password requests_post webbrowser_open
      serve_forever CLIENT_ID CLIENT_SECRET render (mk_auth_state w code0)
          = (Fine (match dict_get "access_token" d with
                   | Some access => access
                   | None => JNull
                   end), s', ev)
          /\ outside s' = w4
          /\ filter is_keyring_set ev = [KeyringSet refresh_token]).
Proof.
  intros Hurl Hopen Hserve Hcode Hpost.
  destruct (handle_all_run (first :: rest) (mk_auth_state w2 code0))
    as (evh & Hhandle & Hquiet).
  cbn [outside authorization_code] in Hhandle.
  split.
  - intros Hnone.
    do 2 eexists. split; [| split].
    + unfold _perform_auth_flow. rewrite Hurl.
      unfold abind at 1, aprint. unfold abind at 1. unfold abind at 1.
      unfold abind at 1, outside_call. cbn [outside authorization_code].
      rewrite Hopen. unfold abind at 1. cbn [outside authorization_code].
      rewrite Hserve. unfold abind at 1. cbn [fst snd]. rewrite Hhandle.
      unfold abind at 1, get_authorization_code. cbn [outside authorization_code].
      rewrite Hcode.
      unfold abind at 1, outside_call. cbn [outside authorization_code].
      rewrite Hpost.
      unfold abind, of_result, aprint, aret, py_contains. rewrite Hnone.
      reflexivity.
    + reflexivity.
    + simpl. rewrite !filter_app. rewrite Hquiet. reflexivity.
  - intros refresh_token w4 Hsome Hset.
    do 2 eexists. split; [| split].
    + unfold _perform_auth_flow. rewrite Hurl.
      unfold abind at 1, aprint. unfold abind at 1. unfold abind at 1.
      unfold abind at 1, outside_call. cbn [outside authorization_code].
      rewrite Hopen. unfold abind at 1. cbn [outside authorization_code].
      rewrite Hserve. unfold abind at 1. cbn [fst snd]. rewrite Hhandle.
      unfold abind at 1, get_authorization_code. cbn [outside authorization_code].
      rewrite Hcode.
      unfold abind at 1, outside_call. cbn [outside authorization_code].
      rewrite Hpost.
      unfold abind, of_result, aprint, aret, py_contains, py_getitem, py_get, outside_call.
      rewrite Hsome. cbv beta iota. cbn [outside authorization_code].
      rewrite Hset. reflexivity.
    + reflexivity.
    + simpl. rewrite !filter_app. rewrite Hquiet. reflexivity.
Qed.

End FlowFacts.

(** An error redirect whose error text reads as a closing tag: the page
    is written, the log line is refused, and the handler raises. *)
Example callback_error_markup_example :
  do_GET (option json) tag_render (arriving [("error", ("[/x]", []))])
    (mk_auth_state None None)
  = (Failed (OtherError MarkupError), mk_auth_state None None,
     [HeadSent; Wrote "<html><body>";
      Wrote "<h1>Authentication Failed:</h1><p>[/x]</p>";
      Wrote "</body></html>"]).
Proof. vm_compute. reflexivity. Qed.

(** A code that arrives on a connection that breaks after the response
    head is kept, and an error redirect after it does not remove it. *)
Example handle_all_example :
  handle_all (option json) tag_render
    [mk_callback [("code", ("c1", []))] (Some 1%nat);
     arriving [("error", ("access_denied", []))]]
    (mk_auth_state None None)
  = (Fine tt, mk_auth_state None (Some "c1"),
     [HeadSent; Traceback (OtherError OSError);
      HeadSent; Wrote "<html><body>";
      Wrote "<h1>Authentication Failed:</h1><p>access_denied</p>";
      Wrote "</body></html>";
      Print (SayCallbackFailed "access_denied"); ShutdownStarted]).
Proof. vm_compute. reflexivity. Qed.

(** Clearing credentials when nothing is stored, with a keyring library
    whose [errors] module has no [PasswordNotFoundError]. *)
Example clear_credentials_example :
  clear_credentials (option json) memory_delete tag_render false (fun _ => "")
    (mk_auth_state None None)
  = (Failed (OtherError AttributeError), mk_auth_state None None, [KeyringDelete]).
Proof. vm_compute. reflexivity. Qed.

(** The theorems of the token flow on a keyring that holds one password
    and a token endpoint that answers one document. *)

Lemma get_access_token_refreshes_and_rotates_witness :
  get_access_token (option json) memory_get memory_set
    (answer_with (JDict [("access_token", JStr "a1")]))
    browser_opens (listener_handles (arriving []) []) (Some "id") (Some "secret") tag_render false
    (mk_auth_state (Some (JStr "r1")) None)
  = (Fine (JStr "a1"), mk_auth_state (Some (JStr "r1")) None,
     [KeyringGet; Print SayFoundRefreshToken;
      Post (mk_token_request (refresh_token_grant "r1") "id" "secret");
      Print SayGotNewAccessToken])
  /\ get_access_token (option json) memory_get memory_set
       (answer_with (JDict [("access_token", JStr "a1"); ("refresh_token", JStr "r2")]))
       browser_opens (listener_handles (arriving []) []) (Some "id") (Some "secret") tag_render false
       (mk_auth_state (Some (JStr "r1")) None)
     = (Fine (JStr "a1"), mk_auth_state (Some (JStr "r2")) None,
        [KeyringGet; Print SayFoundRefreshToken;
         Post (mk_token_request (refresh_token_grant "r1") "id" "secret");
         KeyringSet (JStr "r2");
         Print SayGotNewAccessToken]).
Proof.
  split.
  - apply (proj1 (get_access_token_refreshes_and_rotates (option json) memory_get memory_set
                    (answer_with (JDict [("access_token", JStr "a1")]))
                    browser_opens (listener_handles (arriving []) []) (Some "id") (Some "secret") tag_render
                    (Some (JStr "r1")) None (Some "r1") "r1" (Some (JStr "r1"))
                    [("access_token", JStr "a1")] (JStr "a1") (Some (JStr "r1"))
                    eq_refl eq_refl eq_refl eq_refl eq_refl)).
    reflexivity.
  - apply (proj2 (get_access_token_refreshes_and_rotates (option json) memory_get memory_set
                    (answer_with (JDict [("access_token", JStr "a1");
                                         ("refresh_token", JStr "r2")]))
                    browser_opens (listener_handles (arriving []) []) (Some "id") (Some "secret") tag_render
                    (Some (JStr "r1")) None (Some "r1") "r1" (Some (JStr "r1"))
                    [("access_token", JStr "a1"); ("refresh_token", JStr "r2")]
                    (JStr "a1") (Some (JStr "r1"))
                    eq_refl eq_refl eq_refl eq_refl eq_refl)
             (JStr "r2") (Some (JStr "r2"))); reflexivity.
Defined.

Lemma get_access_token_falls_back_to_flow_witness :
  get_access_token (option json) memory_get memory_set
    (answer_with (JDict [])) browser_opens (listener_handles (arriving []) [])
    None (Some "secret") tag_render false (mk_auth_state None None)
  = (Fine JNull, mk_auth_state None None,
     [KeyringGet; Print SayNoRefreshTokenStartingFlow; Print SayCredentialsMissing])
  /\ get_access_token (option json) memory_get memory_set
       (answer_with (JDict [])) browser_opens (listener_handles (arriving []) [])
       None (Some "secret") tag_render false (mk_auth_state (Some (JStr "r1")) None)
     = (Fine JNull, mk_auth_state (Some (JStr "r1")) None,
        [KeyringGet; Print SayFoundRefreshToken;
         Post (mk_token_request (refresh_token_grant "r1") "None" "secret");
         Print SayCouldNotRefresh; Print SayRefreshFailedStartingFlow;
         Print SayCredentialsMissing]).
Proof.
  split.
  - apply (proj1 (get_access_token_falls_back_to_flow (option json) memory_get memory_set
                    (answer_with (JDict [])) browser_opens (listener_handles (arriving []) [])
                    None (Some "secret") tag_render None None None None eq_refl)).
    reflexivity.
  - apply (proj2 (get_access_token_falls_back_to_flow (option json) memory_get memory_set
                    (answer_with (JDict [])) browser_opens (listener_handles (arriving []) [])
                    None (Some "secret") tag_render (Some (JStr "r1")) None (Some "r1")
                    (Some (JStr "r1")) eq_refl)
             "r1" [] (Some (JStr "r1"))); reflexivity.
Defined.

Lemma perform_auth_flow_needs_credentials_witness :
  _perform_auth_flow (option json) memory_set (answer_with (JDict []))
    browser_opens (listener_handles (arriving []) []) (Some "id") (Some "") tag_render (mk_auth_state None None)
  = (Fine JNull, mk_auth_state None None, [Print SayCredentialsMissing]).
Proof.
  apply (perform_auth_flow_needs_credentials (option json) memory_set
           (answer_with (JDict [])) browser_opens (listener_handles (arriving []) [])
           (Some "id") (Some "") tag_render (mk_auth_state None None)).
  right. reflexivity.
Defined.

Lemma perform_auth_flow_result_witness :
  (exists s' ev,
     _perform_auth_flow (option json) memory_set
       (answer_with (JDict [("access_token", JStr "a1")]))
       browser_opens (listener_handles (arriving [("code", ("c1", []))]) [])
       (Some "id") (Some "secret") tag_render (mk_auth_state None None)
     = (Fine JNull, s', ev)
     /\ outside s' = None
     /\ filter is_keyring_set ev = [])
  /\ (exists s' ev,
        _perform_auth_flow (option json) memory_set
          (answer_with (JDict [("access_token", JStr "a1"); ("refresh_token", JStr "r1")]))
          browser_opens (listener_handles (arriving [("code", ("c1", []))]) [])
          (Some "id") (Some "secret") tag_render (mk_auth_state None None)
        = (Fine (JStr "a1"), s', ev)
        /\ outside s' = Some (JStr "r1")
        /\ filter is_keyring_set ev = [KeyringSet (JStr "r1")]).
Proof.
  split.
  - apply (proj1 (perform_auth_flow_result (option json) memory_set
                    (answer_with (JDict [("access_token", JStr "a1")]))
                    browser_opens (listener_handles (arriving [("code", ("c1", []))]) [])
                    (Some "id") (Some "secret") tag_render
                    None None _ None (arriving [("code", ("c1", []))]) [] None "c1"
                    [("access_token", JStr "a1")] None
                    eq_refl eq_refl eq_refl eq_refl eq_refl)).
    reflexivity.
  - apply (proj2 (perform_auth_flow_result (option json) memory_set
                    (answer_with (JDict [("access_token", JStr "a1");
                                         ("refresh_token", JStr "r1")]))
                    browser_opens (listener_handles (arriving [("code", ("c1", []))]) [])
                    (Some "id") (Some "secret") tag_render
                    None None _ None (arriving [("code", ("c1", []))]) [] None "c1"
                    [("access_token", JStr "a1"); ("refresh_token", JStr "r1")] None
                    eq_refl eq_refl eq_refl eq_refl eq_refl)
             (JStr "r1") (Some (JStr "r1"))); reflexivity.
Defined.

End AuthFlowFacts.
